(** * naive_mandelbrot.py: escape-time grid over pure Python lists

    A shallow embedding of [mandelbrot_point], [linspace] and
    [mandelbrot_grid] from [naive_mandelbrot.py].

    - Python's [float] is IEEE-754 binary64.  The operations the program
      uses ([+], [-], [*], [/], [>], [==], int-to-float conversion) are
      collected in the interface [PyFloat]; the program text is embedded
      once, over that interface.
    - The instance [binary64] is the arithmetic CPython runs: the
      Standard Library's executable specification [SpecFloat] at
      precision 53 and maximal exponent 1024, each operation rounded to
      nearest-even on its own (no fused multiply-add).
    - The instance [exactQ] evaluates the same program text over the
      rationals; it is the reading "up to rounding" of statements about
      sampled coordinates.
    - Python's [int] is unbounded: [Z].  Exceptions are an error monad
      [result]; [/] raises [ZeroDivisionError] on a zero divisor, list
      subscripts raise [IndexError] when out of range, and an int operand
      of a float operation that is too large for a float raises
      [OverflowError].
    - Complex arithmetic follows CPython's [complex] type: a float
      operand is first made complex with imaginary part [0.0], the sum is
      taken componentwise and the product of [a] and [b] is
      [(a.real*b.real - a.imag*b.imag, a.real*b.imag + a.imag*b.real)].
    - Converting an int to a float rounds to nearest-even, and raises
      [OverflowError] instead of producing an infinity: in binary64 when
      the magnitude is [2**1024 - 2**970] or more.  The int literals of
      the program ([0] in [0 + 0j]) always convert.
    - The exhaustion of memory by a long list is left out. *)

From Stdlib Require Import ZArith QArith Qfield Lia Lqa.
From Stdlib Require Import Floats.SpecFloat Floats.FloatOps.
From stdpp Require Import base list.

Local Open Scope Z_scope.

(** ** Exceptions *)

Inductive exn : Type :=
  | ZeroDivisionError
  | IndexError
  | OverflowError.

Inductive result (A : Type) : Type :=
  | Ok (a : A)
  | Raise (e : exn).
Arguments Ok {A} a.
Arguments Raise {A} e.

Definition bind {A B} (m : result A) (k : A → result B) : result B :=
  match m with
  | Ok a => k a
  | Raise e => Raise e
  end.

Notation "'let*' x := m 'in' k" := (bind m (fun x => k))
  (at level 10, x name, m at level 100, k at level 200).

(** [for x in xs: s = body x s], stopping at the first exception. *)
Fixpoint for_each {A S} (body : A → S → result S) (xs : list A) (s : S)
  : result S :=
  match xs with
  | [] => Ok s
  | x :: xs' => let* s' := body x s in for_each body xs' s'
  end.

(** [[f(x) for x in xs]], stopping at the first exception. *)
Fixpoint map_result {A B} (f : A → result B) (xs : list A) : result (list B) :=
  match xs with
  | [] => Ok []
  | x :: xs' =>
      let* y := f x in
      let* ys := map_result f xs' in
      Ok (y :: ys)
  end.

(** [range(n)]: the indices 0, 1, ..., n-1; empty when [n <= 0]. *)
Definition range (n : Z) : list nat := seq 0 (Z.to_nat n).

(** [l[i]] for a non-negative index. *)
Definition get_item {A} (l : list A) (i : nat) : result A :=
  match l !! i with
  | Some x => Ok x
  | None => Raise IndexError
  end.

(** [l[i] = v] for a non-negative index. *)
Definition set_item {A} (l : list A) (i : nat) (v : A) : result (list A) :=
  match l !! i with
  | Some _ => Ok (<[i := v]> l)
  | None => Raise IndexError
  end.

(** ** The arithmetic the program uses *)

Class PyFloat (F : Type) : Type := {
  fadd : F → F → F;
  fsub : F → F → F;
  fmul : F → F → F;
  fquot : F → F → F;        (* the quotient, for a nonzero divisor *)
  fgtb : F → F → bool;      (* [x > y] *)
  feqb : F → F → bool;      (* [x == y] *)
  of_int : Z → F;           (* the float nearest to the int [n] *)
  int_fits : Z → bool       (* converting [n] does not overflow *)
}.

Section Program.
Context {F : Type} `{PyFloat F}.

(** The conversion of an int operand of a float operation. *)
Definition float_of_int (n : Z) : result F :=
  if int_fits n then Ok (of_int n) else Raise OverflowError.

(** [x / y] on floats. *)
Definition fdiv (x y : F) : result F :=
  if feqb y (of_int 0) then Raise ZeroDivisionError else Ok (fquot x y).

(** Python's [complex]: a pair of floats. *)
Record complex : Type := Complex { real : F; imag : F }.

(** A float operand of a complex operation is first made complex. *)
Definition complex_of_float (x : F) : complex := Complex x (of_int 0).

Definition c_add (a b : complex) : complex :=
  Complex (fadd (real a) (real b)) (fadd (imag a) (imag b)).

Definition c_mul (a b : complex) : complex :=
  Complex (fsub (fmul (real a) (real b)) (fmul (imag a) (imag b)))
          (fadd (fmul (real a) (imag b)) (fmul (imag a) (real b))).

(** The literal [1j]. *)
Definition c_j : complex := Complex (of_int 0) (of_int 1).

(** The value of [0 + 0j]. *)
Definition c_zero : complex := Complex (of_int 0) (of_int 0).

(** [z.real * z.real + z.imag * z.imag > 4.0] *)
Definition escaped (z : complex) : bool :=
  fgtb (fadd (fmul (real z) (real z)) (fmul (imag z) (imag z))) (of_int 4).

(** [z = z * z + c] *)
Definition step (c z : complex) : complex := c_add (c_mul z z) c.

(** The value of [z] after [k] passes through the loop body. *)
Fixpoint orbit (c : complex) (k : nat) : complex :=
  match k with
  | O => c_zero
  | S k' => step c (orbit c k')
  end.

(** The [for n in range(max_iter)] loop of [mandelbrot_point], entered
    with counter [n], current [z] and [k] iterations left: [Some n'] is
    the [return n'] inside the loop, [None] is falling off its end. *)
Fixpoint escape_loop (c z : complex) (n : Z) (k : nat) : option Z :=
  match k with
  | O => None
  | S k' =>
      let z' := step c z in
      if escaped z' then Some n else escape_loop c z' (n + 1) k'
  end.

Definition mandelbrot_point (c : complex) (max_iter : Z) : Z :=
  match escape_loop c c_zero 0 (Z.to_nat max_iter) with
  | Some n => n
  | None => max_iter
  end.

Definition linspace (start stop : F) (num : Z) : result (list F) :=
  if num =? 1 then Ok [start]
  else
    let* d := float_of_int (num - 1) in
    let* step := fdiv (fsub stop start) d in
    map_result
      (fun i => let* fi := float_of_int (Z.of_nat i) in
                Ok (fadd start (fmul fi step)))
      (range num).

(** The [step] that [linspace] computes when [num] is not 1 and
    [num - 1] converts, and the element it then puts at index [i]. *)
Definition axis_step (start stop : F) (num : Z) : F :=
  fquot (fsub stop start) (of_int (num - 1)).

Definition axis_elem (start stop : F) (num : Z) (i : nat) : F :=
  fadd start (fmul (of_int (Z.of_nat i)) (axis_step start stop num)).

(** [xs[i] + 1j * ys[j]] *)
Definition sample_point (x y : F) : complex :=
  c_add (complex_of_float x) (c_mul c_j (complex_of_float y)).

(** [[[0 for _ in range(width)] for _ in range(height)]]: every row is
    a list of its own. *)
Definition zero_grid (width height : Z) : list (list Z) :=
  (fun _ => (fun _ => 0) <$> range width) <$> range height.

(** The body of the inner loop: read [xs[i]] and [ys[j]], evaluate the
    point and store the count in [iters[j][i]]. *)
Definition cell_body (xs ys : list F) (max_iter : Z) (j i : nat)
    (iters : list (list Z)) : result (list (list Z)) :=
  let* x := get_item xs i in
  let* y := get_item ys j in
  let c := sample_point x y in
  let v := mandelbrot_point c max_iter in
  let* row := get_item iters j in
  let* row' := set_item row i v in
  Ok (<[j := row']> iters).

Definition row_body (xs ys : list F) (width max_iter : Z) (j : nat)
    (iters : list (list Z)) : result (list (list Z)) :=
  for_each (cell_body xs ys max_iter j) (range width) iters.

Definition mandelbrot_grid (xmin xmax ymin ymax : F)
    (width height max_iter : Z) : result (list (list Z)) :=
  let* xs := linspace xmin xmax width in
  let* ys := linspace ymin ymax height in
  let iters := zero_grid width height in
  for_each (row_body xs ys width max_iter) (range height) iters.

(** The count the loops store at row [j], column [i]: the evaluation
    of the point formed from [xs[i]] and [ys[j]]. *)
Definition cell_value (xs ys : list F) (max_iter : Z) (j i : nat)
  : option Z :=
  x ← xs !! i; y ← ys !! j;
  Some (mandelbrot_point (sample_point x y) max_iter).

(** [grid[j][i]], when both subscripts are in range. *)
Definition cell (grid : list (list Z)) (j i : nat) : option Z :=
  row ← grid !! j; row !! i.

End Program.

Arguments complex F : clear implicits.

(** The two facts about int-to-float conversion that the program relies
    on: only the integer 0 converts to a float that compares equal to
    zero, and when a non-negative int converts, so does every smaller
    non-negative one. *)
Class PyFloatLaws (F : Type) `{PyFloat F} : Prop := {
  of_int_nonzero : ∀ n : Z, n ≠ 0 → feqb (of_int n) (of_int 0) = false;
  int_fits_between :
    ∀ n i : Z, 0 ≤ i ≤ n → int_fits n = true → int_fits i = true
}.

(** ** IEEE-754 binary64, the arithmetic of CPython's [float] *)

Definition b64 (m e : Z) : spec_float := binary_normalize prec emax m e false.

(** A binary64 value that is neither an infinity nor NaN. *)
Definition finite64 (x : spec_float) : bool :=
  match x with
  | S754_zero _ | S754_finite _ _ _ => true
  | S754_infinity _ | S754_nan => false
  end.

#[export] Instance binary64 : PyFloat spec_float := {
  fadd := SFadd prec emax;
  fsub := SFsub prec emax;
  fmul := SFmul prec emax;
  fquot := SFdiv prec emax;
  fgtb := fun x y => SFltb y x;
  feqb := SFeqb;
  of_int := fun n => b64 n 0;
  int_fits := fun n => finite64 (b64 n 0)
}.

(** ** Exact rational arithmetic *)

#[export] Instance exactQ : PyFloat Q := {
  fadd := Qplus;
  fsub := Qminus;
  fmul := Qmult;
  fquot := Qdiv;
  fgtb := fun x y => if Qlt_le_dec y x then true else false;
  feqb := Qeq_bool;
  of_int := inject_Z;
  int_fits := fun _ => true
}.

(** The default view of [mandelbrot_grid]. *)
Definition default_xmin : spec_float := b64 (-2) 0.
Definition default_xmax : spec_float := b64 1 0.
Definition default_ymin : spec_float := b64 (-3) (-1).
Definition default_ymax : spec_float := b64 3 (-1).

(** [math.isclose(a, b, rel_tol=tol, abs_tol=0.0)]:
    [abs(a - b) <= tol * max(abs(a), abs(b))]. *)
Definition isclose64 (tol a b : spec_float) : bool :=
  let bound x := SFmul prec emax tol (SFabs x) in
  let d := SFabs (SFsub prec emax a b) in
  SFleb d (bound a) || SFleb d (bound b).

(** [last l]: the element at index [len(l) - 1]. *)
Definition last_elem {A} (l : list A) : option A := l !! (length l - 1)%nat.

(** [all(xs[i] <= xs[i+1] for i in range(len(xs) - 1))] *)
Definition nondecreasing64 (xs : list spec_float) : Prop :=
  ∀ (i : nat) a b, xs !! i = Some a → xs !! S i = Some b → SFleb a b = true.

Definition nondecreasingQ (xs : list Q) : Prop :=
  ∀ (i : nat) a b, xs !! i = Some a → xs !! S i = Some b → (a <= b)%Q.

(** Exact equality of an optional rational with a rational. *)
Definition isQ (o : option Q) (q : Q) : Prop :=
  ∃ x, o = Some x ∧ (x == q)%Q.

(** ** Notions used to analyse binary64 rounding

    None of this is program text.  Every binary64 value gets an integer,
    its value in units of [2^-2148] (fine enough for the exact product of
    two finite floats to be an integer as well), and rounding to nearest
    with ties to even is described as a function on such integers. *)

(** Round-half-even of [m / 2^n]. *)
Definition rne (m n : Z) : Z :=
  let q := m / 2 ^ n in
  match 2 * (m mod 2 ^ n) ?= 2 ^ n with
  | Lt => q
  | Eq => if Z.even q then q else q + 1
  | Gt => q + 1
  end.

(** [2^1024] in units of [2^-2148]: the value an infinity counts for. *)
Definition top : Z := 2 ^ (emax + 2148).

(** The value of a float in units of [2^-2148]. *)
Definition valZ (x : spec_float) : Z :=
  match x with
  | S754_zero _ | S754_nan => 0
  | S754_infinity s => cond_Zopp s top
  | S754_finite s m e => cond_Zopp s (Z.pos m * 2 ^ (e + 2148))
  end.

(** [x] is not NaN and carries the sign bit [s]. *)
Definition has_sign (s : bool) (x : spec_float) : Prop :=
  match x with
  | S754_zero s' | S754_infinity s' | S754_finite s' _ _ => s' = s
  | S754_nan => False
  end.

(** The second half of [binary_round_aux]: renormalise after rounding
    and check the exponent. *)
Definition finish (s : bool) (m1 e1 : Z) : spec_float :=
  let '(mrs, e2) := shr_fexp prec emax m1 e1 loc_Exact in
  match shr_m mrs with
  | Z0 => S754_zero s
  | Zpos m => if e2 <=? emax - prec then S754_finite s m e2 else S754_infinity s
  | Zneg _ => S754_nan
  end.

(** The exponent, in units of [2^-2148], at which the integer [v] is
    rounded: 53 significant bits, but never finer than [2^-1074]. *)
Definition Kof (v : Z) : Z := Z.max (Zdigits2 v - prec) 1074.

(** Rounding a non-negative integer, before the overflow check. *)
Definition RZ (v : Z) : Z := rne v (Kof v) * 2 ^ Kof v.

(** Rounding any integer, overflow mapped to the value of an infinity. *)
Definition rndZ (z : Z) : Z :=
  if 0 <=? z then Z.min (RZ z) top else - Z.min (RZ (- z)) top.

(** Two floats that [==] cannot tell apart: the same float, or two zeros. *)
Definition same_value (a b : spec_float) : Prop :=
  match a, b with
  | S754_zero _, S754_zero _ => True
  | _, _ => a = b
  end.

Definition same_point (c c' : complex spec_float) : Prop :=
  same_value (real c) (real c') ∧ same_value (imag c) (imag c').

(** The float [1.0]. *)
Definition one64 : spec_float := S754_finite false 4503599627370496 (-52).

(** ** The scan of the script *)

(** [max(l)] for a list of ints: [None] is the [ValueError] that [max]
    raises on an empty sequence. *)
Definition py_max (l : list Z) : option Z :=
  match l with
  | [] => None
  | x :: l' => Some (foldl (λ best y, if best <? y then y else best) x l')
  end.

(** [max(max(row) for row in grid)], the scan of the script. *)
Definition max_in_grid (grid : list (list Z)) : option Z :=
  row_maxima ← mapM py_max grid; py_max row_maxima.

(** What the script prints about the grid: [len(grid)], [len(grid[0])]
    and [max_in_grid]; [None] when [max] or [grid[0]] raises. *)
Definition grid_report (grid : list (list Z)) : option (nat * nat * Z) :=
  m ← max_in_grid grid; row ← grid !! 0%nat; Some (length grid, length row, m).

(** The grid the script computes: default bounds, 1024 x 1024, budget 80. *)
Definition script_grid : result (list (list Z)) :=
  mandelbrot_grid default_xmin default_xmax default_ymin default_ymax
    1024 1024 80.

(** ** Further notions used to state properties *)

(** [all(xs[i] >= xs[i+1] for i in range(len(xs) - 1))] *)
Definition nonincreasing64 (xs : list spec_float) : Prop :=
  ∀ (i : nat) a b, xs !! i = Some a → xs !! S i = Some b → SFleb b a = true.

Definition nonincreasingQ (xs : list Q) : Prop :=
  ∀ (i : nat) a b, xs !! i = Some a → xs !! S i = Some b → (b <= a)%Q.

(** [z'] is the conjugate of [z], up to the sign of zeros. *)
Definition conj_of (z z' : complex spec_float) : Prop :=
  same_value (real z') (real z) ∧ same_value (imag z') (SFopp (imag z)).

(** The value of [1.0] in units of [2^-2148]. *)
Definition unitZ : Z := 2 ^ 2148.

(** The value of the largest finite float. *)
Definition maxZ : Z := (2 ^ 53 - 1) * 2 ^ 3119.

(** Coordinates that are valid, finite floats. *)
Definition finite_point (z : complex spec_float) : Prop :=
  valid_binary prec emax (real z) = true ∧ finite64 (real z) = true
  ∧ valid_binary prec emax (imag z) = true ∧ finite64 (imag z) = true.

(** ** Notions used to state the accuracy of an axis *)

(** The value of the smallest positive float, [2.0**-1074]; the value of
    every float is a multiple of it. *)
Definition gridZ : Z := 2 ^ 1074.

Definition on_grid (z : Z) : Prop := ∃ k, z = k * gridZ.

(** The value of the smallest normal float, [2.0**-1022]. *)
Definition normZ : Z := 2 ^ 1126.

(** The values of [2.0**1000] and of [2.0**1023]. *)
Definition limZ : Z := 2 ^ 3148.
Definition hugeZ : Z := 2 ^ 3171.

(** A normal float: finite and at least [2.0**-1022] in magnitude
    ([sys.float_info.min]). *)
Definition normal64 (x : spec_float) : bool :=
  finite64 x && SFleb (b64 1 (-1022)) (SFabs x).

(** The float [1e-9]. *)
Definition rel_tol : spec_float := S754_finite false 4835703278458517 (-82).

(** ** The error monad and the loops *)

Lemma lookup_range (n : Z) (i : nat) :
  (i < Z.to_nat n)%nat → range n !! i = Some i.
Proof. intros Hi. unfold range. now rewrite lookup_seq_lt. Qed.

Lemma length_range (n : Z) : length (range n) = Z.to_nat n.
Proof. unfold range. apply length_seq. Qed.

Lemma get_item_Some {A} (l : list A) i x : l !! i = Some x → get_item l i = Ok x.
Proof. unfold get_item. now intros ->. Qed.

Lemma set_item_Some {A} (l : list A) i v :
  (i < length l)%nat → set_item l i v = Ok (<[i := v]> l).
Proof.
  intros Hi. unfold set_item.
  destruct (lookup_lt_is_Some_2 l i Hi) as [x ->]. reflexivity.
Qed.

(** ** The escape-time loop, for any arithmetic *)

Section EscapeTime.
Context {F : Type} `{PyFloat F}.

Lemma escape_loop_Some c z n k r :
  escape_loop c z n k = Some r → n ≤ r < n + Z.of_nat k.
Proof.
  revert z n. induction k as [|k IH]; intros z n; simpl; [discriminate|].
  destruct (escaped (step c z)).
  - intros [= <-]. lia.
  - intros Hr. apply IH in Hr. lia.
Qed.

Lemma escape_loop_zero_budget c z n : escape_loop c z n 0 = None.
Proof. reflexivity. Qed.

(** What the loop returns, in terms of the iterates of [z]. *)
Lemma escape_loop_Some_orbit c k : ∀ j r,
  escape_loop c (orbit c j) (Z.of_nat j) k = Some r →
  ∃ i : nat, r = Z.of_nat i ∧ (j ≤ i < j + k)%nat ∧
    escaped (orbit c (S i)) = true ∧
    ∀ i', (j ≤ i' < i)%nat → escaped (orbit c (S i')) = false.
Proof.
  induction k as [|k IH]; intros j r; simpl; [discriminate|].
  destruct (escaped (step c (orbit c j))) eqn:E.
  - intros [= <-]. exists j. split; [reflexivity|]. split; [lia|].
    split; [exact E|]. intros i' Hi'. lia.
  - intros Hr. replace (Z.of_nat j + 1) with (Z.of_nat (S j)) in Hr by lia.
    apply (IH (S j)) in Hr as (i & -> & Hi & Hesc & Hbefore).
    exists i. split; [reflexivity|]. split; [lia|]. split; [exact Hesc|].
    intros i' Hi'. destruct (decide (i' = j)) as [->|Hne]; [exact E|].
    apply Hbefore. lia.
Qed.

Lemma escape_loop_None_orbit c k : ∀ j n,
  escape_loop c (orbit c j) n k = None →
  ∀ i, (j ≤ i < j + k)%nat → escaped (orbit c (S i)) = false.
Proof.
  induction k as [|k IH]; intros j n; simpl; [intros _ i Hi; lia|].
  destruct (escaped (step c (orbit c j))) eqn:E; [discriminate|].
  intros Hr i Hi. destruct (decide (i = j)) as [->|Hne]; [exact E|].
  apply (IH (S j) (n + 1) Hr). lia.
Qed.

Lemma mandelbrot_point_range c max_iter :
  0 ≤ max_iter → 0 ≤ mandelbrot_point c max_iter ≤ max_iter.
Proof.
  intros Hm. unfold mandelbrot_point.
  destruct (escape_loop _ _ _ _) as [r|] eqn:E; [|lia].
  apply escape_loop_Some in E. lia.
Qed.

(** A count below the budget is the index of the first iterate whose
    squared magnitude exceeds 4; a count equal to the budget means that
    none of the [max_iter] iterates did. *)
Lemma mandelbrot_point_escaped c max_iter :
  mandelbrot_point c max_iter < max_iter →
  ∃ i : nat, mandelbrot_point c max_iter = Z.of_nat i ∧
    escaped (orbit c (S i)) = true ∧
    ∀ i', (i' < i)%nat → escaped (orbit c (S i')) = false.
Proof.
  unfold mandelbrot_point.
  destruct (escape_loop _ _ _ _) as [r|] eqn:E; [intros _|lia].
  apply (escape_loop_Some_orbit c _ 0%nat) in E as (i & -> & _ & Hesc & Hb).
  exists i. split; [reflexivity|]. split; [exact Hesc|].
  intros i' Hi'. apply Hb. lia.
Qed.

Lemma mandelbrot_point_budget c max_iter :
  0 ≤ max_iter →
  mandelbrot_point c max_iter = max_iter →
  ∀ i : nat, Z.of_nat i < max_iter → escaped (orbit c (S i)) = false.
Proof.
  intros Hm. unfold mandelbrot_point.
  destruct (escape_loop _ _ _ _) as [r|] eqn:E.
  - intros ->. apply escape_loop_Some in E. lia.
  - intros _ i Hi. apply (escape_loop_None_orbit c _ 0%nat 0 E). lia.
Qed.

Lemma mandelbrot_point_no_budget c max_iter :
  max_iter ≤ 0 → mandelbrot_point c max_iter = max_iter.
Proof.
  intros Hm. unfold mandelbrot_point.
  replace (Z.to_nat max_iter) with 0%nat by lia. reflexivity.
Qed.

(** A point that the recurrence maps to itself from [0 + 0j], and that
    has not escaped, uses the whole budget. *)
Lemma escape_loop_fixed c z k n :
  step c z = z → escaped z = false → escape_loop c z n k = None.
Proof.
  intros Hz He. revert n. induction k as [|k IH]; intros n; simpl; [reflexivity|].
  rewrite Hz, He. apply IH.
Qed.

End EscapeTime.

(** ** The nested loops of [mandelbrot_grid] *)

Section GridLoops.
Context {F : Type} `{PyFloat F}.
Variables (xs ys : list F) (max_iter : Z).

Lemma cell_body_ok j i x y (iters : list (list Z)) row :
  xs !! i = Some x → ys !! j = Some y →
  iters !! j = Some row → (i < length row)%nat →
  cell_body xs ys max_iter j i iters =
    Ok (<[j := <[i := mandelbrot_point (sample_point x y) max_iter]> row]> iters).
Proof.
  intros Hx Hy Hrow Hi. unfold cell_body.
  rewrite (get_item_Some _ _ _ Hx), (get_item_Some _ _ _ Hy),
    (get_item_Some _ _ _ Hrow). simpl.
  rewrite set_item_Some by exact Hi. reflexivity.
Qed.

(** The inner loop over the columns [a, a + k) rewrites exactly those
    cells of row [j] and leaves everything else alone. *)
Lemma fill_row j y : ys !! j = Some y →
  ∀ (k a : nat) (iters : list (list Z)) (row : list Z),
    iters !! j = Some row →
    (a + k ≤ length row)%nat → (a + k ≤ length xs)%nat →
    ∃ row', for_each (cell_body xs ys max_iter j) (seq a k) iters
              = Ok (<[j := row']> iters)
      ∧ length row' = length row
      ∧ (∀ i, (a ≤ i < a + k)%nat → row' !! i = cell_value xs ys max_iter j i)
      ∧ (∀ i, ¬ (a ≤ i < a + k)%nat → row' !! i = row !! i).
Proof.
  intros Hy. induction k as [|k IH]; intros a iters row Hrow Hlen Hxs.
  - exists row. simpl. rewrite list_insert_id by exact Hrow.
    split; [reflexivity|]. split; [reflexivity|]. split; [intros i Hi; lia|].
    reflexivity.
  - destruct (lookup_lt_is_Some_2 xs a ltac:(lia)) as [x Hx].
    simpl. rewrite (cell_body_ok j a x y iters row) by (assumption || lia).
    simpl. set (v := mandelbrot_point (sample_point x y) max_iter).
    assert (Hj : (j < length iters)%nat) by (eapply lookup_lt_Some; eassumption).
    destruct (IH (S a) (<[j := <[a := v]> row]> iters) (<[a := v]> row))
      as (row' & Hrun & Hlen' & Hin & Hout).
    + apply list_lookup_insert_eq, Hj.
    + rewrite length_insert. lia.
    + lia.
    + exists row'. rewrite Hrun, list_insert_insert_eq.
      split; [reflexivity|]. split; [now rewrite Hlen', length_insert|].
      split.
      * intros i Hi. destruct (decide (i = a)) as [->|Hne].
        -- rewrite Hout by lia. rewrite list_lookup_insert_eq by lia.
           unfold cell_value. rewrite Hx, Hy. reflexivity.
        -- apply Hin. lia.
      * intros i Hi. rewrite Hout by lia.
        apply list_lookup_insert_ne. lia.
Qed.

Variable width : Z.
Hypothesis xs_long : (Z.to_nat width ≤ length xs)%nat.

Lemma row_body_ok j (iters : list (list Z)) row :
  (j < length ys)%nat → iters !! j = Some row → length row = Z.to_nat width →
  ∃ row', row_body xs ys width max_iter j iters = Ok (<[j := row']> iters)
    ∧ length row' = Z.to_nat width
    ∧ ∀ i, (i < Z.to_nat width)%nat → row' !! i = cell_value xs ys max_iter j i.
Proof.
  intros Hj Hrow Hlen.
  destruct (lookup_lt_is_Some_2 ys j Hj) as [y Hy].
  destruct (fill_row j y Hy (Z.to_nat width) 0%nat iters row Hrow)
    as (row' & Hrun & Hlen' & Hin & _); [lia|lia|].
  exists row'. split; [exact Hrun|]. split; [lia|].
  intros i Hi. apply Hin. lia.
Qed.

(** The outer loop over the rows [b, b + k). *)
Lemma fill_rows : ∀ (k b : nat) (iters : list (list Z)),
  (b + k ≤ length ys)%nat → (b + k ≤ length iters)%nat →
  (∀ j row, iters !! j = Some row → length row = Z.to_nat width) →
  ∃ iters', for_each (row_body xs ys width max_iter) (seq b k) iters = Ok iters'
    ∧ length iters' = length iters
    ∧ (∀ j row, iters' !! j = Some row → length row = Z.to_nat width)
    ∧ (∀ j i, (b ≤ j < b + k)%nat → (i < Z.to_nat width)%nat →
         cell iters' j i = cell_value xs ys max_iter j i)
    ∧ (∀ j, ¬ (b ≤ j < b + k)%nat → iters' !! j = iters !! j).
Proof.
  induction k as [|k IH]; intros b iters Hys Hit Hrows.
  - exists iters. simpl. split; [reflexivity|]. split; [reflexivity|].
    split; [exact Hrows|]. split; [intros j i Hj; lia|]. reflexivity.
  - destruct (lookup_lt_is_Some_2 iters b ltac:(lia)) as [row Hrow].
    destruct (row_body_ok b iters row ltac:(lia) Hrow (Hrows _ _ Hrow))
      as (row' & Hrun & Hlen' & Hcells).
    simpl. rewrite Hrun. simpl.
    destruct (IH (S b) (<[b := row']> iters)) as (iters' & Hrun' & Hl & Hr & Hin & Hout).
    + lia.
    + rewrite length_insert. lia.
    + intros j r Hjr. destruct (decide (j = b)) as [->|Hne].
      * rewrite list_lookup_insert_eq in Hjr by lia. now injection Hjr as <-.
      * rewrite list_lookup_insert_ne in Hjr by lia. eapply Hrows, Hjr.
    + exists iters'. split; [exact Hrun'|].
      split; [now rewrite Hl, length_insert|]. split; [exact Hr|]. split.
      * intros j i Hj Hi. destruct (decide (j = b)) as [->|Hne].
        -- unfold cell. rewrite Hout by lia.
           rewrite list_lookup_insert_eq by lia. simpl. now apply Hcells.
        -- apply Hin; lia.
      * intros j Hj. rewrite Hout by lia. apply list_lookup_insert_ne. lia.
Qed.

End GridLoops.

(** ** [linspace] and [mandelbrot_grid], for any arithmetic *)

Section Sampling.
Context {F : Type} `{PyFloatLaws F}.

Lemma linspace_one (start stop : F) : linspace start stop 1 = Ok [start].
Proof. reflexivity. Qed.

Lemma map_result_Ok {A B} (g : A → result B) (f : A → B) (xs : list A) :
  (∀ x, x ∈ xs → g x = Ok (f x)) → map_result g xs = Ok (f <$> xs).
Proof.
  induction xs as [|x xs IH]; intros Hg; [reflexivity|].
  cbn [map_result]. rewrite (Hg x) by left. cbn [bind].
  rewrite IH by (intros y Hy; apply Hg; now right). reflexivity.
Qed.

Lemma range_elem (n : Z) (i : nat) : i ∈ range n → (i < Z.to_nat n)%nat.
Proof. unfold range. rewrite elem_of_seq. lia. Qed.

(** When [num - 1] converts, no later conversion overflows and
    [linspace] returns the list of its elements. *)
Lemma linspace_many (start stop : F) num :
  num ≠ 1 → int_fits (num - 1) = true →
  linspace start stop num = Ok (axis_elem start stop num <$> range num).
Proof.
  intros Hn Hfits. unfold linspace, fdiv, float_of_int.
  destruct (Z.eqb_spec num 1) as [->|_]; [congruence|].
  rewrite Hfits. cbn [bind]. rewrite of_int_nonzero by lia. cbn [bind].
  apply map_result_Ok. intros i Hi. apply range_elem in Hi.
  rewrite (int_fits_between (num - 1) (Z.of_nat i)) by (auto; lia).
  reflexivity.
Qed.

(** When [num - 1] does not convert, [linspace] raises at the division. *)
Lemma linspace_overflow (start stop : F) num :
  num ≠ 1 → int_fits (num - 1) = false →
  linspace start stop num = Raise OverflowError.
Proof.
  intros Hn Hfits. unfold linspace, float_of_int.
  destruct (Z.eqb_spec num 1) as [->|_]; [congruence|].
  now rewrite Hfits.
Qed.

Lemma linspace_Ok_fits (start stop : F) num xs :
  linspace start stop num = Ok xs → num ≠ 1 → int_fits (num - 1) = true.
Proof.
  intros Hxs Hn. destruct (int_fits (num - 1)) eqn:E; [reflexivity|].
  rewrite linspace_overflow in Hxs by assumption. discriminate.
Qed.

Lemma linspace_length (start stop : F) num xs :
  linspace start stop num = Ok xs → length xs = Z.to_nat num.
Proof.
  intros Hxs. destruct (decide (num = 1)) as [->|Hn].
  - rewrite linspace_one in Hxs. now injection Hxs as <-.
  - rewrite linspace_many in Hxs
      by (try assumption; eapply linspace_Ok_fits; eassumption).
    injection Hxs as <-. now rewrite length_fmap, length_range.
Qed.

Lemma linspace_ok (start stop : F) num :
  int_fits (num - 1) = true →
  ∃ xs, linspace start stop num = Ok xs ∧ length xs = Z.to_nat num.
Proof.
  intros Hfits. destruct (decide (num = 1)) as [->|Hn].
  - exists [start]. now rewrite linspace_one.
  - eexists. split; [now apply linspace_many|].
    now rewrite length_fmap, length_range.
Qed.

Lemma linspace_empty (start stop : F) num :
  num < 1 → int_fits (num - 1) = true → linspace start stop num = Ok [].
Proof.
  intros Hn Hfits. rewrite linspace_many by (auto; lia).
  unfold range. now replace (Z.to_nat num) with 0%nat by lia.
Qed.

Lemma linspace_lookup (start stop : F) num xs i :
  linspace start stop num = Ok xs → num ≠ 1 → (i < Z.to_nat num)%nat →
  xs !! i = Some (axis_elem start stop num i).
Proof.
  intros Hxs Hn Hi.
  rewrite linspace_many in Hxs
    by (try assumption; eapply linspace_Ok_fits; eassumption).
  injection Hxs as <-. now rewrite list_lookup_fmap, lookup_range.
Qed.

Lemma length_zero_grid width height :
  length (zero_grid width height) = Z.to_nat height.
Proof. unfold zero_grid. now rewrite length_fmap, length_range. Qed.

Lemma zero_grid_rows width height j row :
  zero_grid width height !! j = Some row → length row = Z.to_nat width.
Proof.
  unfold zero_grid. rewrite list_lookup_fmap.
  destruct (range height !! j); simpl; [|discriminate].
  intros [= <-]. now rewrite length_fmap, length_range.
Qed.

(** Once both axes are sampled, the loops of [mandelbrot_grid] return:
    no subscript is out of range.  The grid has one row per
    [range(height)] index, every row has one cell per [range(width)]
    index, and every cell holds the evaluation of its sample point. *)
Lemma mandelbrot_grid_from_axes (xmin xmax ymin ymax : F) width height max_iter
    xs ys :
  linspace xmin xmax width = Ok xs → linspace ymin ymax height = Ok ys →
  ∃ grid,
    mandelbrot_grid xmin xmax ymin ymax width height max_iter = Ok grid
    ∧ length grid = Z.to_nat height
    ∧ (∀ j row, grid !! j = Some row → length row = Z.to_nat width)
    ∧ (∀ j i, (j < Z.to_nat height)%nat → (i < Z.to_nat width)%nat →
         cell grid j i = cell_value xs ys max_iter j i).
Proof.
  intros Hxs Hys.
  pose proof (linspace_length _ _ _ _ Hxs) as Hlx.
  pose proof (linspace_length _ _ _ _ Hys) as Hly.
  destruct (fill_rows xs ys max_iter width ltac:(lia)
              (Z.to_nat height) 0%nat (zero_grid width height))
    as (grid & Hrun & Hlen & Hrows & Hcells & _).
  - lia.
  - rewrite length_zero_grid. lia.
  - apply zero_grid_rows.
  - exists grid. unfold mandelbrot_grid. rewrite Hxs, Hys. simpl.
    fold (range height). rewrite length_zero_grid in Hlen.
    repeat (split; [first [reflexivity | assumption]|]).
    intros j i Hj Hi. apply Hcells; lia.
Qed.

(** [mandelbrot_grid] returns whenever [width - 1] and [height - 1]
    convert. *)
Lemma mandelbrot_grid_spec (xmin xmax ymin ymax : F) width height max_iter :
  int_fits (width - 1) = true → int_fits (height - 1) = true →
  ∃ xs ys grid,
    linspace xmin xmax width = Ok xs ∧ length xs = Z.to_nat width
    ∧ linspace ymin ymax height = Ok ys ∧ length ys = Z.to_nat height
    ∧ mandelbrot_grid xmin xmax ymin ymax width height max_iter = Ok grid
    ∧ length grid = Z.to_nat height
    ∧ (∀ j row, grid !! j = Some row → length row = Z.to_nat width)
    ∧ (∀ j i, (j < Z.to_nat height)%nat → (i < Z.to_nat width)%nat →
         cell grid j i = cell_value xs ys max_iter j i).
Proof.
  intros Hw Hh.
  destruct (linspace_ok xmin xmax width Hw) as (xs & Hxs & Hlx).
  destruct (linspace_ok ymin ymax height Hh) as (ys & Hys & Hly).
  destruct (mandelbrot_grid_from_axes xmin xmax ymin ymax width height max_iter
              xs ys Hxs Hys) as (grid & Hg & Hlen & Hrows & Hcells).
  exists xs, ys, grid. repeat (split; [assumption|]). assumption.
Qed.

(** A returned grid was built from two sampled axes. *)
Lemma mandelbrot_grid_inv (xmin xmax ymin ymax : F) width height max_iter grid :
  mandelbrot_grid xmin xmax ymin ymax width height max_iter = Ok grid →
  ∃ xs ys,
    linspace xmin xmax width = Ok xs ∧ length xs = Z.to_nat width
    ∧ linspace ymin ymax height = Ok ys ∧ length ys = Z.to_nat height
    ∧ length grid = Z.to_nat height
    ∧ (∀ j row, grid !! j = Some row → length row = Z.to_nat width)
    ∧ (∀ j i, (j < Z.to_nat height)%nat → (i < Z.to_nat width)%nat →
         cell grid j i = cell_value xs ys max_iter j i).
Proof.
  intros Hg.
  destruct (linspace xmin xmax width) as [xs|e] eqn:Hxs;
    [|unfold mandelbrot_grid in Hg; rewrite Hxs in Hg; discriminate].
  destruct (linspace ymin ymax height) as [ys|e] eqn:Hys;
    [|unfold mandelbrot_grid in Hg; rewrite Hxs, Hys in Hg; discriminate].
  destruct (mandelbrot_grid_from_axes xmin xmax ymin ymax width height max_iter
              xs ys Hxs Hys) as (grid' & Hg' & Hlen & Hrows & Hcells).
  rewrite Hg in Hg'. injection Hg' as <-.
  exists xs, ys.
  split; [reflexivity|]. split; [eapply linspace_length; eassumption|].
  split; [reflexivity|]. split; [eapply linspace_length; eassumption|].
  repeat (split; [assumption|]). assumption.
Qed.

(** An exception of either [linspace] call leaves [mandelbrot_grid]
    unchanged, before any cell is computed. *)
Lemma mandelbrot_grid_raise_x (xmin xmax ymin ymax : F) width height max_iter e :
  linspace xmin xmax width = Raise e →
  mandelbrot_grid xmin xmax ymin ymax width height max_iter = Raise e.
Proof. intros Hxs. unfold mandelbrot_grid. now rewrite Hxs. Qed.

Lemma mandelbrot_grid_raise_y (xmin xmax ymin ymax : F) width height max_iter
    xs e :
  linspace xmin xmax width = Ok xs → linspace ymin ymax height = Raise e →
  mandelbrot_grid xmin xmax ymin ymax width height max_iter = Raise e.
Proof. intros Hxs Hys. unfold mandelbrot_grid. now rewrite Hxs, Hys. Qed.

(** [mandelbrot_grid] raises [OverflowError] as soon as [width - 1] or
    [height - 1] does not convert. *)
Lemma mandelbrot_grid_overflow (xmin xmax ymin ymax : F) width height max_iter :
  (width ≠ 1 ∧ int_fits (width - 1) = false)
  ∨ (height ≠ 1 ∧ int_fits (height - 1) = false) →
  int_fits 0 = true →
  mandelbrot_grid xmin xmax ymin ymax width height max_iter
  = Raise OverflowError.
Proof.
  intros Hbad Hzero.
  destruct (decide (width ≠ 1 ∧ int_fits (width - 1) = false)) as [[Hw Hfw]|Hgood].
  - apply mandelbrot_grid_raise_x. now apply linspace_overflow.
  - destruct Hbad as [Hbad|[Hh Hfh]]; [contradiction|].
    assert (Hfw : int_fits (width - 1) = true).
    { destruct (decide (width = 1)) as [->|Hw]; [exact Hzero|].
      destruct (int_fits (width - 1)) eqn:E; [reflexivity|].
      exfalso. apply Hgood. now split. }
    destruct (linspace_ok xmin xmax width Hfw) as (xs & Hxs & _).
    eapply mandelbrot_grid_raise_y; [exact Hxs|].
    now apply linspace_overflow.
Qed.

End Sampling.

(** ** Rounding in binary64 never turns a nonzero integer into zero *)

Section Binary64Rounding.

Lemma digits2_pos_lower (p : positive) :
  2 ^ (Z.pos (digits2_pos p) - 1) ≤ Z.pos p.
Proof.
  induction p as [p IH|p IH|]; simpl digits2_pos.
  - rewrite Pos2Z.inj_succ.
    replace (Z.succ (Z.pos (digits2_pos p)) - 1)
      with (Z.succ (Z.pos (digits2_pos p) - 1)) by lia.
    rewrite Z.pow_succ_r by lia. lia.
  - rewrite Pos2Z.inj_succ.
    replace (Z.succ (Z.pos (digits2_pos p)) - 1)
      with (Z.succ (Z.pos (digits2_pos p) - 1)) by lia.
    rewrite Z.pow_succ_r by lia. lia.
  - simpl. lia.
Qed.

Lemma shr_1_m (mrs : shr_record) :
  0 ≤ shr_m mrs → shr_m (shr_1 mrs) = shr_m mrs / 2.
Proof.
  destruct mrs as [m r s]. simpl. intros Hm.
  destruct m as [|[p|p|]|p]; cbn [shr_m]; try lia; try reflexivity.
  - apply (Z.div_unique_pos _ _ _ 1); lia.
  - apply (Z.div_unique_pos _ _ _ 0); lia.
Qed.

Lemma iter_pos_shr_m (p : positive) : ∀ mrs : shr_record,
  0 ≤ shr_m mrs →
  shr_m (SpecFloat.iter_pos shr_1 p mrs) = shr_m mrs / 2 ^ Z.pos p.
Proof.
  assert (Hdiv : ∀ m a b, 0 ≤ a → 0 ≤ b → m / 2 ^ a / 2 ^ b = m / 2 ^ (a + b)).
  { intros m a b Ha Hb. rewrite Z.pow_add_r by lia.
    apply Z.div_div; [|apply Z.pow_pos_nonneg; lia].
    apply Z.pow_nonzero; lia. }
  assert (Hpos : ∀ m a, 0 ≤ m → 0 ≤ a → 0 ≤ m / 2 ^ a).
  { intros m a Hm Ha. apply Z.div_pos; [lia|]. apply Z.pow_pos_nonneg; lia. }
  induction p as [p IH|p IH|]; intros mrs Hm; simpl SpecFloat.iter_pos.
  - assert (H1 : 0 ≤ shr_m (shr_1 mrs)).
    { rewrite shr_1_m by lia. apply Z.div_pos; lia. }
    rewrite IH; rewrite IH; try lia.
    + rewrite shr_1_m by lia. rewrite Hdiv by lia.
      replace (shr_m mrs / 2) with (shr_m mrs / 2 ^ 1) by (now rewrite Z.pow_1_r).
      rewrite Hdiv by lia. f_equal. f_equal. lia.
    + apply Hpos; lia.
  - rewrite IH; rewrite IH; try lia.
    + rewrite Hdiv by lia. f_equal. f_equal. lia.
    + apply Hpos; lia.
  - rewrite shr_1_m by lia. now rewrite Z.pow_1_r.
Qed.

Lemma shr_fexp_pos (m e : Z) (l : location) :
  0 < m → emin ≤ e →
  0 < shr_m (fst (shr_fexp prec emax m e l))
  ∧ emin ≤ snd (shr_fexp prec emax m e l).
Proof.
  intros Hm He. unfold shr_fexp, shr.
  assert (Hrec : shr_m (shr_record_of_loc m l) = m)
    by (destruct l as [|[]]; reflexivity).
  destruct (fexp prec emax (Zdigits2 m + e) - e) as [|n|n] eqn:En; simpl;
    try (rewrite Hrec; lia).
  rewrite iter_pos_shr_m by (rewrite Hrec; lia). rewrite Hrec.
  destruct m as [|p|p]; try lia. simpl Zdigits2 in En.
  pose proof (digits2_pos_lower p) as Hd.
  unfold fexp, SpecFloat.emin, prec, emax in *.
  split; [|lia].
  apply Z.div_str_pos. split; [apply Z.pow_pos_nonneg; lia|].
  transitivity (2 ^ (Z.pos (digits2_pos p) - 1)); [|exact Hd].
  apply Z.pow_le_mono_r; lia.
Qed.

Lemma round_nearest_even_pos (m : Z) (l : location) :
  0 < m → 0 < round_nearest_even m l.
Proof.
  intros Hm. destruct l as [|[]]; simpl; try lia.
  destruct (Z.even m); lia.
Qed.

Lemma binary_round_aux_nonzero (s s' : bool) (m e : Z) (l : location) :
  0 < m → emin ≤ e → binary_round_aux prec emax s m e l ≠ S754_zero s'.
Proof.
  intros Hm He. unfold binary_round_aux.
  destruct (shr_fexp prec emax m e l) as [mrs1 e1] eqn:E1.
  pose proof (shr_fexp_pos m e l Hm He) as [Hm1 He1].
  rewrite E1 in Hm1, He1. simpl in Hm1, He1.
  set (m2 := round_nearest_even (shr_m mrs1) (loc_of_shr_record mrs1)).
  assert (Hm2 : 0 < m2) by (apply round_nearest_even_pos, Hm1).
  destruct (shr_fexp prec emax m2 e1 loc_Exact) as [mrs2 e2] eqn:E2.
  pose proof (shr_fexp_pos m2 e1 loc_Exact Hm2 He1) as [Hm3 _].
  rewrite E2 in Hm3. simpl in Hm3.
  destruct (shr_m mrs2) as [|p|p]; try lia.
  destruct (e2 <=? emax - prec); discriminate.
Qed.

Lemma binary_round_nonzero (s s' : bool) (m : positive) (e : Z) :
  emin ≤ e → binary_round prec emax s m e ≠ S754_zero s'.
Proof.
  intros He. unfold binary_round, shl_align.
  set (e' := fexp prec emax (Z.pos (digits2_pos m) + e)).
  assert (He' : emin ≤ e')
    by (subst e'; unfold fexp, SpecFloat.emin, prec, emax in *; lia).
  destruct (e' - e) as [|d|d]; apply binary_round_aux_nonzero; lia.
Qed.

Lemma b64_int_nonzero (n : Z) (s : bool) : n ≠ 0 → b64 n 0 ≠ S754_zero s.
Proof.
  intros Hn. unfold b64, binary_normalize.
  destruct n as [|p|p]; [congruence| |];
    apply binary_round_nonzero; unfold SpecFloat.emin, prec, emax; lia.
Qed.

Lemma SFeqb_zero (x : spec_float) :
  SFeqb x (S754_zero false) = true → ∃ s, x = S754_zero s.
Proof.
  destruct x as [s|s| |s m e]; simpl; try discriminate.
  - intros _. now exists s.
  - destruct s; discriminate.
  - destruct s; discriminate.
Qed.

End Binary64Rounding.

Lemma b64_of_int_nonzero (n : Z) :
  n ≠ 0 → SFeqb (b64 n 0) (b64 0 0) = false.
Proof.
  intros Hn. change (SFeqb (b64 n 0) (S754_zero false) = false).
  destruct (SFeqb (b64 n 0) (S754_zero false)) eqn:E; [|reflexivity].
  apply SFeqb_zero in E as [s Hs]. now apply b64_int_nonzero in Hs.
Qed.

#[export] Instance exactQ_laws : PyFloatLaws Q.
Proof.
  constructor; [|reflexivity]. intros n Hn.
  change (Qeq_bool (inject_Z n) (inject_Z 0) = false).
  destruct (Qeq_bool (inject_Z n) (inject_Z 0)) eqn:E; [|reflexivity].
  apply Qeq_bool_eq in E. unfold Qeq in E. simpl in E. lia.
Qed.

(** ** What a returned grid holds *)

Section GridCells.
Context {F : Type} `{PyFloatLaws F}.

Lemma cell_Some (grid : list (list Z)) j i v :
  cell grid j i = Some v →
  ∃ row, grid !! j = Some row ∧ row !! i = Some v.
Proof.
  unfold cell. destruct (grid !! j) as [row|]; simpl; [|discriminate].
  intros Hv. now exists row.
Qed.

(** Every cell of a returned grid is a value of [mandelbrot_point]. *)
Lemma grid_cell_is_point (xmin xmax ymin ymax : F) width height max_iter grid j i v :
  mandelbrot_grid xmin xmax ymin ymax width height max_iter = Ok grid →
  cell grid j i = Some v →
  ∃ c : complex F, v = mandelbrot_point c max_iter.
Proof.
  intros Hg Hv.
  destruct (mandelbrot_grid_inv _ _ _ _ _ _ _ _ Hg)
    as (xs & ys & _ & _ & _ & _ & Hlen & Hrows & Hcells).
  destruct (cell_Some _ _ _ _ Hv) as (row & Hrow & Hi).
  apply lookup_lt_Some in Hi as Hi'. rewrite (Hrows _ _ Hrow) in Hi'.
  apply lookup_lt_Some in Hrow as Hj. rewrite Hlen in Hj.
  rewrite (Hcells j i Hj Hi') in Hv. unfold cell_value in Hv.
  destruct (xs !! i) as [x|]; simpl in Hv; [|discriminate].
  destruct (ys !! j) as [y|]; simpl in Hv; [|discriminate].
  injection Hv as <-. now eexists.
Qed.

(** With no columns every row is empty; with no rows so is the grid. *)
Lemma mandelbrot_grid_no_columns (xmin xmax ymin ymax : F) width height max_iter :
  width < 1 →
  int_fits (width - 1) = true → int_fits (height - 1) = true →
  mandelbrot_grid xmin xmax ymin ymax width height max_iter
    = Ok (replicate (Z.to_nat height) []).
Proof.
  intros Hw Hfw Hfh.
  destruct (mandelbrot_grid_spec xmin xmax ymin ymax width height max_iter Hfw Hfh)
    as (xs & ys & grid & _ & _ & _ & _ & -> & Hlen & Hrows & _).
  f_equal. rewrite <- Hlen. clear Hlen.
  induction grid as [|row grid IH]; [reflexivity|]. simpl. f_equal.
  - apply nil_length_inv. rewrite (Hrows 0%nat row eq_refl). lia.
  - apply IH. intros j r Hr. apply (Hrows (S j) r Hr).
Qed.

Lemma mandelbrot_grid_no_rows (xmin xmax ymin ymax : F) width height max_iter :
  height < 1 →
  int_fits (width - 1) = true → int_fits (height - 1) = true →
  mandelbrot_grid xmin xmax ymin ymax width height max_iter = Ok [].
Proof.
  intros Hh Hfw Hfh.
  destruct (mandelbrot_grid_spec xmin xmax ymin ymax width height max_iter Hfw Hfh)
    as (xs & ys & grid & _ & _ & _ & _ & -> & Hlen & _).
  f_equal. apply nil_length_inv. lia.
Qed.

End GridCells.

(** ** [linspace] over the rationals *)

Section ExactSampling.
Local Open Scope Q_scope.

Lemma axis_elem_Q (start stop : Q) (num : Z) (i : nat) :
  axis_elem start stop num i
  = start + inject_Z (Z.of_nat i) * ((stop - start) / inject_Z (num - 1)).
Proof. reflexivity. Qed.

Lemma axis_elem_Q_first (start stop : Q) num :
  axis_elem start stop num 0 == start.
Proof. rewrite axis_elem_Q. simpl. ring. Qed.

Lemma axis_elem_Q_last (start stop : Q) num :
  (1 < num)%Z → axis_elem start stop num (Z.to_nat (num - 1)) == stop.
Proof.
  intros Hn. rewrite axis_elem_Q. rewrite Z2Nat.id by lia.
  field. change 0 with (inject_Z 0). rewrite inject_Z_injective. lia.
Qed.

Lemma axis_elem_Q_succ (start stop : Q) num (i : nat) :
  axis_elem start stop num (S i) - axis_elem start stop num i
  == axis_step start stop num.
Proof.
  rewrite !axis_elem_Q. rewrite Nat2Z.inj_succ. unfold Z.succ.
  rewrite inject_Z_plus. unfold axis_step. simpl. ring.
Qed.

Lemma axis_step_Q_nonneg (start stop : Q) num :
  (1 < num)%Z → start <= stop → 0 <= axis_step start stop num.
Proof.
  intros Hn Hle. unfold axis_step. simpl.
  apply Qle_shift_div_l.
  - change 0 with (inject_Z 0). rewrite <- Zlt_Qlt. lia.
  - lra.
Qed.

End ExactSampling.

(** ** Element 0 of a binary64 axis *)

Lemma SFeqb_finite_refl (x : spec_float) :
  finite64 x = true → SFeqb x x = true.
Proof.
  destruct x as [s|s| |s m e]; try discriminate; intros _; [reflexivity|].
  unfold SFeqb, SFcompare.
  destruct s; rewrite Z.compare_refl, Pos.compare_cont_refl; reflexivity.
Qed.

Lemma axis_elem_64_first (start stop : spec_float) num :
  finite64 start = true → finite64 (axis_step start stop num) = true →
  feqb (axis_elem start stop num 0) start = true.
Proof.
  unfold axis_elem. generalize (axis_step start stop num). intros st Hs Hst.
  change (of_int (Z.of_nat 0)) with (S754_zero false).
  change (SFeqb (SFadd prec emax start (SFmul prec emax (S754_zero false) st))
            start = true).
  destruct st as [s'|s'| |s' m' e']; try discriminate;
    destruct start as [s|s| |s m e]; try discriminate; simpl.
  - destruct s, s'; reflexivity.
  - apply (SFeqb_finite_refl (S754_finite s m e)). reflexivity.
  - destruct s, s'; reflexivity.
  - apply (SFeqb_finite_refl (S754_finite s m e)). reflexivity.
Qed.

(** ** Shifting and rounding a mantissa *)

Lemma digits2_pos_upper (p : positive) : Z.pos p < 2 ^ Z.pos (digits2_pos p).
Proof.
  induction p as [p IH|p IH|]; simpl digits2_pos.
  - rewrite Pos2Z.inj_succ, Z.pow_succ_r by lia. lia.
  - rewrite Pos2Z.inj_succ, Z.pow_succ_r by lia. lia.
  - reflexivity.
Qed.

Lemma Zdigits2_log2 (m : Z) : 0 < m → Zdigits2 m = Z.log2 m + 1.
Proof.
  intros Hm. destruct m as [|p|p]; try lia.
  change (Zdigits2 (Z.pos p)) with (Z.pos (digits2_pos p)).
  pose proof (digits2_pos_lower p) as Hl. pose proof (digits2_pos_upper p) as Hu.
  rewrite (Z.log2_unique (Z.pos p) (Z.pos (digits2_pos p) - 1)); [lia|lia|].
  replace (Z.succ (Z.pos (digits2_pos p) - 1)) with (Z.pos (digits2_pos p)) by lia.
  lia.
Qed.

Lemma iter_pos_nat {A} (f : A → A) (p : positive) (x : A) :
  SpecFloat.iter_pos f p x = Nat.iter (Pos.to_nat p) f x.
Proof.
  revert x. induction p as [p IH|p IH|]; intros x; cbn [SpecFloat.iter_pos].
  - rewrite !IH. rewrite Pos2Nat.inj_xI.
    replace (2 * Pos.to_nat p)%nat with (Pos.to_nat p + Pos.to_nat p)%nat by lia.
    rewrite Nat.iter_succ_r, Nat.iter_add. reflexivity.
  - rewrite !IH. rewrite Pos2Nat.inj_xO.
    replace (2 * Pos.to_nat p)%nat with (Pos.to_nat p + Pos.to_nat p)%nat by lia.
    rewrite Nat.iter_add. reflexivity.
  - reflexivity.
Qed.

Lemma shr_1_spec (m : Z) (r s : bool) : 0 ≤ m →
  shr_1 (Build_shr_record m r s) = Build_shr_record (m / 2) (Z.odd m) (r || s).
Proof.
  intros Hm. destruct m as [|[p|p|]|p]; try lia; cbn [shr_1]; f_equal.
  - apply (Z.div_unique_pos _ _ _ 1); lia.
  - apply (Z.div_unique_pos _ _ _ 0); lia.
Qed.

(** After [n >= 1] single shifts of an exact record the round bit is bit
    [n - 1] of [m] and the sticky bit tells whether lower bits are set. *)
Lemma shr_iter_exact (m : Z) (n : nat) : 0 ≤ m →
  Nat.iter (S n) shr_1 (Build_shr_record m false false)
  = Build_shr_record (m / 2 ^ Z.of_nat (S n))
      (Z.odd (m / 2 ^ Z.of_nat n))
      (negb (m mod 2 ^ Z.of_nat n =? 0)).
Proof.
  intros Hm. induction n as [|n IH].
  - cbn [Nat.iter nat_rect]. rewrite shr_1_spec by lia.
    change (2 ^ Z.of_nat 1) with 2. change (2 ^ Z.of_nat 0) with 1.
    rewrite Z.mod_1_r, Z.div_1_r. reflexivity.
  - rewrite Nat.iter_succ, IH.
    set (k := Z.of_nat n).
    replace (Z.of_nat (S n)) with (k + 1) by lia.
    replace (Z.of_nat (S (S n))) with (k + 1 + 1) by lia.
    assert (Hk : 0 ≤ k) by lia.
    assert (H2k : 0 < 2 ^ k) by (apply Z.pow_pos_nonneg; lia).
    rewrite !Z.pow_add_r, Z.pow_1_r by lia.
    assert (Hq : 0 ≤ m / (2 ^ k * 2)) by (apply Z.div_pos; lia).
    rewrite shr_1_spec by exact Hq.
    assert (Hmod : m mod (2 ^ k * 2) = m mod 2 ^ k + 2 ^ k * ((m / 2 ^ k) mod 2)).
    { apply Z.rem_mul_r; lia. }
    assert (Hodd : Z.odd (m / 2 ^ k) = negb ((m / 2 ^ k) mod 2 =? 0)).
    { rewrite Zmod_odd. destruct (Z.odd (m / 2 ^ k)); reflexivity. }
    assert (Hr : 0 ≤ m mod 2 ^ k) by (apply Z.mod_pos_bound; lia).
    assert (Hb : 0 ≤ (m / 2 ^ k) mod 2 < 2) by (apply Z.mod_pos_bound; lia).
    f_equal.
    + rewrite Z.div_div by lia. reflexivity.
    + rewrite Hmod, Hodd.
      destruct (Z.eqb_spec ((m / 2 ^ k) mod 2) 0), (Z.eqb_spec (m mod 2 ^ k) 0),
        (Z.eqb_spec (m mod 2 ^ k + 2 ^ k * ((m / 2 ^ k) mod 2)) 0);
        simpl; try reflexivity; nia.
Qed.

Lemma round_nearest_even_bounds (q : Z) (l : location) :
  q ≤ round_nearest_even q l ≤ q + 1.
Proof. destruct l as [|[]]; simpl; try lia. destruct (Z.even q); lia. Qed.

Lemma shr_spec_any (mrs : shr_record) (e n : Z) :
  0 ≤ shr_m mrs → 0 ≤ n →
  ∃ mrs', shr mrs e n = (mrs', e + n) ∧ shr_m mrs' = shr_m mrs / 2 ^ n.
Proof.
  intros Hm Hn. destruct n as [|p|p]; try lia; unfold shr.
  - exists mrs. rewrite Z.add_0_r, Z.pow_0_r, Z.div_1_r. done.
  - eexists. split; [reflexivity|]. now apply iter_pos_shr_m.
Qed.

Lemma shr_spec_exact (m e n : Z) :
  0 ≤ m → 0 ≤ n →
  ∃ mrs, shr (Build_shr_record m false false) e n = (mrs, e + n)
    ∧ round_nearest_even (shr_m mrs) (loc_of_shr_record mrs) = rne m n.
Proof.
  intros Hm Hn. destruct n as [|p|p]; try lia; unfold shr.
  - eexists. split; [now rewrite Z.add_0_r|]. simpl.
    unfold rne. rewrite Z.pow_0_r, Z.mod_1_r, Z.div_1_r. reflexivity.
  - eexists. split; [reflexivity|].
    rewrite iter_pos_nat.
    destruct (Pos.to_nat p) as [|n] eqn:En; [lia|].
    rewrite shr_iter_exact by lia.
    assert (Hp : Z.pos p = Z.of_nat n + 1) by lia.
    rewrite <- En, positive_nat_Z.
    set (k := Z.of_nat n) in *. assert (Hk : 0 ≤ k) by lia.
    assert (H2k : 0 < 2 ^ k) by (apply Z.pow_pos_nonneg; lia).
    unfold rne. rewrite Hp, Z.pow_add_r, Z.pow_1_r by lia.
    assert (Hmod : m mod (2 ^ k * 2) = m mod 2 ^ k + 2 ^ k * ((m / 2 ^ k) mod 2)).
    { apply Z.rem_mul_r; lia. }
    assert (Hr : 0 ≤ m mod 2 ^ k < 2 ^ k) by (apply Z.mod_pos_bound; lia).
    assert (Hb : 0 ≤ (m / 2 ^ k) mod 2 < 2) by (apply Z.mod_pos_bound; lia).
    rewrite Hmod. rewrite (Zmod_odd (m / 2 ^ k)) in *.
    cbn [shr_m loc_of_shr_record].
    destruct (Z.odd (m / 2 ^ k)), (Z.eqb_spec (m mod 2 ^ k) 0) as [E0|E0];
      cbn [negb round_nearest_even].
    + rewrite E0. replace (2 * (0 + 2 ^ k * 1) ?= 2 ^ k * 2) with Eq; [reflexivity|].
      symmetry. apply Z.compare_eq_iff. lia.
    + replace (2 * (m mod 2 ^ k + 2 ^ k * 1) ?= 2 ^ k * 2) with Gt; [reflexivity|].
      symmetry. apply Z.compare_gt_iff. lia.
    + replace (2 * (m mod 2 ^ k + 2 ^ k * 0) ?= 2 ^ k * 2) with Lt; [reflexivity|].
      symmetry. apply Z.compare_lt_iff. lia.
    + replace (2 * (m mod 2 ^ k + 2 ^ k * 0) ?= 2 ^ k * 2) with Lt; [reflexivity|].
      symmetry. apply Z.compare_lt_iff. lia.
Qed.

Lemma rne_bounds (m n : Z) : m / 2 ^ n ≤ rne m n ≤ m / 2 ^ n + 1.
Proof.
  unfold rne. destruct (_ ?= _); try lia. destruct (Z.even _); lia.
Qed.

Lemma pow2_pos (a : Z) : 0 ≤ a → 0 < 2 ^ a.
Proof. intros. apply Z.pow_pos_nonneg; lia. Qed.

Lemma pow2_le (a b : Z) : 0 ≤ a ≤ b → 2 ^ a ≤ 2 ^ b.
Proof. intros. apply Z.pow_le_mono_r; lia. Qed.

Lemma pow2_lt (a b : Z) : 0 ≤ a < b → 2 ^ a < 2 ^ b.
Proof. intros. apply Z.pow_lt_mono_r; lia. Qed.

Lemma Zdigits2_bounds (m : Z) : 0 < m →
  0 < Zdigits2 m ∧ 2 ^ (Zdigits2 m - 1) ≤ m < 2 ^ Zdigits2 m.
Proof.
  intros Hm. destruct m as [|p|p]; try lia. simpl.
  pose proof (digits2_pos_lower p). pose proof (digits2_pos_upper p). lia.
Qed.

Lemma Zdigits2_unique (m d : Z) : 2 ^ (d - 1) ≤ m < 2 ^ d → 0 < m → Zdigits2 m = d.
Proof.
  intros Hd Hm. destruct (Zdigits2_bounds m Hm) as [Hpos Hb].
  destruct (Z_lt_le_dec d 1) as [Hd1|Hd1].
  - assert (2 ^ d ≤ 2 ^ 0).
    { destruct (Z_lt_le_dec d 0); [rewrite Z.pow_neg_r by lia; simpl; lia|].
      apply pow2_le. lia. }
    simpl in *. lia.
  - destruct (Z_lt_le_dec (Zdigits2 m) d).
    + assert (2 ^ Zdigits2 m ≤ 2 ^ (d - 1)) by (apply pow2_le; lia). lia.
    + destruct (Z_lt_le_dec d (Zdigits2 m)); [|lia].
      assert (2 ^ d ≤ 2 ^ (Zdigits2 m - 1)) by (apply pow2_le; lia). lia.
Qed.

Lemma finish_canonical (s : bool) (m1 e1 : Z) :
  0 < m1 → fexp prec emax (Zdigits2 m1 + e1) = e1 →
  finish s m1 e1
  = if e1 <=? emax - prec then S754_finite s (Z.to_pos m1) e1 else S754_infinity s.
Proof.
  intros Hm He. unfold finish, shr_fexp. rewrite He, Z.sub_diag. simpl.
  destruct m1; try lia. reflexivity.
Qed.

Lemma finish_carry (s : bool) (e1 : Z) :
  emin ≤ e1 →
  finish s (2 ^ prec) e1
  = if e1 + 1 <=? emax - prec
    then S754_finite s (Z.to_pos (2 ^ (prec - 1))) (e1 + 1)
    else S754_infinity s.
Proof.
  intros He. unfold finish, shr_fexp.
  assert (Hd : Zdigits2 (2 ^ prec) = prec + 1) by reflexivity.
  rewrite Hd.
  replace (fexp prec emax (prec + 1 + e1) - e1) with 1
    by (unfold fexp, SpecFloat.emin, prec, emax in *; lia).
  reflexivity.
Qed.

Lemma finish_zero (s : bool) (e1 : Z) : emin ≤ e1 → finish s 0 e1 = S754_zero s.
Proof.
  intros He. unfold finish, shr_fexp. simpl Zdigits2.
  destruct (fexp prec emax (0 + e1) - e1) as [|p|p] eqn:E; try reflexivity.
  unfold fexp, SpecFloat.emin, prec, emax in *. lia.
Qed.

Lemma mul_pow2_lt (m a b c : Z) :
  0 ≤ a → 0 ≤ b → a + b ≤ c → m < 2 ^ a → m * 2 ^ b < 2 ^ c.
Proof.
  intros Ha Hb Hc Hm.
  assert (H1 : 2 ^ (a + b) ≤ 2 ^ c) by (apply pow2_le; lia).
  rewrite Z.pow_add_r in H1 by lia.
  pose proof (pow2_pos b Hb). nia.
Qed.

Lemma mul_pow2_ge (m a b c : Z) :
  0 ≤ a → 0 ≤ b → 0 ≤ c ≤ a + b → 2 ^ a ≤ m → 2 ^ c ≤ m * 2 ^ b.
Proof.
  intros Ha Hb Hc Hm.
  assert (H1 : 2 ^ c ≤ 2 ^ (a + b)) by (apply pow2_le; lia).
  rewrite Z.pow_add_r in H1 by lia.
  pose proof (pow2_pos b Hb). nia.
Qed.

Lemma top_pos : 0 < top.
Proof. apply pow2_pos. unfold emax. lia. Qed.

Lemma finish_spec (s : bool) (m1 e1 : Z) :
  0 ≤ m1 → emin ≤ e1 →
  (2 ^ (prec - 1) ≤ m1 ≤ 2 ^ prec) ∨ (m1 ≤ 2 ^ (prec - 1) ∧ e1 = emin) →
  let r := finish s m1 e1 in
  valid_binary prec emax r = true ∧ has_sign s r
  ∧ valZ r = cond_Zopp s (Z.min (m1 * 2 ^ (e1 + 2148)) top).
Proof.
  intros Hm He Hdig. pose proof top_pos as Htop.
  assert (HE : 0 ≤ e1 + 2148) by (unfold SpecFloat.emin, prec, emax in *; lia).
  destruct (Z.eq_dec m1 0) as [->|Hm0].
  { rewrite finish_zero by exact He. cbn. repeat split.
    rewrite Z.min_l by lia. now destruct s. }
  destruct (Z.eq_dec m1 (2 ^ prec)) as [->|Hmp].
  { rewrite finish_carry by exact He.
    assert (Hval : 2 ^ prec * 2 ^ (e1 + 2148) = 2 ^ (prec - 1) * 2 ^ (e1 + 1 + 2148)).
    { rewrite <- !Z.pow_add_r by (unfold prec; lia). f_equal. lia. }
    destruct (Z.leb_spec (e1 + 1) (emax - prec)) as [Hle|Hgt]; cbn.
    - split; [|split; [reflexivity|]].
      + unfold bounded, canonical_mantissa.
        apply andb_true_intro. split; [|apply Z.leb_le; exact Hle].
        apply Z.eqb_eq.
        change (Z.pos (digits2_pos (Z.to_pos (2 ^ (prec - 1))))) with prec.
        unfold fexp, SpecFloat.emin, prec, emax in *. lia.
      + f_equal. rewrite Z2Pos.id by (apply pow2_pos; unfold prec; lia).
        rewrite Z.min_l; [symmetry; exact Hval|].
        rewrite Hval. apply Z.lt_le_incl.
        apply (mul_pow2_lt _ prec); unfold prec, emax in *; try lia;
          apply pow2_lt; lia.
    - split; [reflexivity|]. split; [reflexivity|]. f_equal.
      rewrite Z.min_r; [reflexivity|].
      apply (mul_pow2_ge _ prec); unfold top, prec, emax in *; lia. }
  assert (Hpos : 0 < m1) by lia.
  destruct (Zdigits2_bounds m1 Hpos) as [Hdpos Hdb].
  assert (Hfexp : fexp prec emax (Zdigits2 m1 + e1) = e1).
  { destruct Hdig as [[Hlo Hhi]|[Hhi ->]].
    - rewrite (Zdigits2_unique m1 prec) by lia.
      unfold fexp, SpecFloat.emin, prec, emax in *. lia.
    - assert (Zdigits2 m1 ≤ prec).
      { destruct (Z_lt_le_dec prec (Zdigits2 m1)); [|lia].
        assert (2 ^ prec ≤ 2 ^ (Zdigits2 m1 - 1)) by (apply pow2_le; unfold prec in *; lia).
        assert (2 ^ (prec - 1) < 2 ^ prec) by (apply pow2_lt; unfold prec; lia). lia. }
      unfold fexp, SpecFloat.emin, prec, emax in *. lia. }
  rewrite finish_canonical by assumption.
  destruct (Z.leb_spec e1 (emax - prec)) as [Hle|Hgt]; cbn.
  - split; [|split; [reflexivity|]].
    + unfold bounded, canonical_mantissa.
      apply andb_true_intro. split; [|apply Z.leb_le; exact Hle].
      apply Z.eqb_eq.
      replace (Z.pos (digits2_pos (Z.to_pos m1))) with (Zdigits2 m1)
        by (destruct m1; try lia; reflexivity).
      exact Hfexp.
    + f_equal. rewrite Z2Pos.id by exact Hpos.
      rewrite Z.min_l; [reflexivity|]. apply Z.lt_le_incl.
      apply (mul_pow2_lt _ prec); unfold top, prec, emax in *; lia.
  - split; [reflexivity|]. split; [reflexivity|]. f_equal.
    rewrite Z.min_r; [reflexivity|].
    destruct Hdig as [[Hlo Hhi]|[Hhi ->]];
      [|unfold SpecFloat.emin, prec, emax in *; lia].
    apply (mul_pow2_ge _ (prec - 1)); unfold top, prec, emax in *; lia.
Qed.

Lemma bra_struct (s : bool) (m e : Z) (l : location) :
  0 ≤ m → 0 ≤ fexp prec emax (Zdigits2 m + e) - e →
  ∃ m1, m / 2 ^ (fexp prec emax (Zdigits2 m + e) - e) ≤ m1
          ≤ m / 2 ^ (fexp prec emax (Zdigits2 m + e) - e) + 1
    ∧ (l = loc_Exact → m1 = rne m (fexp prec emax (Zdigits2 m + e) - e))
    ∧ binary_round_aux prec emax s m e l
      = finish s m1 (fexp prec emax (Zdigits2 m + e)).
Proof.
  intros Hm Hn. set (n := fexp prec emax (Zdigits2 m + e) - e) in *.
  unfold binary_round_aux. unfold shr_fexp at 1. fold n.
  assert (Hrec : shr_m (shr_record_of_loc m l) = m)
    by (destruct l as [|[]]; reflexivity).
  destruct (shr_spec_any (shr_record_of_loc m l) e n) as (mrs & Hshr & Hq);
    [lia|exact Hn|].
  rewrite Hshr. rewrite Hrec in Hq.
  exists (round_nearest_even (shr_m mrs) (loc_of_shr_record mrs)).
  split; [rewrite <- Hq; apply round_nearest_even_bounds|]. split.
  - intros ->. destruct (shr_spec_exact m e n Hm Hn) as (mrs' & Hshr' & Hr).
    cbn [shr_record_of_loc] in Hshr. rewrite Hshr in Hshr'.
    injection Hshr' as <-. exact Hr.
  - replace (e + n) with (fexp prec emax (Zdigits2 m + e)) by (unfold n; lia).
    reflexivity.
Qed.

Lemma Zdigits2_nonneg (m : Z) : 0 ≤ Zdigits2 m.
Proof. destruct m; simpl; lia. Qed.

Lemma Zdigits2_upper (m : Z) : 0 ≤ m → m < 2 ^ Zdigits2 m.
Proof.
  intros Hm. destruct (Z.eq_dec m 0) as [->|]; [reflexivity|].
  apply Zdigits2_bounds. lia.
Qed.

(** With no left shift needed, [binary_round_aux] returns a valid float
    of the requested sign, whatever the location. *)
Lemma bra_valid (s : bool) (m e : Z) (l : location) :
  0 ≤ m → 0 ≤ fexp prec emax (Zdigits2 m + e) - e →
  ∃ m1, m / 2 ^ (fexp prec emax (Zdigits2 m + e) - e) ≤ m1
          ≤ m / 2 ^ (fexp prec emax (Zdigits2 m + e) - e) + 1
    ∧ (l = loc_Exact → m1 = rne m (fexp prec emax (Zdigits2 m + e) - e))
    ∧ let r := binary_round_aux prec emax s m e l in
      valid_binary prec emax r = true ∧ has_sign s r
      ∧ valZ r = cond_Zopp s
          (Z.min (m1 * 2 ^ (fexp prec emax (Zdigits2 m + e) + 2148)) top).
Proof.
  intros Hm Hn.
  destruct (bra_struct s m e l Hm Hn) as (m1 & Hb & Hex & Heq).
  exists m1. split; [exact Hb|]. split; [exact Hex|].
  rewrite Heq. set (k := fexp prec emax (Zdigits2 m + e)) in *.
  set (n := k - e) in *. set (d := Zdigits2 m) in *.
  assert (Hd : 0 ≤ d) by apply Zdigits2_nonneg.
  assert (Hup : m < 2 ^ d) by (apply Zdigits2_upper, Hm).
  assert (H2n : 0 < 2 ^ n) by (apply pow2_pos; lia).
  assert (Hq0 : 0 ≤ m / 2 ^ n) by (apply Z.div_pos; lia).
  assert (Hk : emin ≤ k) by (unfold k, fexp; lia).
  apply finish_spec; [lia|exact Hk|].
  destruct (Z_lt_le_dec (d + e - prec) emin) as [Hsub|Hnorm].
  - right. assert (Hke : k = emin) by (unfold k, fexp; lia).
    split; [|exact Hke].
    assert (m / 2 ^ n < 2 ^ (prec - 1)); [|lia].
    apply Z.div_lt_upper_bound; [lia|].
    rewrite <- Z.pow_add_r by (unfold prec; lia).
    assert (2 ^ d ≤ 2 ^ (n + (prec - 1))); [|lia].
    apply pow2_le. unfold n. lia.
  - left. assert (Hke : k = d + e - prec) by (unfold k, fexp; lia).
    assert (Hnd : n = d - prec) by (unfold n; lia).
    assert (Hmpos : 0 < m).
    { destruct (Z.eq_dec m 0) as [->|]; [|lia]. unfold d in *. simpl in *.
      unfold prec in *. lia. }
    destruct (Zdigits2_bounds m Hmpos) as [_ [Hlo _]]. fold d in Hlo.
    assert (H1 : 2 ^ (prec - 1) ≤ m / 2 ^ n).
    { apply Z.div_le_lower_bound; [lia|].
      rewrite <- Z.pow_add_r by (unfold prec in *; lia).
      replace (n + (prec - 1)) with (d - 1) by lia. exact Hlo. }
    assert (H2 : m / 2 ^ n < 2 ^ prec).
    { apply Z.div_lt_upper_bound; [lia|].
      rewrite <- Z.pow_add_r by (unfold prec in *; lia).
      replace (n + prec) with d by lia. exact Hup. }
    lia.
Qed.

(** ** Rounding as a function on integers *)

Lemma Kof_nonneg (v : Z) : 0 ≤ Kof v.
Proof. unfold Kof. lia. Qed.

Lemma rne_exact (b n : Z) : 0 ≤ n → rne (b * 2 ^ n) n = b.
Proof.
  intros Hn. pose proof (pow2_pos n Hn). unfold rne.
  rewrite Z.div_mul, Z.mod_mul by lia.
  destruct (Z.compare_spec (2 * 0) (2 ^ n)); lia.
Qed.

Lemma rne_mono (n m1 m2 : Z) : 0 ≤ n → m1 ≤ m2 → rne m1 n ≤ rne m2 n.
Proof.
  intros Hn Hle. pose proof (pow2_pos n Hn) as Hp.
  assert (Hq : m1 / 2 ^ n ≤ m2 / 2 ^ n) by (apply Z.div_le_mono; lia).
  pose proof (rne_bounds m1 n) as B1. pose proof (rne_bounds m2 n) as B2.
  destruct (Z.eq_dec (m1 / 2 ^ n) (m2 / 2 ^ n)) as [Heq|Hne]; [|lia].
  pose proof (Z.div_mod m1 (2 ^ n) ltac:(lia)) as D1.
  pose proof (Z.div_mod m2 (2 ^ n) ltac:(lia)) as D2.
  assert (Hr : m1 mod 2 ^ n ≤ m2 mod 2 ^ n) by nia.
  unfold rne in *. rewrite <- Heq in *.
  destruct (Z.compare_spec (2 * (m1 mod 2 ^ n)) (2 ^ n)),
    (Z.compare_spec (2 * (m2 mod 2 ^ n)) (2 ^ n));
    try lia; destruct (Z.even (m1 / 2 ^ n)); lia.
Qed.

Lemma rne_scale (m n E : Z) : 0 ≤ n → 0 ≤ E →
  rne (m * 2 ^ E) (n + E) = rne m n.
Proof.
  intros Hn HE. pose proof (pow2_pos n Hn). pose proof (pow2_pos E HE).
  unfold rne. rewrite Z.pow_add_r by lia.
  rewrite Z.div_mul_cancel_r by lia.
  rewrite Z.mul_mod_distr_r by lia.
  destruct (Z.compare_spec (2 * (m mod 2 ^ n * 2 ^ E)) (2 ^ n * 2 ^ E)),
    (Z.compare_spec (2 * (m mod 2 ^ n)) (2 ^ n)); try reflexivity; nia.
Qed.

Lemma Zdigits2_mono (a b : Z) : 0 ≤ a ≤ b → Zdigits2 a ≤ Zdigits2 b.
Proof.
  intros [Ha Hab]. destruct (Z.eq_dec a 0) as [->|Ha0].
  - apply Zdigits2_nonneg.
  - destruct (Zdigits2_bounds a ltac:(lia)) as [Hda [Hla Hua]].
    destruct (Zdigits2_bounds b ltac:(lia)) as [Hdb [Hlb Hub]].
    destruct (Z_lt_le_dec (Zdigits2 b) (Zdigits2 a)); [|lia].
    assert (2 ^ Zdigits2 b ≤ 2 ^ (Zdigits2 a - 1)) by (apply pow2_le; lia). lia.
Qed.

Lemma Zdigits2_scale (m E : Z) : 0 < m → 0 ≤ E →
  Zdigits2 (m * 2 ^ E) = Zdigits2 m + E.
Proof.
  intros Hm HE. pose proof (pow2_pos E HE).
  destruct (Zdigits2_bounds m Hm) as [Hd [Hl Hu]].
  apply Zdigits2_unique; [|nia].
  replace (Zdigits2 m + E - 1) with (Zdigits2 m - 1 + E) by lia.
  rewrite !Z.pow_add_r by lia. nia.
Qed.

Lemma RZ_nonneg (v : Z) : 0 ≤ v → 0 ≤ RZ v.
Proof.
  intros Hv. unfold RZ. pose proof (Kof_nonneg v).
  pose proof (pow2_pos (Kof v) ltac:(lia)).
  pose proof (rne_bounds v (Kof v)).
  assert (0 ≤ v / 2 ^ Kof v) by (apply Z.div_pos; lia). nia.
Qed.

Lemma RZ_mono (v1 v2 : Z) : 0 ≤ v1 ≤ v2 → RZ v1 ≤ RZ v2.
Proof.
  intros [H1 H12]. unfold RZ.
  pose proof (Kof_nonneg v1) as K1. pose proof (Kof_nonneg v2) as K2.
  assert (HK : Kof v1 ≤ Kof v2).
  { unfold Kof. pose proof (Zdigits2_mono v1 v2 ltac:(lia)). lia. }
  destruct (Z.eq_dec (Kof v1) (Kof v2)) as [Heq|Hne].
  - rewrite Heq. pose proof (pow2_pos (Kof v2) K2).
    pose proof (rne_mono (Kof v2) v1 v2 K2 H12). nia.
  - assert (Hv2 : 0 < v2).
    { destruct (Z.eq_dec v2 0) as [E|]; [|lia].
      assert (v1 = 0) by lia. subst. lia. }
    assert (HK2 : Kof v2 = Zdigits2 v2 - prec) by (unfold Kof in *; lia).
    destruct (Zdigits2_bounds v2 Hv2) as [_ [Hl2 _]].
    pose proof (Zdigits2_upper v1 H1) as Hu1.
    pose proof (Zdigits2_nonneg v1) as Hd1.
    assert (HD1 : Zdigits2 v1 ≤ Kof v1 + prec) by (unfold Kof; lia).
    transitivity (2 ^ (Kof v1 + prec)).
    + assert (Hr : rne v1 (Kof v1) ≤ 2 ^ prec).
      { rewrite <- (rne_exact (2 ^ prec) (Kof v1) K1).
        apply rne_mono; [exact K1|].
        rewrite <- Z.pow_add_r by (unfold prec; lia).
        assert (2 ^ Zdigits2 v1 ≤ 2 ^ (prec + Kof v1)) by (apply pow2_le; lia).
        lia. }
      rewrite Z.pow_add_r by (unfold prec; lia).
      pose proof (pow2_pos (Kof v1) K1). nia.
    + transitivity (2 ^ (prec - 1) * 2 ^ Kof v2).
      * rewrite <- Z.pow_add_r by (unfold prec; lia).
        apply pow2_le. unfold prec in *. lia.
      * assert (Hr : 2 ^ (prec - 1) ≤ rne v2 (Kof v2)).
        { rewrite <- (rne_exact (2 ^ (prec - 1)) (Kof v2) K2) at 1.
          apply rne_mono; [exact K2|].
          rewrite <- Z.pow_add_r by (unfold prec; lia).
          replace (prec - 1 + Kof v2) with (Zdigits2 v2 - 1) by lia. exact Hl2. }
        pose proof (pow2_pos (Kof v2) K2). nia.
Qed.

Lemma rndZ_mono (z1 z2 : Z) : z1 ≤ z2 → rndZ z1 ≤ rndZ z2.
Proof.
  intros Hle. unfold rndZ. pose proof top_pos.
  destruct (Z.leb_spec 0 z1), (Z.leb_spec 0 z2); try lia.
  - pose proof (RZ_mono z1 z2 ltac:(lia)). lia.
  - pose proof (RZ_nonneg (- z1) ltac:(lia)). pose proof (RZ_nonneg z2 ltac:(lia)). lia.
  - pose proof (RZ_mono (- z2) (- z1) ltac:(lia)). lia.
Qed.

Lemma rndZ_nonneg (z : Z) : 0 ≤ z → 0 ≤ rndZ z.
Proof.
  intros Hz. unfold rndZ. pose proof top_pos.
  destruct (Z.leb_spec 0 z); [|lia]. pose proof (RZ_nonneg z Hz). lia.
Qed.

(** ** The value of a rounded result *)

Lemma RZ_0 : RZ 0 = 0.
Proof. reflexivity. Qed.

Lemma bra_exact_val (s : bool) (m e : Z) :
  0 ≤ m → -2148 ≤ e → 0 ≤ fexp prec emax (Zdigits2 m + e) - e →
  let r := binary_round_aux prec emax s m e loc_Exact in
  valid_binary prec emax r = true ∧ has_sign s r
  ∧ valZ r = cond_Zopp s (Z.min (RZ (m * 2 ^ (e + 2148))) top).
Proof.
  intros Hm He Hn.
  destruct (bra_valid s m e loc_Exact Hm Hn) as (m1 & _ & Hex & Hv & Hs & Hval).
  specialize (Hex eq_refl). split; [exact Hv|]. split; [exact Hs|].
  rewrite Hval. f_equal. f_equal. subst m1.
  set (k := fexp prec emax (Zdigits2 m + e)) in *.
  assert (HK : Kof (m * 2 ^ (e + 2148)) = k + 2148).
  { destruct (Z.eq_dec m 0) as [->|Hm0].
    - simpl in *. unfold k, Kof, fexp, SpecFloat.emin, prec, emax in *. simpl. lia.
    - unfold Kof. rewrite Zdigits2_scale by lia.
      unfold k, fexp, SpecFloat.emin, prec, emax. lia. }
  unfold RZ. rewrite HK.
  replace (k + 2148) with (k - e + (e + 2148)) at 2 by lia.
  rewrite rne_scale by lia. reflexivity.
Qed.

Lemma shift_pos_pow (m d : positive) :
  Z.pos (Pos.iter xO m d) = Z.pos m * 2 ^ Z.pos d.
Proof.
  change (Pos.iter xO m d) with (shift_pos d m).
  rewrite shift_pos_correct, Zpower_pos_nat, Zpower_nat_Z, positive_nat_Z. lia.
Qed.

Lemma binary_round_val (s : bool) (p : positive) (e : Z) :
  -2148 ≤ e →
  let r := binary_round prec emax s p e in
  valid_binary prec emax r = true ∧ has_sign s r
  ∧ valZ r = cond_Zopp s (Z.min (RZ (Z.pos p * 2 ^ (e + 2148))) top).
Proof.
  intros He. unfold binary_round, shl_align.
  set (k := fexp prec emax (Z.pos (digits2_pos p) + e)).
  assert (Hk : emin ≤ k) by (unfold k, fexp; lia).
  destruct (k - e) as [|d|d] eqn:Ed.
  - apply bra_exact_val; [lia|lia|]. simpl Zdigits2. fold k. lia.
  - apply bra_exact_val; [lia|lia|]. simpl Zdigits2. fold k. lia.
  - assert (Hke : e = k + Z.pos d) by lia.
    assert (Hdig : Zdigits2 (Z.pos (Pos.iter xO p d)) + k = Z.pos (digits2_pos p) + e).
    { rewrite shift_pos_pow, Zdigits2_scale by lia. simpl Zdigits2. lia. }
    replace (Z.pos p * 2 ^ (e + 2148))
      with (Z.pos (Pos.iter xO p d) * 2 ^ (k + 2148)).
    + apply bra_exact_val; [lia| |].
      * unfold SpecFloat.emin, prec, emax in *. lia.
      * rewrite Hdig. fold k. lia.
    + rewrite shift_pos_pow.
      replace (e + 2148) with (Z.pos d + (k + 2148)) by lia.
      rewrite (Z.pow_add_r 2 (Z.pos d) (k + 2148)); [ring|lia|].
      unfold SpecFloat.emin, prec, emax in *. lia.
Qed.

Lemma binary_normalize_val (z e : Z) (sz : bool) :
  -2148 ≤ e →
  let r := binary_normalize prec emax z e sz in
  valid_binary prec emax r = true ∧ r ≠ S754_nan
  ∧ valZ r = rndZ (z * 2 ^ (e + 2148)).
Proof.
  intros He. pose proof (pow2_pos (e + 2148) ltac:(lia)) as Hp.
  destruct z as [|p|p]; cbn [binary_normalize].
  - repeat split; discriminate.
  - destruct (binary_round_val false p e He) as (Hv & Hs & Hval).
    split; [exact Hv|]. split.
    + intros E. rewrite E in Hs. exact Hs.
    + rewrite Hval. unfold rndZ.
      destruct (Z.leb_spec 0 (Z.pos p * 2 ^ (e + 2148))); [reflexivity|nia].
  - destruct (binary_round_val true p e He) as (Hv & Hs & Hval).
    split; [exact Hv|]. split.
    + intros E. rewrite E in Hs. exact Hs.
    + rewrite Hval. unfold rndZ.
      destruct (Z.leb_spec 0 (Z.neg p * 2 ^ (e + 2148))); [nia|].
      cbn [cond_Zopp]. f_equal. f_equal. f_equal. lia.
Qed.

(** ** Valid floats and the order of their values *)

Lemma valid_finite_bounds (s : bool) (m : positive) (e : Z) :
  valid_binary prec emax (S754_finite s m e) = true →
  emin ≤ e ≤ emax - prec ∧ Z.pos m < 2 ^ prec
  ∧ (emin < e → 2 ^ (prec - 1) ≤ Z.pos m)
  ∧ fexp prec emax (Z.pos (digits2_pos m) + e) = e.
Proof.
  cbn [valid_binary]. unfold bounded, canonical_mantissa.
  intros H. apply andb_prop in H as [Hc Hb].
  apply Z.eqb_eq in Hc. apply Z.leb_le in Hb.
  pose proof (digits2_pos_lower m) as Hl. pose proof (digits2_pos_upper m) as Hu.
  set (d := Z.pos (digits2_pos m)) in *.
  assert (Hd : d ≤ prec ∧ emin ≤ e ∧ (emin < e → d = prec)).
  { unfold fexp, SpecFloat.emin, prec, emax in *. lia. }
  destruct Hd as (Hd1 & Hd2 & Hd3).
  split; [lia|]. split.
  - assert (2 ^ d ≤ 2 ^ prec) by (apply pow2_le; lia). lia.
  - split; [|exact Hc]. intros He. rewrite <- (Hd3 He). exact Hl.
Qed.

Lemma valid_finite_lt_top (s : bool) (m : positive) (e : Z) :
  valid_binary prec emax (S754_finite s m e) = true →
  0 < Z.pos m * 2 ^ (e + 2148) < top.
Proof.
  intros Hv. destruct (valid_finite_bounds s m e Hv) as (He & Hm & _).
  assert (HE : 0 ≤ e + 2148) by (unfold SpecFloat.emin, prec, emax in *; lia).
  pose proof (pow2_pos _ HE). split; [nia|].
  apply (mul_pow2_lt _ prec); unfold top, prec, emax in *; lia.
Qed.

Lemma mag_compare (s1 s2 : bool) (m1 m2 : positive) (e1 e2 : Z) :
  valid_binary prec emax (S754_finite s1 m1 e1) = true →
  valid_binary prec emax (S754_finite s2 m2 e2) = true →
  match e1 ?= e2 with
  | Lt => Lt
  | Gt => Gt
  | Eq => Pos.compare_cont Eq m1 m2
  end = (Z.pos m1 * 2 ^ (e1 + 2148) ?= Z.pos m2 * 2 ^ (e2 + 2148)).
Proof.
  intros H1 H2.
  destruct (valid_finite_bounds _ _ _ H1) as (He1 & Hm1 & Hn1 & _).
  destruct (valid_finite_bounds _ _ _ H2) as (He2 & Hm2 & Hn2 & _).
  assert (HE1 : 0 ≤ e1 + 2148) by (unfold SpecFloat.emin, prec, emax in *; lia).
  assert (HE2 : 0 ≤ e2 + 2148) by (unfold SpecFloat.emin, prec, emax in *; lia).
  assert (Hstep : ∀ (a b : positive) ea eb, 0 ≤ ea + 2148 → ea < eb →
            Z.pos a < 2 ^ prec → 2 ^ (prec - 1) ≤ Z.pos b →
            Z.pos a * 2 ^ (ea + 2148) < Z.pos b * 2 ^ (eb + 2148)).
  { intros a b ea eb Ha Hab Hau Hbl.
    apply Z.lt_le_trans with (2 ^ (prec + (ea + 2148))).
    - apply (mul_pow2_lt _ prec); unfold prec in *; lia.
    - apply (mul_pow2_ge _ (prec - 1)); unfold prec in *; lia. }
  destruct (Z.compare_spec e1 e2) as [->|Hlt|Hgt].
  - change (Pos.compare_cont Eq m1 m2) with (Z.pos m1 ?= Z.pos m2).
    pose proof (pow2_pos _ HE2).
    destruct (Z.compare_spec (Z.pos m1) (Z.pos m2)),
      (Z.compare_spec (Z.pos m1 * 2 ^ (e2 + 2148)) (Z.pos m2 * 2 ^ (e2 + 2148)));
      try reflexivity; nia.
  - symmetry. apply Z.compare_lt_iff. apply Hstep; lia.
  - symmetry. apply Z.compare_gt_iff. apply Hstep; lia.
Qed.

Lemma SFcompare_val (x y : spec_float) :
  valid_binary prec emax x = true → valid_binary prec emax y = true →
  x ≠ S754_nan → y ≠ S754_nan →
  SFcompare x y = Some (valZ x ?= valZ y).
Proof.
  intros Hx Hy Nx Ny. pose proof top_pos as Htop.
  assert (Hcmp : ∀ a b c, (c = Eq → a = b) → (c = Lt → a < b) → (c = Gt → a > b) →
            c = (a ?= b)).
  { intros a b c HE HL HG. symmetry. destruct c;
      [apply Z.compare_eq_iff; auto|apply Z.compare_lt_iff; auto|].
    apply Z.compare_gt_iff. specialize (HG eq_refl). lia. }
  destruct x as [sx|sx| |sx mx ex]; try congruence;
    destruct y as [sy|sy| |sy my ey]; try congruence;
    try (pose proof (valid_finite_lt_top _ _ _ Hx) as Bx);
    try (pose proof (valid_finite_lt_top _ _ _ Hy) as By);
    cbn [SFcompare valZ]; f_equal; try reflexivity;
    try (destruct sx; try destruct sy; cbn [cond_Zopp];
         apply Hcmp; intros; try discriminate; lia).
  destruct sx, sy; cbn [cond_Zopp];
    try (apply Hcmp; intros; try discriminate; lia).
  - rewrite Z.compare_opp.
    rewrite <- (mag_compare true true my mx ey ex Hy Hx).
    rewrite (Z.compare_antisym ex ey), (Pos.compare_cont_antisym).
    destruct (ex ?= ey); reflexivity.
  - apply (mag_compare false false); assumption.
Qed.

Lemma SFleb_val (x y : spec_float) :
  valid_binary prec emax x = true → valid_binary prec emax y = true →
  x ≠ S754_nan → y ≠ S754_nan →
  SFleb x y = true ↔ valZ x ≤ valZ y.
Proof.
  intros Hx Hy Nx Ny. unfold SFleb. rewrite SFcompare_val by assumption.
  destruct (Z.compare_spec (valZ x) (valZ y)); split; try lia; discriminate.
Qed.

(** ** The operations on valid finite floats *)

Lemma RZ_id (m : positive) (e : Z) (s : bool) :
  valid_binary prec emax (S754_finite s m e) = true →
  RZ (Z.pos m * 2 ^ (e + 2148)) = Z.pos m * 2 ^ (e + 2148).
Proof.
  intros Hv. destruct (valid_finite_bounds _ _ _ Hv) as (He & _ & _ & Hc).
  assert (HE : 0 ≤ e + 2148) by (unfold SpecFloat.emin, prec, emax in *; lia).
  unfold RZ.
  assert (HK : Kof (Z.pos m * 2 ^ (e + 2148)) = e + 2148).
  { unfold Kof. rewrite Zdigits2_scale by lia. simpl Zdigits2.
    unfold fexp, SpecFloat.emin, prec, emax in *. lia. }
  rewrite HK, rne_exact by lia. reflexivity.
Qed.

Lemma rndZ_id (x : spec_float) :
  valid_binary prec emax x = true → finite64 x = true →
  rndZ (valZ x) = valZ x.
Proof.
  intros Hv Hf. destruct x as [s|s| |s m e]; try discriminate; [reflexivity|].
  pose proof (valid_finite_lt_top _ _ _ Hv) as Hb.
  pose proof (RZ_id _ _ _ Hv) as Hid.
  unfold rndZ. cbn [valZ]. destruct s; cbn [cond_Zopp].
  - destruct (Z.leb_spec 0 (- (Z.pos m * 2 ^ (e + 2148)))); [lia|].
    rewrite Z.opp_involutive, Hid. lia.
  - destruct (Z.leb_spec 0 (Z.pos m * 2 ^ (e + 2148))); [|lia].
    rewrite Hid. lia.
Qed.

Lemma shl_align_fst (m : positive) (e e' : Z) :
  e' ≤ e → Z.pos (fst (shl_align m e e')) = Z.pos m * 2 ^ (e - e').
Proof.
  intros Hle. unfold shl_align.
  destruct (e' - e) as [|d|d] eqn:Ed; cbn [fst]; try lia.
  - replace (e - e') with 0 by lia. lia.
  - rewrite shift_pos_pow. f_equal. f_equal. lia.
Qed.

Lemma scaled_mantissa (s : bool) (m : positive) (e ez : Z) :
  -2148 ≤ ez ≤ e →
  cond_Zopp s (Z.pos (fst (shl_align m e ez))) * 2 ^ (ez + 2148)
  = valZ (S754_finite s m e).
Proof.
  intros He. rewrite shl_align_fst by lia. cbn [valZ].
  replace (e + 2148) with (e - ez + (ez + 2148)) by lia.
  rewrite (Z.pow_add_r 2 (e - ez) (ez + 2148)) by lia.
  destruct s; cbn [cond_Zopp]; ring.
Qed.

Lemma valid_finite_emin (s : bool) (m : positive) (e : Z) :
  valid_binary prec emax (S754_finite s m e) = true → -1074 ≤ e.
Proof.
  intros Hv. destruct (valid_finite_bounds _ _ _ Hv) as (He & _).
  unfold SpecFloat.emin, prec, emax in *. lia.
Qed.

Lemma valid_opp (x : spec_float) :
  valid_binary prec emax x = true → valid_binary prec emax (SFopp x) = true.
Proof. destruct x; auto. Qed.

Lemma SFadd_val (x y : spec_float) :
  valid_binary prec emax x = true → valid_binary prec emax y = true →
  finite64 x = true → finite64 y = true →
  let r := SFadd prec emax x y in
  valid_binary prec emax r = true ∧ r ≠ S754_nan
  ∧ valZ r = rndZ (valZ x + valZ y).
Proof.
  intros Hx Hy Fx Fy.
  destruct x as [sx|sx| |sx mx ex]; try discriminate;
    destruct y as [sy|sy| |sy my ey]; try discriminate; cbn [SFadd].
  - destruct sx, sy; repeat split; discriminate.
  - split; [exact Hy|]. split; [discriminate|].
    rewrite Z.add_0_l. symmetry. now apply rndZ_id.
  - split; [exact Hx|]. split; [discriminate|].
    cbn [valZ]. rewrite Z.add_0_r. symmetry. now apply (rndZ_id (S754_finite sx mx ex)).
  - pose proof (valid_finite_emin _ _ _ Hx). pose proof (valid_finite_emin _ _ _ Hy).
    cbv zeta.
    destruct (binary_normalize_val
                (cond_Zopp sx (Z.pos (fst (shl_align mx ex (Z.min ex ey))))
                 + cond_Zopp sy (Z.pos (fst (shl_align my ey (Z.min ex ey)))))
                (Z.min ex ey) false ltac:(lia)) as (Hv & Hn & Hval).
    split; [exact Hv|]. split; [exact Hn|].
    rewrite Hval. f_equal. rewrite Z.mul_add_distr_r.
    rewrite !scaled_mantissa by lia. reflexivity.
Qed.

Lemma SFsub_val (x y : spec_float) :
  valid_binary prec emax x = true → valid_binary prec emax y = true →
  finite64 x = true → finite64 y = true →
  let r := SFsub prec emax x y in
  valid_binary prec emax r = true ∧ r ≠ S754_nan
  ∧ valZ r = rndZ (valZ x - valZ y).
Proof.
  intros Hx Hy Fx Fy.
  destruct x as [sx|sx| |sx mx ex]; try discriminate;
    destruct y as [sy|sy| |sy my ey]; try discriminate; cbn [SFsub].
  - destruct sx, sy; repeat split; discriminate.
  - split; [exact Hy|]. split; [discriminate|].
    rewrite <- (rndZ_id (S754_finite (negb sy) my ey)) by assumption.
    f_equal. cbn [valZ]. destruct sy; cbn; lia.
  - split; [exact Hx|]. split; [discriminate|].
    cbn [valZ]. rewrite Z.sub_0_r. symmetry. now apply (rndZ_id (S754_finite sx mx ex)).
  - pose proof (valid_finite_emin _ _ _ Hx). pose proof (valid_finite_emin _ _ _ Hy).
    cbv zeta.
    destruct (binary_normalize_val
                (cond_Zopp sx (Z.pos (fst (shl_align mx ex (Z.min ex ey))))
                 - cond_Zopp sy (Z.pos (fst (shl_align my ey (Z.min ex ey)))))
                (Z.min ex ey) false ltac:(lia)) as (Hv & Hn & Hval).
    split; [exact Hv|]. split; [exact Hn|].
    rewrite Hval. f_equal. rewrite Z.mul_sub_distr_r.
    rewrite !scaled_mantissa by lia. reflexivity.
Qed.

Lemma Zdigits2_pow2 (j : Z) : 0 ≤ j → Zdigits2 (2 ^ j) = j + 1.
Proof.
  intros Hj. pose proof (pow2_pos j Hj).
  apply Zdigits2_unique; [|lia].
  replace (j + 1 - 1) with j by lia. split; [lia|]. apply pow2_lt. lia.
Qed.

Lemma mul_no_left_shift (sx sy : bool) (mx my : positive) (ex ey : Z) :
  valid_binary prec emax (S754_finite sx mx ex) = true →
  valid_binary prec emax (S754_finite sy my ey) = true →
  0 ≤ fexp prec emax (Zdigits2 (Z.pos (mx * my)) + (ex + ey)) - (ex + ey).
Proof.
  intros Hx Hy.
  destruct (valid_finite_bounds _ _ _ Hx) as (Hex & _ & _ & Hcx).
  destruct (valid_finite_bounds _ _ _ Hy) as (Hey & _ & _ & Hcy).
  pose proof (digits2_pos_lower mx) as Hlx. pose proof (digits2_pos_lower my) as Hly.
  set (dx := Z.pos (digits2_pos mx)) in *. set (dy := Z.pos (digits2_pos my)) in *.
  assert (Hdx : 1 ≤ dx) by (unfold dx; lia). assert (Hdy : 1 ≤ dy) by (unfold dy; lia).
  assert (HD : dx + dy - 1 ≤ Zdigits2 (Z.pos (mx * my))).
  { assert (H2 : Zdigits2 (2 ^ (dx + dy - 2)) ≤ Zdigits2 (Z.pos (mx * my))).
    { apply Zdigits2_mono. split; [apply Z.lt_le_incl, pow2_pos; lia|].
      replace (dx + dy - 2) with ((dx - 1) + (dy - 1)) by lia.
      rewrite Z.pow_add_r, Pos2Z.inj_mul by lia.
      pose proof (pow2_pos (dx - 1) ltac:(lia)).
      pose proof (pow2_pos (dy - 1) ltac:(lia)). nia. }
    rewrite Zdigits2_pow2 in H2 by lia. lia. }
  unfold fexp, SpecFloat.emin, prec, emax in *. lia.
Qed.

Lemma finite_nonneg_sign (s : bool) (m : positive) (e : Z) :
  valid_binary prec emax (S754_finite s m e) = true →
  0 ≤ valZ (S754_finite s m e) → s = false.
Proof.
  intros Hv Hz. pose proof (valid_finite_lt_top _ _ _ Hv).
  destruct s; [|reflexivity]. cbn in Hz. lia.
Qed.

Lemma rndZ_signed (s : bool) (M : Z) :
  0 < M → rndZ (cond_Zopp s M) = cond_Zopp s (Z.min (RZ M) top).
Proof.
  intros HM. unfold rndZ. destruct s; cbn [cond_Zopp].
  - destruct (Z.leb_spec 0 (- M)); [lia|]. now rewrite Z.opp_involutive.
  - destruct (Z.leb_spec 0 M); [reflexivity|lia].
Qed.

Lemma SFmul_val (x y : spec_float) :
  valid_binary prec emax x = true → valid_binary prec emax y = true →
  finite64 x = true → finite64 y = true →
  let r := SFmul prec emax x y in
  valid_binary prec emax r = true ∧ r ≠ S754_nan
  ∧ valZ r = rndZ (valZ x * valZ y / 2 ^ 2148).
Proof.
  intros Hx Hy Fx Fy.
  destruct x as [sx|sx| |sx mx ex]; try discriminate;
    destruct y as [sy|sy| |sy my ey]; try discriminate; cbn [SFmul];
    try (cbn [valZ]; rewrite ?Z.mul_0_l, ?Z.mul_0_r, Z.div_0_l by lia;
         repeat split; discriminate).
  pose proof (valid_finite_emin _ _ _ Hx). pose proof (valid_finite_emin _ _ _ Hy).
  destruct (bra_exact_val (xorb sx sy) (Z.pos (mx * my)) (ex + ey) ltac:(lia) ltac:(lia)
              (mul_no_left_shift _ _ _ _ _ _ Hx Hy)) as (Hv & Hs & Hval).
  split; [exact Hv|]. split.
  - intros E. rewrite E in Hs. exact Hs.
  - rewrite Hval. cbn [valZ].
    pose proof (pow2_pos (ex + ey + 2148) ltac:(lia)) as Hp.
    assert (Heq : cond_Zopp sx (Z.pos mx * 2 ^ (ex + 2148))
                  * cond_Zopp sy (Z.pos my * 2 ^ (ey + 2148))
                  = cond_Zopp (xorb sx sy)
                      (Z.pos (mx * my) * 2 ^ (ex + ey + 2148)) * 2 ^ 2148).
    { assert (Hpw : 2 ^ (ex + 2148) * 2 ^ (ey + 2148)
                    = 2 ^ (ex + ey + 2148) * 2 ^ 2148).
      { rewrite <- !Z.pow_add_r by lia. f_equal. lia. }
      rewrite Pos2Z.inj_mul.
      transitivity (cond_Zopp (xorb sx sy)
                      (Z.pos mx * Z.pos my * (2 ^ (ex + 2148) * 2 ^ (ey + 2148))));
        [destruct sx, sy; cbn [cond_Zopp xorb]; ring
        |rewrite Hpw; destruct sx, sy; cbn [cond_Zopp xorb]; ring]. }
    rewrite Heq, Z.div_mul by lia.
    symmetry. apply rndZ_signed. nia.
Qed.

Lemma of_int_val (n : Z) :
  let r := b64 n 0 in
  valid_binary prec emax r = true ∧ r ≠ S754_nan
  ∧ valZ r = rndZ (n * 2 ^ 2148).
Proof. apply (binary_normalize_val n 0 false). lia. Qed.

Lemma has_sign_false_nonneg (r : spec_float) : has_sign false r → 0 ≤ valZ r.
Proof.
  pose proof top_pos.
  destruct r as [s|s| |s m e]; cbn; try lia; intros ->; cbn; lia.
Qed.

Lemma div_core_no_left_shift (sx sy : bool) (mx my : positive) (ex ey : Z) :
  valid_binary prec emax (S754_finite sx mx ex) = true →
  valid_binary prec emax (S754_finite sy my ey) = true →
  ∃ q e' l, SFdiv_core_binary prec emax (Z.pos mx) ex (Z.pos my) ey = (q, e', l)
    ∧ 0 ≤ q ∧ 0 ≤ fexp prec emax (Zdigits2 q + e') - e'.
Proof.
  intros Hx Hy.
  destruct (valid_finite_bounds _ _ _ Hx) as (Hex & _ & _ & Hcx).
  destruct (valid_finite_bounds _ _ _ Hy) as (Hey & _ & _ & Hcy).
  pose proof (digits2_pos_lower mx) as Hlx. pose proof (digits2_pos_upper my) as Huy.
  unfold SFdiv_core_binary. cbn [Zdigits2].
  set (d1 := Z.pos (digits2_pos mx)) in *. set (d2 := Z.pos (digits2_pos my)) in *.
  assert (Hd1 : 1 ≤ d1) by (unfold d1; lia). assert (Hd2 : 1 ≤ d2) by (unfold d2; lia).
  set (e' := Z.min (fexp prec emax (d1 + ex - (d2 + ey))) (ex - ey)).
  set (s := ex - ey - e').
  assert (Hs : 0 ≤ s) by (unfold s, e'; lia).
  set (m' := match s with Z.pos _ => Z.shiftl (Z.pos mx) s | 0 => Z.pos mx | Z.neg _ => 0 end).
  assert (Hm' : m' = Z.pos mx * 2 ^ s).
  { unfold m'. destruct s as [|p|p] eqn:Es; try lia.
    rewrite Z.shiftl_mul_pow2 by lia. reflexivity. }
  destruct (Z.div_eucl m' (Z.pos my)) as [q r] eqn:Ediv.
  assert (Hq : q = m' / Z.pos my) by (unfold Z.div; now rewrite Ediv).
  exists q, e', (new_location (Z.pos my) r).
  split; [reflexivity|].
  pose proof (pow2_pos s Hs) as H2s.
  assert (Hq0 : 0 ≤ q) by (rewrite Hq; apply Z.div_pos; nia).
  split; [exact Hq0|].
  destruct (Z_le_gt_dec e' emin) as [Hlow|Hhigh].
  - unfold fexp. lia.
  - assert (Hs' : prec + d2 - d1 ≤ s).
    { unfold s, e', fexp, SpecFloat.emin, prec, emax in *. lia. }
    assert (Hqb : 2 ^ (prec - 1) ≤ q).
    { rewrite Hq. apply Z.div_le_lower_bound; [lia|].
      rewrite Hm'.
      transitivity (2 ^ d2 * 2 ^ (prec - 1)); [nia|].
      rewrite <- Z.pow_add_r by (unfold prec; lia).
      apply (mul_pow2_ge _ (d1 - 1)); unfold prec in *; lia. }
    assert (HD : prec ≤ Zdigits2 q).
    { assert (H2 : Zdigits2 (2 ^ (prec - 1)) ≤ Zdigits2 q).
      { apply Zdigits2_mono. split; [apply Z.lt_le_incl, pow2_pos; unfold prec; lia|lia]. }
      rewrite Zdigits2_pow2 in H2 by (unfold prec; lia). lia. }
    unfold fexp. lia.
Qed.

Lemma SFdiv_nonneg (x y : spec_float) :
  valid_binary prec emax x = true → valid_binary prec emax y = true →
  finite64 x = true → finite64 y = true →
  0 ≤ valZ x → 0 < valZ y →
  let r := SFdiv prec emax x y in
  valid_binary prec emax r = true ∧ r ≠ S754_nan ∧ 0 ≤ valZ r.
Proof.
  intros Hx Hy Fx Fy Px Py.
  destruct y as [sy|sy| |sy my ey]; try discriminate.
  destruct x as [sx|sx| |sx mx ex]; try discriminate; cbn [SFdiv].
  - repeat split; [discriminate|cbn; lia].
  - rewrite (finite_nonneg_sign _ _ _ Hx Px),
      (finite_nonneg_sign _ _ _ Hy (Z.lt_le_incl _ _ Py)) in *.
    destruct (div_core_no_left_shift _ _ _ _ _ _ Hx Hy) as (q & e' & l & -> & Hq & Hn).
    destruct (bra_valid false q e' l Hq Hn) as (m1 & _ & _ & Hv & Hs & _).
    cbn [xorb]. split; [exact Hv|]. split.
    + intros E. rewrite E in Hs. exact Hs.
    + apply has_sign_false_nonneg, Hs.
Qed.

(** ** Monotonicity of the sampled axis *)

Lemma valZ_bounds (x : spec_float) :
  valid_binary prec emax x = true → - top ≤ valZ x ≤ top.
Proof.
  intros Hv. pose proof top_pos.
  destruct x as [s|s| |s m e]; cbn [valZ]; try lia.
  - destruct s; cbn; lia.
  - pose proof (valid_finite_lt_top _ _ _ Hv). destruct s; cbn; lia.
Qed.

Lemma finite_of_val (x : spec_float) :
  x ≠ S754_nan → 0 ≤ valZ x < top → finite64 x = true.
Proof.
  intros Hn Hb. pose proof top_pos.
  destruct x as [s|s| |s m e]; try reflexivity; try congruence.
  destruct s; cbn in Hb; lia.
Qed.

Lemma finite_val_lt_top (x : spec_float) :
  valid_binary prec emax x = true → finite64 x = true → valZ x < top.
Proof.
  intros Hv Hf. pose proof top_pos.
  destruct x as [s|s| |s m e]; try discriminate; cbn [valZ]; [lia|].
  pose proof (valid_finite_lt_top _ _ _ Hv). destruct s; cbn; lia.
Qed.

Lemma valZ_zero_inv (x : spec_float) :
  valid_binary prec emax x = true → x ≠ S754_nan → valZ x = 0 →
  ∃ s, x = S754_zero s.
Proof.
  intros Hv Hn H0. pose proof top_pos.
  destruct x as [s|s| |s m e]; try congruence.
  - now exists s.
  - destruct s; cbn in H0; lia.
  - pose proof (valid_finite_lt_top _ _ _ Hv). destruct s; cbn in H0; lia.
Qed.

Lemma SFadd_mono (x a b : spec_float) :
  valid_binary prec emax x = true → finite64 x = true →
  valid_binary prec emax a = true → a ≠ S754_nan →
  valid_binary prec emax b = true → b ≠ S754_nan →
  0 ≤ valZ a ≤ valZ b →
  SFleb (SFadd prec emax x a) (SFadd prec emax x b) = true.
Proof.
  intros Hx Fx Ha Na Hb Nb [Ha0 Hab].
  destruct (finite64 b) eqn:Fb.
  - assert (Fa : finite64 a = true).
    { apply finite_of_val; [exact Na|].
      pose proof (finite_val_lt_top b Hb Fb). lia. }
    destruct (SFadd_val x a Hx Ha Fx Fa) as (Va & Nna & Ea).
    destruct (SFadd_val x b Hx Hb Fx Fb) as (Vb & Nnb & Eb).
    apply SFleb_val; try assumption.
    rewrite Ea, Eb. apply rndZ_mono. lia.
  - assert (Eb : b = S754_infinity false).
    { pose proof top_pos. destruct b as [s|s| |s m e]; try discriminate; try congruence.
      destruct s; [cbn in Hab; lia|reflexivity]. }
    subst b.
    assert (Einf : SFadd prec emax x (S754_infinity false) = S754_infinity false).
    { destruct x as [s|s| |s m e]; try discriminate; reflexivity. }
    rewrite Einf.
    destruct (finite64 a) eqn:Fa.
    + destruct (SFadd_val x a Hx Ha Fx Fa) as (Va & Nna & Ea).
      apply SFleb_val; try assumption; try reflexivity; try discriminate.
      apply (valZ_bounds _ Va).
    + assert (Ea : a = S754_infinity false).
      { pose proof top_pos. destruct a as [s|s| |s m e]; try discriminate; try congruence.
        destruct s; [cbn in Ha0; lia|reflexivity]. }
      subst a. rewrite Einf. reflexivity.
Qed.

Lemma of_int_mono (i j : Z) : i ≤ j → valZ (b64 i 0) ≤ valZ (b64 j 0).
Proof.
  intros Hij. destruct (of_int_val i) as (_ & _ & ->).
  destruct (of_int_val j) as (_ & _ & ->).
  apply rndZ_mono. pose proof (pow2_pos 2148 ltac:(lia)). nia.
Qed.

Lemma of_int_nonneg (i : Z) : 0 ≤ i → 0 ≤ valZ (b64 i 0).
Proof.
  intros Hi. destruct (of_int_val i) as (_ & _ & ->).
  apply rndZ_nonneg. pose proof (pow2_pos 2148 ltac:(lia)). nia.
Qed.

(** When a non-negative int converts, every smaller one does. *)
Lemma b64_int_fits_between (n i : Z) :
  0 ≤ i ≤ n → finite64 (b64 n 0) = true → finite64 (b64 i 0) = true.
Proof.
  intros Hi Hn. destruct (of_int_val i) as (Vi & Ni & _).
  destruct (of_int_val n) as (Vn & _ & _).
  apply finite_of_val; [exact Ni|]. split; [apply of_int_nonneg; lia|].
  pose proof (of_int_mono i n ltac:(lia)).
  pose proof (finite_val_lt_top _ Vn Hn). lia.
Qed.

#[export] Instance binary64_laws : PyFloatLaws spec_float.
Proof.
  constructor.
  - exact b64_of_int_nonzero.
  - exact b64_int_fits_between.
Qed.

Lemma axis_elem_mono (start stop : spec_float) (num : Z) (i j : nat) :
  1 < num →
  valid_binary prec emax start = true → valid_binary prec emax stop = true →
  finite64 start = true → finite64 stop = true →
  SFleb start stop = true →
  finite64 (of_int (num - 1)) = true →
  finite64 (axis_step start stop num) = true →
  (i ≤ j)%nat → Z.of_nat j ≤ num - 1 →
  SFleb (axis_elem start stop num i) (axis_elem start stop num j) = true.
Proof.
  intros Hn Vs Vt Fs Ft Hle Fn Fst Hij Hj.
  assert (Ns : start ≠ S754_nan) by (intros ->; discriminate).
  assert (Nt : stop ≠ S754_nan) by (intros ->; discriminate).
  apply SFleb_val in Hle; try assumption.
  (* the difference *)
  destruct (SFsub_val stop start Vt Vs Ft Fs) as (Vd & Nd & Ed).
  assert (Pd : 0 ≤ valZ (SFsub prec emax stop start))
    by (rewrite Ed; apply rndZ_nonneg; lia).
  (* the divisor *)
  destruct (of_int_val (num - 1)) as (Vn & Nn & En).
  assert (Pn : 0 < valZ (b64 (num - 1) 0)).
  { pose proof (of_int_nonneg (num - 1) ltac:(lia)) as H0.
    destruct (Z.eq_dec (valZ (b64 (num - 1) 0)) 0) as [E0|]; [|lia].
    destruct (valZ_zero_inv _ Vn Nn E0) as [s Hs].
    now apply b64_int_nonzero in Hs; [|lia]. }
  (* the step *)
  unfold axis_elem. unfold axis_step in *.
  change (fquot (fsub stop start) (of_int (num - 1)))
    with (SFdiv prec emax (SFsub prec emax stop start) (b64 (num - 1) 0)) in *.
  change (of_int (num - 1)) with (b64 (num - 1) 0) in Fn.
  set (d := SFsub prec emax stop start) in *.
  set (n1 := b64 (num - 1) 0) in *.
  assert (Fd : finite64 d = true).
  { destruct d as [s|s| |s m e]; try reflexivity; try congruence.
    destruct n1 as [s'|s'| |s' m' e']; try discriminate; cbn in Pn; lia. }
  destruct (SFdiv_nonneg d n1 Vd Vn Fd Fn Pd Pn) as (Vst & Nst & Pst).
  set (st := SFdiv prec emax d n1) in *.
  (* the products *)
  assert (Hprod : ∀ k : nat, Z.of_nat k ≤ num - 1 →
            let p := SFmul prec emax (b64 (Z.of_nat k) 0) st in
            valid_binary prec emax p = true ∧ p ≠ S754_nan
            ∧ valZ p = rndZ (valZ (b64 (Z.of_nat k) 0) * valZ st / 2 ^ 2148)).
  { intros k Hk. destruct (of_int_val (Z.of_nat k)) as (Vk & Nk & _).
    pose proof (of_int_nonneg (Z.of_nat k) ltac:(lia)) as Pk.
    apply SFmul_val; try assumption.
    apply finite_of_val; [exact Nk|]. split; [exact Pk|].
    pose proof (of_int_mono (Z.of_nat k) (num - 1) Hk).
    pose proof (finite_val_lt_top n1 Vn Fn). unfold n1 in *. lia. }
  destruct (Hprod i ltac:(lia)) as (Vi & Ni & Ei).
  destruct (Hprod j Hj) as (Vj & Nj & Ej).
  change (fadd start (fmul (of_int (Z.of_nat i)) st))
    with (SFadd prec emax start (SFmul prec emax (b64 (Z.of_nat i) 0) st)).
  change (fadd start (fmul (of_int (Z.of_nat j)) st))
    with (SFadd prec emax start (SFmul prec emax (b64 (Z.of_nat j) 0) st)).
  apply SFadd_mono; try assumption.
  rewrite Ei, Ej.
  pose proof (of_int_nonneg (Z.of_nat i) ltac:(lia)) as Pi.
  pose proof (of_int_mono (Z.of_nat i) (Z.of_nat j) ltac:(lia)) as Mij.
  pose proof (pow2_pos 2148 ltac:(lia)) as H2.
  split.
  - apply rndZ_nonneg. apply Z.div_pos; [nia|lia].
  - apply rndZ_mono. apply Z.div_le_mono; [lia|nia].
Qed.

Lemma linspace_nondecreasing (start stop : spec_float) (num : Z) :
  1 < num →
  valid_binary prec emax start = true → valid_binary prec emax stop = true →
  finite64 start = true → finite64 stop = true →
  SFleb start stop = true →
  finite64 (of_int (num - 1)) = true →
  finite64 (axis_step start stop num) = true →
  ∃ xs, linspace start stop num = Ok xs ∧ nondecreasing64 xs.
Proof.
  intros Hn Vs Vt Fs Ft Hle Fn Fst.
  destruct (linspace_ok start stop num) as (xs & Hxs & Hlen); [exact Fn|].
  exists xs. split; [exact Hxs|]. intros i a b Ha Hb.
  apply lookup_lt_Some in Hb as Hi. rewrite Hlen in Hi.
  rewrite (linspace_lookup start stop num xs i Hxs) in Ha by lia.
  rewrite (linspace_lookup start stop num xs (S i) Hxs) in Hb by lia.
  assert (Ea : a = axis_elem start stop num i) by congruence.
  assert (Eb : b = axis_elem start stop num (S i)) by congruence.
  subst a b. apply axis_elem_mono; try assumption; lia.
Qed.

(** ** Floats that differ only in the sign of a zero *)

Lemma same_value_refl (a : spec_float) : same_value a a.
Proof. destruct a; cbn; auto. Qed.

Lemma same_value_cases (a b : spec_float) :
  same_value a b → a = b ∨ ∃ s s', a = S754_zero s ∧ b = S754_zero s'.
Proof.
  destruct a as [s| | |], b as [s'| | |]; cbn; auto.
  intros _. right. now exists s, s'.
Qed.

Ltac same_value_split H :=
  apply same_value_cases in H as [->|(? & ? & -> & ->)].

Ltac destruct_signs :=
  repeat match goal with s : bool |- _ => destruct s end.

Lemma SFmul_same (a a' b b' : spec_float) :
  same_value a a' → same_value b b' →
  same_value (SFmul prec emax a b) (SFmul prec emax a' b').
Proof.
  intros Ha Hb. same_value_split Ha; same_value_split Hb;
    try apply same_value_refl.
  - destruct a'; cbn; auto.
  - destruct b'; cbn; auto.
  - cbn. auto.
Qed.

Lemma SFadd_same (a a' b b' : spec_float) :
  same_value a a' → same_value b b' →
  same_value (SFadd prec emax a b) (SFadd prec emax a' b').
Proof.
  intros Ha Hb. same_value_split Ha; same_value_split Hb;
    try apply same_value_refl.
  - destruct a' as [[]| | |]; cbn; auto; destruct_signs; cbn; auto.
  - destruct b' as [[]| | |]; cbn; auto; destruct_signs; cbn; auto.
  - destruct_signs; cbn; auto.
Qed.

Lemma SFsub_same (a a' b b' : spec_float) :
  same_value a a' → same_value b b' →
  same_value (SFsub prec emax a b) (SFsub prec emax a' b').
Proof.
  intros Ha Hb. same_value_split Ha; same_value_split Hb;
    try apply same_value_refl.
  - destruct a' as [[]| | |]; cbn; auto; destruct_signs; cbn; auto.
  - destruct b' as [[]| | |]; cbn; auto; destruct_signs; cbn; auto.
  - destruct_signs; cbn; auto.
Qed.

Lemma SFltb_same (c a a' : spec_float) :
  same_value a a' → SFltb c a = SFltb c a'.
Proof.
  intros Ha. same_value_split Ha; [reflexivity|].
  destruct c as [| | |[]]; reflexivity.
Qed.

Lemma escaped_same (z z' : complex spec_float) :
  same_point z z' → escaped z = escaped z'.
Proof.
  intros [Hr Hi]. unfold escaped. cbn [fgtb fadd fmul binary64].
  apply SFltb_same. apply SFadd_same; apply SFmul_same; assumption.
Qed.

Lemma step_same (c c' z z' : complex spec_float) :
  same_point c c' → same_point z z' → same_point (step c z) (step c' z').
Proof.
  intros [Hcr Hci] [Hzr Hzi]. unfold step, c_add, c_mul, same_point.
  cbn [real imag fadd fsub fmul binary64]. split.
  - apply SFadd_same; [|assumption].
    apply SFsub_same; apply SFmul_same; assumption.
  - apply SFadd_same; [|assumption].
    apply SFadd_same; apply SFmul_same; assumption.
Qed.

Lemma escape_loop_same (c c' : complex spec_float) (k : nat) :
  same_point c c' → ∀ z z' n, same_point z z' →
  escape_loop c z n k = escape_loop c' z' n k.
Proof.
  intros Hc. induction k as [|k IH]; intros z z' n Hz; [reflexivity|].
  cbn [escape_loop].
  pose proof (step_same c c' z z' Hc Hz) as Hs.
  rewrite (escaped_same _ _ Hs).
  destruct (escaped (step c' z')); [reflexivity|]. now apply IH.
Qed.

Lemma mandelbrot_point_same (c c' : complex spec_float) (max_iter : Z) :
  same_point c c' → mandelbrot_point c max_iter = mandelbrot_point c' max_iter.
Proof.
  intros Hc. unfold mandelbrot_point.
  rewrite (escape_loop_same c c' _ Hc c_zero c_zero 0); [reflexivity|].
  split; apply same_value_refl.
Qed.

Lemma valZ_inj (x y : spec_float) :
  valid_binary prec emax x = true → valid_binary prec emax y = true →
  x ≠ S754_nan → y ≠ S754_nan → valZ x = valZ y → same_value x y.
Proof.
  intros Hx Hy Nx Ny Hv.
  pose proof (SFcompare_val x y Hx Hy Nx Ny) as Hc.
  rewrite Hv, Z.compare_refl in Hc.
  destruct x as [sx|sx| |sx mx ex]; try congruence;
    destruct y as [sy|sy| |sy my ey]; try congruence; cbn in Hc |- *;
    try (destruct sx; discriminate); try (destruct sy; discriminate); auto.
  - destruct sx, sy; try discriminate; reflexivity.
  - destruct sx, sy; try discriminate;
      destruct (Z.compare_spec ex ey) as [->|?|?]; try discriminate.
    + injection Hc as Hc. apply (f_equal CompOpp) in Hc. rewrite CompOpp_involutive in Hc.
      cbn in Hc. apply Pos.compare_eq in Hc. subst. reflexivity.
    + injection Hc as Hc. apply Pos.compare_eq in Hc. subst. reflexivity.
Qed.

Lemma SFmul_one (y : spec_float) :
  valid_binary prec emax y = true → finite64 y = true →
  same_value (SFmul prec emax one64 y) y.
Proof.
  intros Hy Fy.
  destruct (SFmul_val one64 y eq_refl Hy eq_refl Fy) as (Hv & Hn & Hval).
  apply valZ_inj; try assumption.
  - intros ->. discriminate.
  - rewrite Hval.
    replace (valZ one64 * valZ y / 2 ^ 2148) with (valZ y).
    + now apply rndZ_id.
    + change (valZ one64) with (2 ^ 2148).
      rewrite Z.mul_comm, Z.div_mul; [reflexivity|].
      pose proof (pow2_pos 2148 ltac:(lia)). lia.
Qed.

Lemma sample_point_same (x y : spec_float) :
  valid_binary prec emax y = true → finite64 y = true →
  same_point (sample_point x y) (Complex x y).
Proof.
  intros Hy Fy. unfold sample_point, c_add, c_mul, c_j, complex_of_float.
  cbn [real imag fadd fsub fmul binary64].
  change (of_int 0) with (S754_zero false).
  change (of_int 1) with one64.
  pose proof (SFmul_one y Hy Fy) as H1.
  split; cbn [real imag].
  - destruct y as [sy|sy| |sy my ey]; try discriminate;
      destruct x as [sx|sx| |sx mx ex];
      cbn; try destruct sy; try destruct sx; cbn; auto.
  - apply same_value_cases in H1 as [->|(s & s' & E & ->)].
    + destruct y as [[]|sy| |sy my ey]; try discriminate; cbn; auto.
    + rewrite E. destruct s; cbn; auto.
Qed.

(** ** Every operation returns a valid float *)

Ltac valid_cases x y :=
  destruct x as [[]|[]| |? ? ?], y as [[]|[]| |? ? ?];
  try discriminate; cbn; try reflexivity; try assumption.

Lemma SFadd_valid (x y : spec_float) :
  valid_binary prec emax x = true → valid_binary prec emax y = true →
  valid_binary prec emax (SFadd prec emax x y) = true.
Proof.
  intros Hx Hy. destruct (finite64 x) eqn:Fx, (finite64 y) eqn:Fy;
    [apply (SFadd_val x y Hx Hy Fx Fy)|..]; valid_cases x y.
Qed.

Lemma SFsub_valid (x y : spec_float) :
  valid_binary prec emax x = true → valid_binary prec emax y = true →
  valid_binary prec emax (SFsub prec emax x y) = true.
Proof.
  intros Hx Hy. destruct (finite64 x) eqn:Fx, (finite64 y) eqn:Fy;
    [apply (SFsub_val x y Hx Hy Fx Fy)|..]; valid_cases x y.
Qed.

Lemma SFmul_valid (x y : spec_float) :
  valid_binary prec emax x = true → valid_binary prec emax y = true →
  valid_binary prec emax (SFmul prec emax x y) = true.
Proof.
  intros Hx Hy. destruct (finite64 x) eqn:Fx, (finite64 y) eqn:Fy;
    [apply (SFmul_val x y Hx Hy Fx Fy)|..]; valid_cases x y.
Qed.

Lemma SFdiv_valid (x y : spec_float) :
  valid_binary prec emax x = true → valid_binary prec emax y = true →
  valid_binary prec emax (SFdiv prec emax x y) = true.
Proof.
  intros Hx Hy.
  destruct x as [sx|sx| |sx mx ex], y as [sy|sy| |sy my ey];
    try reflexivity.
  cbn [SFdiv].
  destruct (div_core_no_left_shift _ _ _ _ _ _ Hx Hy) as (q & e' & l & -> & Hq & Hn).
  destruct (bra_valid (xorb sx sy) q e' l Hq Hn) as (m1 & _ & _ & Hv & _).
  exact Hv.
Qed.

Lemma of_int_valid (n : Z) : valid_binary prec emax (b64 n 0) = true.
Proof. apply of_int_val. Qed.

Lemma axis_elem_valid (start stop : spec_float) (num : Z) (i : nat) :
  valid_binary prec emax start = true → valid_binary prec emax stop = true →
  valid_binary prec emax (axis_elem start stop num i) = true.
Proof.
  intros Hs Ht. unfold axis_elem, axis_step.
  cbn [fadd fmul fquot fsub of_int binary64].
  apply SFadd_valid; [exact Hs|]. apply SFmul_valid; [apply of_int_valid|].
  apply SFdiv_valid; [|apply of_int_valid]. now apply SFsub_valid.
Qed.

Lemma linspace_valid (start stop : spec_float) (num : Z) (xs : list spec_float)
    (i : nat) (x : spec_float) :
  valid_binary prec emax start = true → valid_binary prec emax stop = true →
  linspace start stop num = Ok xs → xs !! i = Some x →
  valid_binary prec emax x = true.
Proof.
  intros Hs Ht Hxs Hx. destruct (decide (num = 1)) as [->|Hne].
  - rewrite linspace_one in Hxs. injection Hxs as <-.
    destruct i; cbn in Hx; [|destruct i; discriminate]. now injection Hx as <-.
  - apply lookup_lt_Some in Hx as Hi.
    rewrite (linspace_length _ _ _ _ Hxs) in Hi.
    rewrite (linspace_lookup start stop num xs i Hxs Hne Hi) in Hx.
    injection Hx as <-. now apply axis_elem_valid.
Qed.

(** ** Counts too large for a float *)

Lemma linspace_overflow_64 (start stop : spec_float) (num : Z) :
  finite64 (of_int (num - 1)) = false →
  linspace start stop num = Raise OverflowError.
Proof.
  intros Hf. apply linspace_overflow; [|exact Hf].
  intros ->. discriminate.
Qed.

Lemma mandelbrot_grid_overflow_64
    (xmin xmax ymin ymax : spec_float) (width height max_iter : Z) :
  finite64 (of_int (width - 1)) = false
  ∨ finite64 (of_int (height - 1)) = false →
  mandelbrot_grid xmin xmax ymin ymax width height max_iter
  = Raise OverflowError.
Proof.
  intros Hf. apply mandelbrot_grid_overflow; [|reflexivity].
  destruct Hf as [Hf|Hf]; [left|right]; (split; [|exact Hf]);
    intros ->; discriminate.
Qed.

(** ** Counts under different budgets, and the grid in closed form *)

Section Budget.
Context {F : Type} `{PyFloat F}.

Lemma escape_loop_more (c : complex F) (k : nat) : ∀ z n (k' : nat) r,
  escape_loop c z n k = Some r → (k ≤ k')%nat → escape_loop c z n k' = Some r.
Proof.
  induction k as [|k IH]; intros z n k' r; cbn [escape_loop]; [discriminate|].
  intros Hr Hk. destruct k' as [|k']; [lia|]. cbn [escape_loop].
  destruct (escaped (step c z)); [exact Hr|]. apply IH; [exact Hr|lia].
Qed.

Lemma escape_loop_late (c : complex F) (k : nat) : ∀ z n (k' : nat) r,
  escape_loop c z n k = None → escape_loop c z n k' = Some r →
  n + Z.of_nat k ≤ r.
Proof.
  induction k as [|k IH]; intros z n k' r; cbn [escape_loop].
  - intros _ Hr. apply escape_loop_Some in Hr. lia.
  - destruct k' as [|k']; cbn [escape_loop]; [discriminate|].
    destruct (escaped (step c z)); [discriminate|].
    intros Hn Hr. specialize (IH _ _ _ _ Hn Hr). lia.
Qed.

Lemma mandelbrot_point_budget_min (c : complex F) (m m' : Z) :
  0 ≤ m ≤ m' → mandelbrot_point c m = Z.min m (mandelbrot_point c m').
Proof.
  intros Hm. unfold mandelbrot_point.
  destruct (escape_loop c c_zero 0 (Z.to_nat m)) as [r|] eqn:E.
  - rewrite (escape_loop_more c _ _ _ (Z.to_nat m') r E) by lia.
    apply escape_loop_Some in E. lia.
  - destruct (escape_loop c c_zero 0 (Z.to_nat m')) as [r|] eqn:E'; [|lia].
    pose proof (escape_loop_late c _ _ _ _ _ E E'). lia.
Qed.

End Budget.

Section ClosedForm.
Context {F : Type} `{PyFloatLaws F}.

(** The nested loops compute the nested comprehension over the two
    sampled axes. *)
Lemma mandelbrot_grid_closed (xmin xmax ymin ymax : F) width height max_iter
    xs ys :
  linspace xmin xmax width = Ok xs → linspace ymin ymax height = Ok ys →
  mandelbrot_grid xmin xmax ymin ymax width height max_iter
  = Ok ((λ y, (λ x, mandelbrot_point (sample_point x y) max_iter) <$> xs)
          <$> ys).
Proof.
  intros Hxs Hys.
  pose proof (linspace_length _ _ _ _ Hxs) as Hlx.
  pose proof (linspace_length _ _ _ _ Hys) as Hly.
  destruct (mandelbrot_grid_from_axes xmin xmax ymin ymax width height max_iter
              xs ys Hxs Hys) as (grid & Hg & Hlen & Hrows & Hcells).
  rewrite Hg. f_equal. apply list_eq. intros j.
  rewrite list_lookup_fmap.
  destruct (ys !! j) as [y|] eqn:Hy; cbn.
  - apply lookup_lt_Some in Hy as Hj. rewrite Hly in Hj.
    destruct (lookup_lt_is_Some_2 grid j ltac:(lia)) as [row Hrow].
    rewrite Hrow. f_equal. apply list_eq. intros i.
    rewrite list_lookup_fmap.
    destruct (xs !! i) as [x|] eqn:Hx; cbn.
    + apply lookup_lt_Some in Hx as Hi. rewrite Hlx in Hi.
      specialize (Hcells j i Hj Hi). unfold cell, cell_value in Hcells.
      rewrite Hrow, Hx, Hy in Hcells. exact Hcells.
    + apply lookup_ge_None. apply lookup_ge_None in Hx.
      rewrite (Hrows _ _ Hrow). lia.
  - apply lookup_ge_None. apply lookup_ge_None in Hy. lia.
Qed.

Lemma mandelbrot_grid_clamp (xmin xmax ymin ymax : F) width height m m'
    (g' : list (list Z)) :
  0 ≤ m ≤ m' →
  mandelbrot_grid xmin xmax ymin ymax width height m' = Ok g' →
  mandelbrot_grid xmin xmax ymin ymax width height m
    = Ok ((λ row : list Z, Z.min m <$> row) <$> g').
Proof.
  intros Hm Hg'.
  destruct (mandelbrot_grid_inv _ _ _ _ _ _ _ _ Hg')
    as (xs & ys & Hxs & _ & Hys & _).
  rewrite (mandelbrot_grid_closed _ _ _ _ _ _ m' xs ys Hxs Hys) in Hg'.
  injection Hg' as <-.
  rewrite (mandelbrot_grid_closed _ _ _ _ _ _ m xs ys Hxs Hys). f_equal.
  rewrite <- list_fmap_compose. apply list_fmap_ext. intros _ y _. cbn.
  rewrite <- list_fmap_compose. apply list_fmap_ext. intros _ x _. cbn.
  now apply mandelbrot_point_budget_min.
Qed.

End ClosedForm.

(** ** The first pass through the loop *)

Lemma first_iterate_same (c : complex spec_float) :
  same_point (step c c_zero) c.
Proof.
  destruct c as [cr ci]. unfold step, c_add, c_mul, c_zero, same_point.
  cbn [real imag fadd fsub fmul binary64].
  change (of_int 0) with (S754_zero false).
  split; [destruct cr as [[]| | |]|destruct ci as [[]| | |]]; cbn; auto.
Qed.

Lemma mandelbrot_point_zero_iff (c : complex spec_float) (max_iter : Z) :
  1 ≤ max_iter → (mandelbrot_point c max_iter = 0 ↔ escaped c = true).
Proof.
  intros Hm. unfold mandelbrot_point.
  destruct (Z.to_nat max_iter) as [|k] eqn:Ek; [lia|]. cbn [escape_loop].
  rewrite (escaped_same _ _ (first_iterate_same c)).
  destruct (escaped c); [tauto|].
  split; [|discriminate].
  destruct (escape_loop c (step c c_zero) (0 + 1) k) as [r|] eqn:E.
  - apply escape_loop_Some in E. lia.
  - lia.
Qed.

(** ** NaN coordinates *)

Lemma SFadd_nan_r (x : spec_float) : SFadd prec emax x S754_nan = S754_nan.
Proof. destruct x; reflexivity. Qed.

Lemma escaped_nan (z : complex spec_float) :
  real z = S754_nan ∨ imag z = S754_nan → escaped z = false.
Proof.
  destruct z as [zr zi]. cbn [real imag]. unfold escaped.
  cbn [real imag fgtb fadd fmul binary64].
  change (of_int 4) with (S754_finite false 4503599627370496 (-50)).
  intros [-> | ->]; cbn [SFmul].
  - destruct (SFmul prec emax zi zi); reflexivity.
  - rewrite SFadd_nan_r. reflexivity.
Qed.

Lemma step_nan (c z : complex spec_float) :
  real c = S754_nan ∨ imag c = S754_nan →
  real (step c z) = S754_nan ∨ imag (step c z) = S754_nan.
Proof.
  destruct c as [cr ci]. cbn [real imag]. unfold step, c_add.
  cbn [real imag fadd binary64].
  intros [-> | ->]; [left|right]; apply SFadd_nan_r.
Qed.

Lemma escape_loop_nan (c : complex spec_float) (k : nat) :
  real c = S754_nan ∨ imag c = S754_nan →
  ∀ z n, escape_loop c z n k = None.
Proof.
  intros Hc. induction k as [|k IH]; intros z n; [reflexivity|].
  cbn [escape_loop]. rewrite (escaped_nan _ (step_nan c z Hc)). apply IH.
Qed.

(** ** Conjugation *)

Lemma same_value_sym (a b : spec_float) : same_value a b → same_value b a.
Proof. destruct a, b; cbn; auto. Qed.

Lemma same_value_trans (a b c : spec_float) :
  same_value a b → same_value b c → same_value a c.
Proof.
  intros Hab Hbc. same_value_split Hab; [exact Hbc|].
  destruct c; cbn in *; auto; discriminate.
Qed.

Lemma SFopp_same (a b : spec_float) :
  same_value a b → same_value (SFopp a) (SFopp b).
Proof. intros H. same_value_split H; [apply same_value_refl|exact I]. Qed.

Lemma SFopp_involutive (a : spec_float) : SFopp (SFopp a) = a.
Proof. destruct a as [[]|[]| |[] ? ?]; reflexivity. Qed.

Lemma binary_round_aux_opp (s : bool) (m e : Z) (l : location) :
  binary_round_aux prec emax (negb s) m e l
  = SFopp (binary_round_aux prec emax s m e l).
Proof.
  unfold binary_round_aux.
  destruct (shr_fexp prec emax m e l) as [mrs e'].
  destruct (shr_fexp prec emax _ e' loc_Exact) as [mrs' e''].
  destruct (shr_m mrs'); try reflexivity.
  destruct (e'' <=? emax - prec); reflexivity.
Qed.

Lemma binary_round_aux_flip (s : bool) (m e : Z) (l : location) :
  binary_round_aux prec emax s m e l
  = SFopp (binary_round_aux prec emax (negb s) m e l).
Proof. now rewrite binary_round_aux_opp, SFopp_involutive. Qed.

Lemma SFmul_opp_l (a b : spec_float) :
  SFmul prec emax (SFopp a) b = SFopp (SFmul prec emax a b).
Proof.
  destruct a as [[]|[]| |[] ma ea], b as [[]|[]| |[] mb eb];
    try reflexivity; cbn [SFopp SFmul negb xorb];
    first [apply (binary_round_aux_opp true)|apply (binary_round_aux_opp false)].
Qed.

Lemma SFmul_opp_r (a b : spec_float) :
  SFmul prec emax a (SFopp b) = SFopp (SFmul prec emax a b).
Proof.
  destruct a as [[]|[]| |[] ma ea], b as [[]|[]| |[] mb eb];
    try reflexivity; cbn [SFopp SFmul negb xorb];
    first [apply (binary_round_aux_opp true)|apply (binary_round_aux_opp false)].
Qed.

Lemma binary_normalize_opp (z e : Z) :
  same_value (binary_normalize prec emax (- z) e false)
             (SFopp (binary_normalize prec emax z e false)).
Proof.
  destruct z as [|p|p]; [exact I| |].
  - change (- Z.pos p) with (Z.neg p). cbn [binary_normalize].
    unfold binary_round. destruct (shl_align p e _) as [mz ez].
    rewrite (binary_round_aux_flip true). apply same_value_refl.
  - change (- Z.neg p) with (Z.pos p). cbn [binary_normalize].
    unfold binary_round. destruct (shl_align p e _) as [mz ez].
    rewrite (binary_round_aux_flip false). apply same_value_refl.
Qed.

Lemma cond_Zopp_negb (s : bool) (m : Z) : cond_Zopp (negb s) m = - cond_Zopp s m.
Proof. destruct s; cbn; lia. Qed.

Lemma SFadd_opp (a b : spec_float) :
  same_value (SFadd prec emax (SFopp a) (SFopp b))
             (SFopp (SFadd prec emax a b)).
Proof.
  destruct a as [[]|[]| |sa ma ea], b as [[]|[]| |sb mb eb];
    try (cbn; auto; fail).
  cbn [SFopp SFadd]. rewrite !cond_Zopp_negb, <- Z.opp_add_distr.
  apply binary_normalize_opp.
Qed.

Lemma SFsub_opp (a b : spec_float) :
  same_value (SFsub prec emax (SFopp a) (SFopp b))
             (SFopp (SFsub prec emax a b)).
Proof.
  destruct a as [[]|[]| |sa ma ea], b as [[]|[]| |sb mb eb];
    try (cbn; auto; fail).
  cbn [SFopp SFsub]. rewrite !cond_Zopp_negb.
  replace (- cond_Zopp sa (Z.pos (fst (shl_align ma ea (Z.min ea eb))))
           - - cond_Zopp sb (Z.pos (fst (shl_align mb eb (Z.min ea eb)))))
    with (- (cond_Zopp sa (Z.pos (fst (shl_align ma ea (Z.min ea eb))))
             - cond_Zopp sb (Z.pos (fst (shl_align mb eb (Z.min ea eb))))))
    by lia.
  apply binary_normalize_opp.
Qed.

Lemma SFmul_opp_opp_same (a a' b b' : spec_float) :
  same_value a' (SFopp a) → same_value b' (SFopp b) →
  same_value (SFmul prec emax a' b') (SFmul prec emax a b).
Proof.
  intros Ha Hb.
  eapply same_value_trans; [apply SFmul_same; eassumption|].
  rewrite SFmul_opp_l, SFmul_opp_r, SFopp_involutive. apply same_value_refl.
Qed.

Lemma escaped_conj (z z' : complex spec_float) :
  conj_of z z' → escaped z' = escaped z.
Proof.
  intros [Hr Hi]. unfold escaped. cbn [fgtb fadd fmul binary64].
  apply SFltb_same. apply SFadd_same.
  - now apply SFmul_same.
  - now apply SFmul_opp_opp_same.
Qed.

Lemma step_conj (c c' z z' : complex spec_float) :
  conj_of c c' → conj_of z z' → conj_of (step c z) (step c' z').
Proof.
  intros [Hcr Hci] [Hzr Hzi]. unfold step, c_add, c_mul, conj_of.
  cbn [real imag fadd fsub fmul binary64]. split.
  - apply SFadd_same; [|assumption]. apply SFsub_same.
    + now apply SFmul_same.
    + now apply SFmul_opp_opp_same.
  - eapply same_value_trans; [|apply SFadd_opp].
    apply SFadd_same; [|assumption].
    eapply same_value_trans; [|apply SFadd_opp].
    apply SFadd_same.
    + rewrite <- SFmul_opp_r. now apply SFmul_same.
    + rewrite <- SFmul_opp_l. now apply SFmul_same.
Qed.

Lemma escape_loop_conj (c c' : complex spec_float) (k : nat) :
  conj_of c c' → ∀ z z' n, conj_of z z' →
  escape_loop c' z' n k = escape_loop c z n k.
Proof.
  intros Hc. induction k as [|k IH]; intros z z' n Hz; [reflexivity|].
  cbn [escape_loop].
  pose proof (step_conj c c' z z' Hc Hz) as Hs.
  rewrite (escaped_conj _ _ Hs).
  destruct (escaped (step c z)); [reflexivity|]. now apply IH.
Qed.

Lemma mandelbrot_point_conj (x y : spec_float) (max_iter : Z) :
  mandelbrot_point (Complex x (SFopp y)) max_iter
  = mandelbrot_point (Complex x y) max_iter.
Proof.
  unfold mandelbrot_point.
  rewrite (escape_loop_conj (Complex x y) (Complex x (SFopp y)) _
             ltac:(split; apply same_value_refl) c_zero c_zero 0);
    [reflexivity|].
  split; [apply same_value_refl|exact I].
Qed.

(** ** Sums with an ordered pair of addends *)

Lemma infinite_cases (a : spec_float) :
  a ≠ S754_nan → finite64 a = false → ∃ s, a = S754_infinity s.
Proof.
  intros Hn Hf. destruct a as [s|s| |s m e]; try discriminate; try congruence.
  now exists s.
Qed.

Lemma SFadd_infinity (x : spec_float) (s : bool) :
  finite64 x = true → SFadd prec emax x (S754_infinity s) = S754_infinity s.
Proof. destruct x; try discriminate; reflexivity. Qed.

Lemma SFadd_mono_gen (x a b : spec_float) :
  valid_binary prec emax x = true → finite64 x = true →
  valid_binary prec emax a = true → a ≠ S754_nan →
  valid_binary prec emax b = true → b ≠ S754_nan →
  valZ a ≤ valZ b →
  SFleb (SFadd prec emax x a) (SFadd prec emax x b) = true.
Proof.
  intros Hx Fx Ha Na Hb Nb Hab. pose proof top_pos as Htop.
  destruct (finite64 a) eqn:Fa, (finite64 b) eqn:Fb.
  - destruct (SFadd_val x a Hx Ha Fx Fa) as (Va & Nna & Ea).
    destruct (SFadd_val x b Hx Hb Fx Fb) as (Vb & Nnb & Eb).
    apply SFleb_val; try assumption. rewrite Ea, Eb. apply rndZ_mono. lia.
  - destruct (infinite_cases b Nb Fb) as [s ->].
    pose proof (finite_val_lt_top a Ha Fa) as Hlt.
    pose proof (valZ_bounds a Ha) as Hbd.
    destruct (SFadd_val x a Hx Ha Fx Fa) as (Va & Nna & Ea).
    rewrite SFadd_infinity by exact Fx.
    destruct s.
    + cbn in Hab. assert (valZ a = - top) by lia.
      destruct a as [sa|sa| |sa ma ea]; try discriminate; cbn in H; try lia.
      pose proof (valid_finite_lt_top _ _ _ Ha). destruct sa; cbn in H; lia.
    + apply SFleb_val; try assumption; try reflexivity; try discriminate.
      apply (valZ_bounds _ Va).
  - destruct (infinite_cases a Na Fa) as [s ->].
    pose proof (finite_val_lt_top b Hb Fb) as Hlt.
    destruct (SFadd_val x b Hx Hb Fx Fb) as (Vb & Nnb & Eb).
    rewrite SFadd_infinity by exact Fx.
    destruct s; [|cbn in Hab; lia].
    apply SFleb_val; try assumption; try reflexivity; try discriminate.
    apply (valZ_bounds _ Vb).
  - destruct (infinite_cases a Na Fa) as [sa ->].
    destruct (infinite_cases b Nb Fb) as [sb ->].
    rewrite !SFadd_infinity by exact Fx.
    destruct sa, sb; try reflexivity. cbn in Hab. lia.
Qed.

Lemma has_sign_true_nonpos (r : spec_float) : has_sign true r → valZ r ≤ 0.
Proof.
  pose proof top_pos.
  destruct r as [s|s| |s m e]; cbn; try lia; intros ->; cbn; lia.
Qed.

Lemma SFdiv_sign (x y : spec_float) :
  valid_binary prec emax x = true → valid_binary prec emax y = true →
  finite64 x = true → finite64 y = true → 0 < valZ y →
  let r := SFdiv prec emax x y in
  valid_binary prec emax r = true ∧ r ≠ S754_nan
  ∧ (0 ≤ valZ x → 0 ≤ valZ r) ∧ (valZ x ≤ 0 → valZ r ≤ 0).
Proof.
  intros Hx Hy Fx Fy Py.
  destruct y as [sy|sy| |sy my ey]; try discriminate.
  pose proof (finite_nonneg_sign _ _ _ Hy (Z.lt_le_incl _ _ Py)) as ->.
  destruct x as [sx|sx| |sx mx ex]; try discriminate; cbn [SFdiv].
  - repeat split; try discriminate; cbn; lia.
  - destruct (div_core_no_left_shift _ _ _ _ _ _ Hx Hy) as (q & e' & l & -> & Hq & Hn).
    destruct (bra_valid (xorb sx false) q e' l Hq Hn) as (m1 & _ & _ & Hv & Hs & _).
    pose proof (valid_finite_lt_top _ _ _ Hx) as Hpos.
    split; [exact Hv|]. split; [intros E; rewrite E in Hs; exact Hs|].
    destruct sx; cbn [xorb valZ cond_Zopp] in *.
    + split; [lia|]. intros _. now apply has_sign_true_nonpos.
    + split; [|lia]. intros _. now apply has_sign_false_nonneg.
Qed.

(** The elements of an axis, as values: for a fixed non-negative step the
    products grow with the index, for a non-positive one they shrink. *)
Lemma axis_setup (start stop : spec_float) (num : Z) :
  1 < num →
  valid_binary prec emax start = true → valid_binary prec emax stop = true →
  finite64 start = true → finite64 stop = true →
  finite64 (of_int (num - 1)) = true →
  finite64 (axis_step start stop num) = true →
  let st := axis_step start stop num in
  valid_binary prec emax st = true ∧ st ≠ S754_nan
  ∧ (valZ start ≤ valZ stop → 0 ≤ valZ st)
  ∧ (valZ stop ≤ valZ start → valZ st ≤ 0)
  ∧ ∀ k : nat, Z.of_nat k ≤ num - 1 →
      let p := SFmul prec emax (b64 (Z.of_nat k) 0) st in
      valid_binary prec emax p = true ∧ p ≠ S754_nan
      ∧ valZ p = rndZ (valZ (b64 (Z.of_nat k) 0) * valZ st / 2 ^ 2148).
Proof.
  intros Hn Vs Vt Fs Ft Fn Fst.
  destruct (SFsub_val stop start Vt Vs Ft Fs) as (Vd & Nd & Ed).
  destruct (of_int_val (num - 1)) as (Vn & Nn & En).
  assert (Pn : 0 < valZ (b64 (num - 1) 0)).
  { pose proof (of_int_nonneg (num - 1) ltac:(lia)) as H0.
    destruct (Z.eq_dec (valZ (b64 (num - 1) 0)) 0) as [E0|]; [|lia].
    destruct (valZ_zero_inv _ Vn Nn E0) as [s Hs].
    now apply b64_int_nonzero in Hs; [|lia]. }
  unfold axis_step in *.
  change (fquot (fsub stop start) (of_int (num - 1)))
    with (SFdiv prec emax (SFsub prec emax stop start) (b64 (num - 1) 0)) in *.
  change (of_int (num - 1)) with (b64 (num - 1) 0) in Fn.
  set (d := SFsub prec emax stop start) in *.
  set (n1 := b64 (num - 1) 0) in *.
  assert (Fd : finite64 d = true).
  { destruct d as [s|s| |s m e]; try reflexivity; try congruence.
    destruct n1 as [s'|s'| |s' m' e']; try discriminate; cbn in Pn; lia. }
  destruct (SFdiv_sign d n1 Vd Vn Fd Fn Pn) as (Vst & Nst & Pst & Mst).
  cbv zeta. split; [exact Vst|]. split; [exact Nst|]. split; [|split].
  - intros Hle. apply Pst. rewrite Ed. apply rndZ_nonneg. lia.
  - intros Hle. apply Mst. rewrite Ed.
    change 0 with (rndZ 0). apply rndZ_mono. lia.
  - intros k Hk. destruct (of_int_val (Z.of_nat k)) as (Vk & Nk & _).
    pose proof (of_int_nonneg (Z.of_nat k) ltac:(lia)) as Pk.
    apply SFmul_val; try assumption.
    apply finite_of_val; [exact Nk|]. split; [exact Pk|].
    pose proof (of_int_mono (Z.of_nat k) (num - 1) Hk).
    pose proof (finite_val_lt_top n1 Vn Fn). unfold n1 in *. lia.
Qed.

Lemma axis_elem_antimono (start stop : spec_float) (num : Z) (i j : nat) :
  1 < num →
  valid_binary prec emax start = true → valid_binary prec emax stop = true →
  finite64 start = true → finite64 stop = true →
  SFleb stop start = true →
  finite64 (of_int (num - 1)) = true →
  finite64 (axis_step start stop num) = true →
  (i ≤ j)%nat → Z.of_nat j ≤ num - 1 →
  SFleb (axis_elem start stop num j) (axis_elem start stop num i) = true.
Proof.
  intros Hn Vs Vt Fs Ft Hle Fn Fst Hij Hj.
  assert (Ns : start ≠ S754_nan) by (intros ->; discriminate).
  assert (Nt : stop ≠ S754_nan) by (intros ->; discriminate).
  apply SFleb_val in Hle; try assumption.
  destruct (axis_setup start stop num Hn Vs Vt Fs Ft Fn Fst)
    as (Vst & Nst & _ & Mst & Hprod).
  specialize (Mst Hle).
  destruct (Hprod i ltac:(lia)) as (Vi & Ni & Ei).
  destruct (Hprod j Hj) as (Vj & Nj & Ej).
  unfold axis_elem.
  change (fadd start (fmul (of_int (Z.of_nat i)) (axis_step start stop num)))
    with (SFadd prec emax start
            (SFmul prec emax (b64 (Z.of_nat i) 0) (axis_step start stop num))).
  change (fadd start (fmul (of_int (Z.of_nat j)) (axis_step start stop num)))
    with (SFadd prec emax start
            (SFmul prec emax (b64 (Z.of_nat j) 0) (axis_step start stop num))).
  apply SFadd_mono_gen; try assumption.
  rewrite Ei, Ej. apply rndZ_mono.
  pose proof (of_int_mono (Z.of_nat i) (Z.of_nat j) ltac:(lia)) as Mij.
  pose proof (pow2_pos 2148 ltac:(lia)) as H2.
  apply Z.div_le_mono; [lia|nia].
Qed.

Lemma linspace_nonincreasing (start stop : spec_float) (num : Z) :
  1 < num →
  valid_binary prec emax start = true → valid_binary prec emax stop = true →
  finite64 start = true → finite64 stop = true →
  SFleb stop start = true →
  finite64 (of_int (num - 1)) = true →
  finite64 (axis_step start stop num) = true →
  ∃ xs, linspace start stop num = Ok xs ∧ nonincreasing64 xs.
Proof.
  intros Hn Vs Vt Fs Ft Hle Fn Fst.
  destruct (linspace_ok start stop num) as (xs & Hxs & Hlen); [exact Fn|].
  exists xs. split; [exact Hxs|]. intros i a b Ha Hb.
  apply lookup_lt_Some in Hb as Hi. rewrite Hlen in Hi.
  rewrite (linspace_lookup start stop num xs i Hxs) in Ha by lia.
  rewrite (linspace_lookup start stop num xs (S i) Hxs) in Hb by lia.
  assert (Ea : a = axis_elem start stop num i) by congruence.
  assert (Eb : b = axis_elem start stop num (S i)) by congruence.
  subst a b. apply axis_elem_antimono; try assumption; lia.
Qed.

(** ** [max] over a list and over a grid *)

Lemma foldl_max_spec (l : list Z) : ∀ best,
  let m := foldl (λ best y, if best <? y then y else best) best l in
  (m = best ∨ m ∈ l) ∧ best ≤ m ∧ ∀ x, x ∈ l → x ≤ m.
Proof.
  induction l as [|y l IH]; intros best; cbn.
  - split; [now left|]. split; [lia|]. intros x Hx. inversion Hx.
  - destruct (IH (if best <? y then y else best)) as (Hin & Hle & Hub).
    destruct (Z.ltb_spec best y).
    + split; [|split; [lia|]].
      * right. destruct Hin as [->|Hin]; [left|now right].
      * intros x Hx. apply elem_of_cons in Hx as [->|Hx]; [lia|auto].
    + split; [|split; [lia|]].
      * destruct Hin as [->|Hin]; [now left|right; now right].
      * intros x Hx. apply elem_of_cons in Hx as [->|Hx]; [lia|auto].
Qed.

Lemma py_max_Some (l : list Z) (m : Z) :
  py_max l = Some m → m ∈ l ∧ ∀ x, x ∈ l → x ≤ m.
Proof.
  destruct l as [|x l]; [discriminate|]. cbn. intros [= <-].
  destruct (foldl_max_spec l x) as (Hin & Hle & Hub). split.
  - destruct Hin as [->|Hin]; [left|now right].
  - intros y Hy. apply elem_of_cons in Hy as [->|Hy]; [lia|auto].
Qed.

Lemma py_max_None (l : list Z) : py_max l = None ↔ l = [].
Proof. destruct l; cbn; split; congruence. Qed.

Lemma max_in_grid_None (grid : list (list Z)) :
  max_in_grid grid = None ↔ grid = [] ∨ [] ∈ grid.
Proof.
  unfold max_in_grid. destruct (mapM py_max grid) as [ms|] eqn:E; cbn.
  - rewrite py_max_None. apply length_mapM in E as Hlen. split.
    + intros ->. left. now apply nil_length_inv.
    + intros [->|Hin]; [now destruct ms|].
      apply mapM_Some_1 in E. exfalso.
      apply list_elem_of_lookup in Hin as [j Hj].
      destruct (Forall2_lookup_l _ _ _ _ _ E Hj) as (y & _ & Hy). discriminate.
  - split; [intros _|reflexivity]. right.
    apply mapM_None_1, Exists_exists in E as (row & Hin & Hrow).
    apply py_max_None in Hrow. now subst.
Qed.

Lemma max_in_grid_Some (grid : list (list Z)) (m : Z) :
  max_in_grid grid = Some m →
  (∃ j i, cell grid j i = Some m)
  ∧ ∀ j i v, cell grid j i = Some v → v ≤ m.
Proof.
  unfold max_in_grid. destruct (mapM py_max grid) as [ms|] eqn:E; cbn; [|discriminate].
  intros Hm. apply py_max_Some in Hm as [Hin Hub].
  apply mapM_Some_1 in E. split.
  - apply list_elem_of_lookup in Hin as [j Hj].
    destruct (Forall2_lookup_r _ _ _ _ _ E Hj) as (row & Hrow & Hmax).
    apply py_max_Some in Hmax as [Hmin _].
    apply list_elem_of_lookup in Hmin as [i Hi].
    exists j, i. unfold cell. rewrite Hrow. exact Hi.
  - intros j i v Hv. unfold cell in Hv.
    destruct (grid !! j) as [row|] eqn:Hrow; [|discriminate]. cbn in Hv.
    destruct (Forall2_lookup_l _ _ _ _ _ E Hrow) as (rm & Hrm & Hmax).
    apply py_max_Some in Hmax as [_ Hrub].
    transitivity rm.
    + apply Hrub. apply list_elem_of_lookup. now exists i.
    + apply Hub. apply list_elem_of_lookup. now exists j.
Qed.

Lemma max_in_grid_is_Some (grid : list (list Z)) :
  grid ≠ [] → [] ∉ grid → ∃ m, max_in_grid grid = Some m.
Proof.
  intros Hne Hrows. destruct (max_in_grid grid) as [m|] eqn:E; [now exists m|].
  apply max_in_grid_None in E as [->|Hin]; [congruence|contradiction].
Qed.

(** What the scan finds in a grid computed with at least one row and one
    column and a budget that is not negative. *)
Lemma computed_grid_scan
    (xmin xmax ymin ymax : spec_float) (width height max_iter : Z) :
  1 ≤ width → 1 ≤ height → 0 ≤ max_iter →
  finite64 (of_int (width - 1)) = true →
  finite64 (of_int (height - 1)) = true →
  ∃ grid m,
    mandelbrot_grid xmin xmax ymin ymax width height max_iter = Ok grid
    ∧ max_in_grid grid = Some m
    ∧ grid_report grid = Some (Z.to_nat height, Z.to_nat width, m)
    ∧ 0 ≤ m ≤ max_iter.
Proof.
  intros Hw Hh Hm Fw Fh.
  destruct (mandelbrot_grid_spec xmin xmax ymin ymax width height max_iter)
    as (xs & ys & grid & _ & _ & _ & _ & Hg & Hlen & Hrows & _);
    [exact Fw|exact Fh|].
  assert (Hne : grid ≠ []) by (intros ->; cbn in Hlen; lia).
  assert (Hrne : [] ∉ grid).
  { intros Hin. apply list_elem_of_lookup in Hin as [j Hj].
    apply Hrows in Hj. cbn in Hj. lia. }
  destruct (max_in_grid_is_Some grid Hne Hrne) as [m Hmax].
  destruct (lookup_lt_is_Some_2 grid 0 ltac:(lia)) as [row Hrow].
  exists grid, m. split; [exact Hg|]. split; [exact Hmax|]. split.
  - unfold grid_report. rewrite Hmax. cbn. rewrite Hrow. cbn.
    now rewrite Hlen, (Hrows _ _ Hrow).
  - destruct (max_in_grid_Some grid m Hmax) as [(j & i & Hc) _].
    destruct (grid_cell_is_point _ _ _ _ _ _ _ _ _ _ _ Hg Hc) as [c ->].
    now apply mandelbrot_point_range.
Qed.

(** ** Bounds on the elements of an axis *)

Lemma SFleb_true_not_nan (a b : spec_float) :
  SFleb a b = true → a ≠ S754_nan ∧ b ≠ S754_nan.
Proof.
  unfold SFleb. destruct a, b; cbn; try discriminate; (split; discriminate).
Qed.

Lemma SFeqb_val (a b : spec_float) :
  valid_binary prec emax a = true → valid_binary prec emax b = true →
  SFeqb a b = true → a ≠ S754_nan ∧ b ≠ S754_nan ∧ valZ a = valZ b.
Proof.
  intros Va Vb H.
  assert (Hn : a ≠ S754_nan ∧ b ≠ S754_nan).
  { unfold SFeqb in H. destruct a, b; cbn in H; try discriminate; (split; discriminate). }
  destruct Hn as [Na Nb]. split; [exact Na|]. split; [exact Nb|].
  unfold SFeqb in H. rewrite SFcompare_val in H by assumption.
  destruct (Z.compare_spec (valZ a) (valZ b)); try discriminate. assumption.
Qed.

Lemma axis_elem_ge_start (start stop : spec_float) (num : Z) (i : nat) :
  1 < num →
  valid_binary prec emax start = true → valid_binary prec emax stop = true →
  finite64 start = true → finite64 stop = true →
  SFleb start stop = true →
  finite64 (of_int (num - 1)) = true →
  finite64 (axis_step start stop num) = true →
  Z.of_nat i ≤ num - 1 →
  SFleb start (axis_elem start stop num i) = true.
Proof.
  intros Hn Vs Vt Fs Ft Hle Fn Fst Hi.
  pose proof (axis_elem_mono start stop num 0 i Hn Vs Vt Fs Ft Hle Fn Fst
                ltac:(lia) Hi) as Hmono.
  pose proof (axis_elem_64_first start stop num Fs Fst) as Hfirst.
  pose proof (axis_elem_valid start stop num 0 Vs Vt) as V0.
  pose proof (axis_elem_valid start stop num i Vs Vt) as Vi.
  destruct (SFleb_true_not_nan _ _ Hmono) as [N0 Ni].
  destruct (SFeqb_val _ _ V0 Vs Hfirst) as (_ & Ns & E0).
  apply SFleb_val in Hmono; try assumption.
  apply SFleb_val; try assumption. lia.
Qed.

Lemma axis_elem_le_start (start stop : spec_float) (num : Z) (i : nat) :
  1 < num →
  valid_binary prec emax start = true → valid_binary prec emax stop = true →
  finite64 start = true → finite64 stop = true →
  SFleb stop start = true →
  finite64 (of_int (num - 1)) = true →
  finite64 (axis_step start stop num) = true →
  Z.of_nat i ≤ num - 1 →
  SFleb (axis_elem start stop num i) start = true.
Proof.
  intros Hn Vs Vt Fs Ft Hle Fn Fst Hi.
  pose proof (axis_elem_antimono start stop num 0 i Hn Vs Vt Fs Ft Hle Fn Fst
                ltac:(lia) Hi) as Hmono.
  pose proof (axis_elem_64_first start stop num Fs Fst) as Hfirst.
  pose proof (axis_elem_valid start stop num 0 Vs Vt) as V0.
  pose proof (axis_elem_valid start stop num i Vs Vt) as Vi.
  destruct (SFleb_true_not_nan _ _ Hmono) as [Ni N0].
  destruct (SFeqb_val _ _ V0 Vs Hfirst) as (_ & Ns & E0).
  apply SFleb_val in Hmono; try assumption.
  apply SFleb_val; try assumption. lia.
Qed.

(** ** An interval of length zero *)

Lemma axis_elem_degenerate (start stop : spec_float) (num : Z) (i : nat) :
  num ≠ 1 →
  valid_binary prec emax start = true → finite64 start = true →
  same_value stop start →
  finite64 (of_int (num - 1)) = true →
  Z.of_nat i ≤ num - 1 →
  same_value (axis_elem start stop num i) start.
Proof.
  intros Hn Vs Fs Hst Fn Hi.
  unfold axis_elem, axis_step.
  cbn [fadd fmul fquot fsub of_int binary64].
  (* the difference is a zero *)
  assert (Hd : ∃ s, SFsub prec emax stop start = S754_zero s).
  { destruct (SFsub_val start start Vs Vs Fs Fs) as (Vd & Nd & Ed).
    rewrite Z.sub_diag in Ed. change (rndZ 0) with 0 in Ed.
    destruct (valZ_zero_inv _ Vd Nd Ed) as [s Hs].
    pose proof (SFsub_same stop start start start Hst (same_value_refl start)) as H.
    rewrite Hs in H. destruct (SFsub prec emax stop start) as [s'| | |];
      cbn in H; try discriminate. now exists s'. }
  destruct Hd as [sd ->].
  (* so is the step *)
  destruct (of_int_val (num - 1)) as (Vn & Nn & _).
  assert (Hstep : ∃ s, SFdiv prec emax (S754_zero sd) (b64 (num - 1) 0) = S754_zero s).
  { change (of_int (num - 1)) with (b64 (num - 1) 0) in Fn.
    pose proof (b64_int_nonzero (num - 1)) as Hnz.
    destruct (b64 (num - 1) 0) as [s|s| |s m e]; try discriminate.
    - exfalso. apply (Hnz s); [lia|reflexivity].
    - eexists. reflexivity. }
  destruct Hstep as [ss ->].
  (* and so is every product *)
  destruct (of_int_val (Z.of_nat i)) as (Vi & Ni & _).
  assert (Fi : finite64 (b64 (Z.of_nat i) 0) = true).
  { apply finite_of_val; [exact Ni|]. split; [apply of_int_nonneg; lia|].
    pose proof (of_int_mono (Z.of_nat i) (num - 1) Hi).
    pose proof (finite_val_lt_top _ Vn Fn). unfold of_int, binary64 in *. lia. }
  destruct (b64 (Z.of_nat i) 0) as [s|s| |s m e]; try discriminate;
    destruct start as [[]|?| |? ? ?]; try discriminate;
    destruct_signs; cbn; auto.
Qed.

(** ** The rationals *)

Section ExactBounds.
Local Open Scope Q_scope.

Lemma axis_elem_Q_range (start stop : Q) num (i : nat) :
  (1 < num)%Z → (Z.of_nat i ≤ num - 1)%Z → start <= stop →
  start <= axis_elem start stop num i <= stop.
Proof.
  intros Hn Hi Hle. rewrite axis_elem_Q.
  pose proof (axis_step_Q_nonneg start stop num Hn Hle) as Hs.
  unfold axis_step in Hs. cbn [fquot fsub of_int exactQ] in Hs.
  set (st := (stop - start) / inject_Z (num - 1)) in *.
  assert (Hlast : inject_Z (num - 1) * st == stop - start).
  { unfold st. field. change 0 with (inject_Z 0).
    rewrite inject_Z_injective. lia. }
  assert (Hi0 : 0 <= inject_Z (Z.of_nat i)).
  { change 0 with (inject_Z 0). rewrite <- Zle_Qle. lia. }
  assert (Hi1 : inject_Z (Z.of_nat i) <= inject_Z (num - 1))
    by (rewrite <- Zle_Qle; lia).
  split; [nra|].
  assert (inject_Z (Z.of_nat i) * st <= inject_Z (num - 1) * st) by nra.
  lra.
Qed.

Lemma axis_step_Q_nonpos (start stop : Q) num :
  (1 < num)%Z → stop <= start → axis_step start stop num <= 0.
Proof.
  intros Hn Hle. unfold axis_step. cbn [fquot fsub of_int exactQ].
  apply Qle_shift_div_r.
  - change 0 with (inject_Z 0). rewrite <- Zlt_Qlt. lia.
  - lra.
Qed.

End ExactBounds.

(** ** The iterates of a finite point *)

Lemma unitZ_pos : 0 < unitZ.
Proof. unfold unitZ. apply pow2_pos. lia. Qed.

Lemma maxZ_pos : 0 < maxZ.
Proof.
  unfold maxZ. apply Z.mul_pos_pos; [reflexivity|]. apply pow2_pos. lia.
Qed.

Lemma maxZ_lt_top : maxZ < top.
Proof. apply Z.ltb_lt. vm_compute. reflexivity. Qed.

Lemma eight_units_lt_top : 8 * unitZ < top.
Proof. apply Z.ltb_lt. vm_compute. reflexivity. Qed.

Lemma finite_of_absval (x : spec_float) :
  x ≠ S754_nan → - top < valZ x < top → finite64 x = true.
Proof.
  intros Hn Hv. destruct x as [s|s| |s m e]; try reflexivity; [|congruence].
  destruct s; cbn [valZ cond_Zopp] in Hv; lia.
Qed.

Lemma finite_not_nan (x : spec_float) : finite64 x = true → x ≠ S754_nan.
Proof. intros Hf ->. discriminate. Qed.

Lemma abs_cond_Zopp (s : bool) (v : Z) : 0 ≤ v → Z.abs (cond_Zopp s v) = v.
Proof. intros Hv. destruct s; cbn [cond_Zopp]; lia. Qed.

(** No finite float exceeds [maxZ] in magnitude. *)
Lemma valid_finite_max (x : spec_float) :
  valid_binary prec emax x = true → finite64 x = true →
  Z.abs (valZ x) ≤ maxZ.
Proof.
  intros Hv Hf. pose proof maxZ_pos as Hpos.
  destruct x as [s|s| |s m e]; [cbn [valZ]; lia|discriminate|discriminate|].
  destruct (valid_finite_bounds s m e Hv) as (He & Hm & _ & _).
  unfold emin, emax, prec in *. cbn [valZ].
  assert (HQ : 0 < 2 ^ (e + 2148)) by (apply pow2_pos; lia).
  assert (HPQ : 2 ^ (e + 2148) ≤ 2 ^ 3119) by (apply pow2_le; lia).
  rewrite abs_cond_Zopp by lia. unfold maxZ. clear Hpos.
  remember (2 ^ 3119) as P eqn:EP in *. clear EP.
  remember (2 ^ (e + 2148)) as Q eqn:EQ in *. clear EQ. nia.
Qed.

Lemma unitZ_split : unitZ = 2 ^ 51 * 2 ^ 2097.
Proof. unfold unitZ. rewrite <- Z.pow_add_r by lia. reflexivity. Qed.

Lemma gap_at_infinity : (2 ^ 52 + 1) * unitZ ≤ 2 ^ 51 * top.
Proof. apply Z.leb_le. vm_compute. reflexivity. Qed.

(** A float above 2.0 in magnitude is at least [2 + 2^-51]. *)
Lemma above_two_gap (x : spec_float) :
  valid_binary prec emax x = true → x ≠ S754_nan →
  2 * unitZ < Z.abs (valZ x) →
  (2 ^ 52 + 1) * unitZ ≤ 2 ^ 51 * Z.abs (valZ x).
Proof.
  intros Hv Hn Hx. pose proof unitZ_pos as HU.
  destruct x as [s|s| |s m e]; [cbn [valZ] in Hx; lia| |congruence|].
  - cbn [valZ]. rewrite abs_cond_Zopp by (pose proof top_pos; lia).
    apply gap_at_infinity.
  - destruct (valid_finite_bounds s m e Hv) as (He & Hm & _ & _).
    unfold emin, emax, prec in *. cbn [valZ] in *.
    assert (HQ : 0 < 2 ^ (e + 2148)) by (apply pow2_pos; lia).
    rewrite abs_cond_Zopp in * by lia.
    assert (He' : -51 ≤ e).
    { destruct (Z_lt_le_dec e (-51)) as [Hlt|]; [|assumption]. exfalso.
      assert (Hlt2 : Z.pos m * 2 ^ (e + 2148) < 2 ^ (1 + 2148))
        by (apply (mul_pow2_lt _ 53); lia).
      rewrite (Z.pow_add_r 2 1 2148) in Hlt2 by lia. fold unitZ in Hlt2.
      change (2 ^ 1) with 2 in Hlt2. clear HQ. lia. }
    clear HQ.
    replace (e + 2148) with ((e + 51) + 2097) in * by lia.
    rewrite (Z.pow_add_r 2 (e + 51) 2097) in * by lia.
    rewrite unitZ_split in *.
    assert (HK : 0 < 2 ^ (e + 51)) by (apply pow2_pos; lia).
    assert (HW : 0 < 2 ^ 2097) by (apply pow2_pos; lia).
    remember (2 ^ 2097) as W eqn:EW in *. clear EW.
    remember (2 ^ (e + 51)) as K eqn:EK in *. clear EK.
    assert (2 ^ 52 < Z.pos m * K) by nia. nia.
Qed.

Lemma rndZ_four_next :
  rndZ (4 * unitZ + 2 ^ 2099) = 4 * unitZ + 2 ^ 2099.
Proof. vm_compute. reflexivity. Qed.

Lemma four_next_split : 4 * unitZ + 2 ^ 2099 = (2 ^ 53 + 4) * 2 ^ 2097.
Proof. vm_compute. reflexivity. Qed.

Lemma rndZ_four : rndZ (4 * unitZ) = 4 * unitZ ∧ rndZ (- (4 * unitZ)) = - (4 * unitZ).
Proof. split; vm_compute; reflexivity. Qed.

Lemma rndZ_eight : rndZ (8 * unitZ) = 8 * unitZ ∧ rndZ (- (8 * unitZ)) = - (8 * unitZ).
Proof. split; vm_compute; reflexivity. Qed.

Lemma rndZ_near_max :
  rndZ (maxZ + 8 * unitZ) = maxZ ∧ rndZ (- (maxZ + 8 * unitZ)) = - maxZ.
Proof. split; vm_compute; reflexivity. Qed.

(** The square of a float above 2.0 in magnitude is above 4.0. *)
Lemma sq_large (a : spec_float) :
  valid_binary prec emax a = true → a ≠ S754_nan →
  2 * unitZ < Z.abs (valZ a) →
  let p := SFmul prec emax a a in
  valid_binary prec emax p = true ∧ p ≠ S754_nan ∧ 4 * unitZ < valZ p.
Proof.
  intros Hv Hn Ha p. split; [now apply SFmul_valid|].
  destruct (finite64 a) eqn:Fa.
  - destruct (SFmul_val a a Hv Hv Fa Fa) as (_ & Hpn & Hpv). fold p in Hpn, Hpv.
    fold unitZ in Hpv.
    split; [exact Hpn|]. rewrite Hpv.
    pose proof (above_two_gap a Hv Hn Ha) as Hgap.
    assert (Hq : 4 * unitZ + 2 ^ 2099 ≤ valZ a * valZ a / unitZ).
    { apply Z.div_le_lower_bound; [apply unitZ_pos|].
      rewrite four_next_split. rewrite unitZ_split in *.
      replace (valZ a * valZ a) with (Z.abs (valZ a) * Z.abs (valZ a))
        by (rewrite <- Z.abs_mul; apply Z.abs_eq, Z.square_nonneg).
      pose proof (Z.abs_nonneg (valZ a)) as HA.
      assert (HW : 0 < 2 ^ 2097) by (apply pow2_pos; lia).
      clear Hpv Ha.
      remember (2 ^ 2097) as W eqn:EW in *. clear EW.
      remember (Z.abs (valZ a)) as A eqn:EA in *. clear EA.
      assert (H1 : (2 ^ 52 + 1) * W ≤ A) by lia.
      assert (H2 : ((2 ^ 52 + 1) * W) * ((2 ^ 52 + 1) * W) ≤ A * A)
        by (apply Z.mul_le_mono_nonneg; lia).
      assert (H3 : 0 ≤ W * W) by apply Z.square_nonneg.
      replace (2 ^ 51 * W * ((2 ^ 53 + 4) * W))
        with ((2 ^ 104 + 2 ^ 53) * (W * W)) by ring.
      replace ((2 ^ 52 + 1) * W * ((2 ^ 52 + 1) * W))
        with ((2 ^ 104 + 2 ^ 53 + 1) * (W * W)) in H2 by ring.
      remember (W * W) as S eqn:ES in *. clear ES.
      remember (A * A) as T eqn:ET in *. clear ET. lia. }
    apply rndZ_mono in Hq. rewrite rndZ_four_next in Hq.
    assert (HV : 0 < 2 ^ 2099) by (apply pow2_pos; lia).
    clear Hpv Hgap Ha.
    remember (2 ^ 2099) as V eqn:EV in *. clear EV. lia.
  - destruct (infinite_cases a Hn Fa) as [s ->]. subst p.
    split; [destruct s; discriminate|].
    replace (valZ (SFmul prec emax (S754_infinity s) (S754_infinity s)))
      with top by (destruct s; reflexivity).
    pose proof eight_units_lt_top. pose proof unitZ_pos. lia.
Qed.

Lemma sq_nonneg (b : spec_float) :
  valid_binary prec emax b = true → b ≠ S754_nan →
  let q := SFmul prec emax b b in
  valid_binary prec emax q = true ∧ q ≠ S754_nan ∧ 0 ≤ valZ q.
Proof.
  intros Hv Hn q. split; [now apply SFmul_valid|].
  destruct (finite64 b) eqn:Fb.
  - destruct (SFmul_val b b Hv Hv Fb Fb) as (_ & Hqn & Hqv). fold q in Hqn, Hqv.
    fold unitZ in Hqv.
    split; [exact Hqn|]. rewrite Hqv. apply rndZ_nonneg.
    apply Z.div_pos; [apply Z.square_nonneg|apply unitZ_pos].
  - destruct (infinite_cases b Hn Fb) as [s ->]. subst q.
    split; [destruct s; discriminate|].
    replace (valZ (SFmul prec emax (S754_infinity s) (S754_infinity s)))
      with top by (destruct s; reflexivity).
    pose proof top_pos. lia.
Qed.

(** A sum of two non-negative floats is at least each of them. *)
Lemma add_nonneg_ge (p q : spec_float) :
  valid_binary prec emax p = true → valid_binary prec emax q = true →
  p ≠ S754_nan → q ≠ S754_nan → 0 ≤ valZ p → 0 ≤ valZ q →
  let s := SFadd prec emax p q in
  valid_binary prec emax s = true ∧ s ≠ S754_nan
  ∧ valZ p ≤ valZ s ∧ valZ q ≤ valZ s.
Proof.
  intros Vp Vq Np Nq Hp Hq s. split; [now apply SFadd_valid|].
  pose proof top_pos as Htop.
  destruct (finite64 p) eqn:Fp, (finite64 q) eqn:Fq.
  - destruct (SFadd_val p q Vp Vq Fp Fq) as (_ & Hn & Hval). fold s in Hn, Hval.
    split; [exact Hn|]. rewrite Hval.
    rewrite <- (rndZ_id p Vp Fp) at 1. rewrite <- (rndZ_id q Vq Fq) at 2.
    split; apply rndZ_mono; lia.
  - destruct (infinite_cases q Nq Fq) as [sq ->].
    destruct sq; [cbn [valZ cond_Zopp] in Hq; lia|]. subst s.
    rewrite SFadd_infinity by exact Fp. split; [discriminate|].
    pose proof (valZ_bounds p Vp). cbn [valZ cond_Zopp]. lia.
  - destruct (infinite_cases p Np Fp) as [sp ->].
    destruct sp; [cbn [valZ cond_Zopp] in Hp; lia|]. subst s.
    pose proof (valZ_bounds q Vq) as Hb.
    replace (SFadd prec emax (S754_infinity false) q) with (S754_infinity false)
      by (destruct q as [sq|sq| |sq mq eq]; try discriminate; reflexivity).
    split; [discriminate|]. cbn [valZ cond_Zopp]. lia.
  - destruct (infinite_cases p Np Fp) as [sp ->].
    destruct (infinite_cases q Nq Fq) as [sq ->].
    destruct sp; [cbn [valZ cond_Zopp] in Hp; lia|].
    destruct sq; [cbn [valZ cond_Zopp] in Hq; lia|].
    subst s. cbn [SFadd valZ cond_Zopp]. split; [discriminate|]. cbn. lia.
Qed.

Lemma valZ_four : valZ (of_int 4) = 4 * unitZ.
Proof. vm_compute. reflexivity. Qed.

(** A point with a coordinate above 2.0 in magnitude passes the escape
    test, provided no coordinate is NaN. *)
Lemma escaped_large (z : complex spec_float) :
  valid_binary prec emax (real z) = true →
  valid_binary prec emax (imag z) = true →
  real z ≠ S754_nan → imag z ≠ S754_nan →
  2 * unitZ < Z.abs (valZ (real z)) ∨ 2 * unitZ < Z.abs (valZ (imag z)) →
  escaped z = true.
Proof.
  intros Va Vb Na Nb Hl. destruct z as [a b]. cbn [real imag] in *.
  unfold escaped. cbn [real imag fgtb fadd fmul binary64].
  destruct (sq_nonneg a Va Na) as (Vp & Np & Hp).
  destruct (sq_nonneg b Vb Nb) as (Vq & Nq & Hq).
  destruct (add_nonneg_ge _ _ Vp Vq Np Nq Hp Hq) as (Vs & Ns & Hsp & Hsq).
  assert (Hbig : 4 * unitZ < valZ (SFadd prec emax (SFmul prec emax a a)
                                         (SFmul prec emax b b))).
  { destruct Hl as [Hl|Hl].
    - destruct (sq_large a Va Na Hl) as (_ & _ & Hgt). lia.
    - destruct (sq_large b Vb Nb Hl) as (_ & _ & Hgt). lia. }
  unfold SFltb. rewrite SFcompare_val; try assumption.
  - rewrite valZ_four. now apply Z.compare_lt_iff in Hbig as ->.
  - apply of_int_valid.
  - discriminate.
Qed.

Lemma not_escaped_small (z : complex spec_float) :
  valid_binary prec emax (real z) = true →
  valid_binary prec emax (imag z) = true →
  real z ≠ S754_nan → imag z ≠ S754_nan →
  escaped z = false →
  Z.abs (valZ (real z)) ≤ 2 * unitZ ∧ Z.abs (valZ (imag z)) ≤ 2 * unitZ.
Proof.
  intros Va Vb Na Nb He.
  destruct (Z_lt_le_dec (2 * unitZ) (Z.abs (valZ (real z)))) as [Hl|Ha].
  { rewrite escaped_large in He by auto. discriminate. }
  destruct (Z_lt_le_dec (2 * unitZ) (Z.abs (valZ (imag z)))) as [Hl|Hb].
  { rewrite escaped_large in He by auto. discriminate. }
  now split.
Qed.

Lemma small_finite (x : spec_float) :
  x ≠ S754_nan → Z.abs (valZ x) ≤ 8 * unitZ → finite64 x = true.
Proof.
  intros Hn Hx. apply finite_of_absval; [exact Hn|].
  pose proof eight_units_lt_top. lia.
Qed.

(** Products of floats within [-2, 2] are within [-4, 4]. *)
Lemma mul_small (x y : spec_float) :
  valid_binary prec emax x = true → valid_binary prec emax y = true →
  x ≠ S754_nan → y ≠ S754_nan →
  Z.abs (valZ x) ≤ 2 * unitZ → Z.abs (valZ y) ≤ 2 * unitZ →
  let r := SFmul prec emax x y in
  valid_binary prec emax r = true ∧ finite64 r = true
  ∧ Z.abs (valZ r) ≤ 4 * unitZ.
Proof.
  intros Vx Vy Nx Ny Hx Hy r. pose proof unitZ_pos as HU.
  assert (Fx : finite64 x = true) by (apply small_finite; [exact Nx|lia]).
  assert (Fy : finite64 y = true) by (apply small_finite; [exact Ny|lia]).
  destruct (SFmul_val x y Vx Vy Fx Fy) as (Vr & Nr & Hr). fold r in Vr, Nr, Hr.
  fold unitZ in Hr.
  assert (Hb : Z.abs (valZ r) ≤ 4 * unitZ).
  { rewrite Hr. clear Hr.
    assert (Hq : - (4 * unitZ) ≤ valZ x * valZ y / unitZ ≤ 4 * unitZ).
    { split.
      - apply Z.div_le_lower_bound; [exact HU|]. nia.
      - apply Z.div_le_upper_bound; [exact HU|]. nia. }
    destruct rndZ_four as [Hp Hm]. destruct Hq as [Hq1 Hq2].
    apply rndZ_mono in Hq1. apply rndZ_mono in Hq2. lia. }
  split; [exact Vr|]. split; [|exact Hb].
  apply small_finite; [exact Nr|lia].
Qed.

(** Sums and differences of floats within [-4, 4] are within [-8, 8]. *)
Lemma add_small (x y : spec_float) :
  valid_binary prec emax x = true → valid_binary prec emax y = true →
  finite64 x = true → finite64 y = true →
  Z.abs (valZ x) ≤ 4 * unitZ → Z.abs (valZ y) ≤ 4 * unitZ →
  let r := SFadd prec emax x y in
  valid_binary prec emax r = true ∧ finite64 r = true
  ∧ Z.abs (valZ r) ≤ 8 * unitZ.
Proof.
  intros Vx Vy Fx Fy Hx Hy r.
  destruct (SFadd_val x y Vx Vy Fx Fy) as (Vr & Nr & Hr). fold r in Vr, Nr, Hr.
  assert (Hb : Z.abs (valZ r) ≤ 8 * unitZ).
  { rewrite Hr. clear Hr.
    assert (Hq1 : - (8 * unitZ) ≤ valZ x + valZ y) by lia.
    assert (Hq2 : valZ x + valZ y ≤ 8 * unitZ) by lia.
    destruct rndZ_eight as [Hp Hm].
    apply rndZ_mono in Hq1. apply rndZ_mono in Hq2. lia. }
  split; [exact Vr|]. split; [|exact Hb]. now apply small_finite.
Qed.

Lemma sub_small (x y : spec_float) :
  valid_binary prec emax x = true → valid_binary prec emax y = true →
  finite64 x = true → finite64 y = true →
  Z.abs (valZ x) ≤ 4 * unitZ → Z.abs (valZ y) ≤ 4 * unitZ →
  let r := SFsub prec emax x y in
  valid_binary prec emax r = true ∧ finite64 r = true
  ∧ Z.abs (valZ r) ≤ 8 * unitZ.
Proof.
  intros Vx Vy Fx Fy Hx Hy r.
  destruct (SFsub_val x y Vx Vy Fx Fy) as (Vr & Nr & Hr). fold r in Vr, Nr, Hr.
  assert (Hb : Z.abs (valZ r) ≤ 8 * unitZ).
  { rewrite Hr. clear Hr.
    assert (Hq1 : - (8 * unitZ) ≤ valZ x - valZ y) by lia.
    assert (Hq2 : valZ x - valZ y ≤ 8 * unitZ) by lia.
    destruct rndZ_eight as [Hp Hm].
    apply rndZ_mono in Hq1. apply rndZ_mono in Hq2. lia. }
  split; [exact Vr|]. split; [|exact Hb]. now apply small_finite.
Qed.

(** Adding a float within [-8, 8] to any finite float does not overflow. *)
Lemma add_to_finite (d c : spec_float) :
  valid_binary prec emax d = true → valid_binary prec emax c = true →
  finite64 d = true → finite64 c = true →
  Z.abs (valZ d) ≤ 8 * unitZ →
  let r := SFadd prec emax d c in
  valid_binary prec emax r = true ∧ finite64 r = true.
Proof.
  intros Vd Vc Fd Fc Hd r.
  destruct (SFadd_val d c Vd Vc Fd Fc) as (Vr & Nr & Hr). fold r in Vr, Nr, Hr.
  split; [exact Vr|]. apply finite_of_absval; [exact Nr|]. rewrite Hr. clear Hr.
  pose proof (valid_finite_max c Vc Fc) as Hc.
  destruct rndZ_near_max as [Hp Hm].
  assert (Hq1 : - (maxZ + 8 * unitZ) ≤ valZ d + valZ c) by lia.
  assert (Hq2 : valZ d + valZ c ≤ maxZ + 8 * unitZ) by lia.
  apply rndZ_mono in Hq1. apply rndZ_mono in Hq2.
  pose proof maxZ_lt_top. lia.
Qed.

(** One pass of the loop body from a point within the square
    [-2, 2] x [-2, 2] gives finite coordinates, for any finite [c]. *)
Lemma step_finite (c z : complex spec_float) :
  finite_point c → finite_point z →
  Z.abs (valZ (real z)) ≤ 2 * unitZ → Z.abs (valZ (imag z)) ≤ 2 * unitZ →
  finite_point (step c z).
Proof.
  intros (Vcr & Fcr & Vci & Fci) (Va & Fa & Vb & Fb) Ha Hb.
  destruct c as [cr ci], z as [a b]. cbn [real imag] in *.
  pose proof (finite_not_nan a Fa) as Na. pose proof (finite_not_nan b Fb) as Nb.
  destruct (mul_small a a Va Va Na Na Ha Ha) as (Vaa & Faa & Haa).
  destruct (mul_small b b Vb Vb Nb Nb Hb Hb) as (Vbb & Fbb & Hbb).
  destruct (mul_small a b Va Vb Na Nb Ha Hb) as (Vab & Fab & Hab).
  destruct (mul_small b a Vb Va Nb Na Hb Ha) as (Vba & Fba & Hba).
  destruct (sub_small _ _ Vaa Vbb Faa Fbb Haa Hbb) as (Vre & Fre & Hre).
  destruct (add_small _ _ Vab Vba Fab Fba Hab Hba) as (Vim & Fim & Him).
  destruct (add_to_finite _ cr Vre Vcr Fre Fcr Hre) as (V1 & F1).
  destruct (add_to_finite _ ci Vim Vci Fim Fci Him) as (V2 & F2).
  unfold finite_point, step, c_add, c_mul.
  cbn [real imag fadd fsub fmul binary64]. auto.
Qed.

Lemma finite_point_zero : finite_point c_zero.
Proof. repeat split. Qed.

(** As long as no earlier iterate passed the escape test, the iterates
    of a finite point are finite. *)
Lemma orbit_finite (c : complex spec_float) (k : nat) :
  finite_point c →
  (∀ i : nat, (S i < k)%nat → escaped (orbit c (S i)) = false) →
  finite_point (orbit c k).
Proof.
  intros Hc. induction k as [|k IH]; intros Hesc; [apply finite_point_zero|].
  assert (Hk : finite_point (orbit c k)) by (apply IH; intros i Hi; apply Hesc; lia).
  assert (He : escaped (orbit c k) = false).
  { destruct k as [|k']; [reflexivity|]. apply Hesc. lia. }
  destruct Hk as (Va & Fa & Vb & Fb).
  destruct (not_escaped_small (orbit c k) Va Vb
              (finite_not_nan _ Fa) (finite_not_nan _ Fb) He) as [Ha Hb].
  cbn [orbit]. apply step_finite; [exact Hc|repeat split; assumption|exact Ha|exact Hb].
Qed.

Section BeforeTheCount.
Context {F : Type} `{PyFloat F}.

(** No iterate with an index below the returned count passed the escape
    test. *)
Lemma not_escaped_before_count (c : complex F) (max_iter : Z) (i : nat) :
  Z.of_nat i < mandelbrot_point c max_iter →
  escaped (orbit c (S i)) = false.
Proof.
  intros Hi.
  destruct (Z_lt_le_dec (mandelbrot_point c max_iter) max_iter) as [Hlt|Hge].
  - destruct (mandelbrot_point_escaped c max_iter Hlt) as (i0 & Hn & _ & Hb).
    apply Hb. lia.
  - assert (Hm : 0 ≤ max_iter).
    { destruct (Z_lt_le_dec max_iter 0) as [Hneg|]; [|assumption].
      rewrite mandelbrot_point_no_budget in Hi by lia. lia. }
    pose proof (mandelbrot_point_range c max_iter Hm) as Hr.
    apply (mandelbrot_point_budget c max_iter Hm); lia.
Qed.

End BeforeTheCount.

Lemma SFltb_val (x y : spec_float) :
  valid_binary prec emax x = true → valid_binary prec emax y = true →
  x ≠ S754_nan → y ≠ S754_nan →
  SFltb x y = true ↔ valZ x < valZ y.
Proof.
  intros Vx Vy Nx Ny. unfold SFltb. rewrite SFcompare_val by assumption.
  destruct (Z.compare_spec (valZ x) (valZ y)); split; intros; try lia;
    try discriminate; reflexivity.
Qed.

Lemma valZ_two :
  valZ (of_int 2) = 2 * unitZ ∧ valZ (of_int (-2)) = - (2 * unitZ).
Proof. split; vm_compute; reflexivity. Qed.

(** The quantity of the escape test is not NaN at a finite point. *)
Lemma magnitude_not_nan (z : complex spec_float) :
  finite_point z →
  fadd (fmul (real z) (real z)) (fmul (imag z) (imag z)) ≠ S754_nan.
Proof.
  intros (Va & Fa & Vb & Fb).
  destruct (sq_nonneg _ Va (finite_not_nan _ Fa)) as (Vp & Np & Hp).
  destruct (sq_nonneg _ Vb (finite_not_nan _ Fb)) as (Vq & Nq & Hq).
  apply (add_nonneg_ge _ _ Vp Vq Np Nq Hp Hq).
Qed.

(** [x + 1j * y] has a NaN real part when [y] is an infinity or NaN:
    the product [1j * y] multiplies [y] by the zero real part of [1j]. *)
Lemma sample_point_nonfinite (x y : spec_float) :
  finite64 y = false → real (sample_point x y) = S754_nan.
Proof.
  intros Hy. unfold sample_point, c_add, c_mul, c_j, complex_of_float.
  cbn [real imag fadd fsub fmul of_int binary64].
  destruct y as [s|s| |s m e]; try discriminate;
    (replace (SFmul prec emax (b64 0 0) _) with S754_nan
       by (try destruct s; reflexivity));
    cbn [SFsub]; apply SFadd_nan_r.
Qed.

(** ** The relative error of one rounding *)

Lemma gridZ_pos : 0 < gridZ.
Proof. unfold gridZ. apply pow2_pos. lia. Qed.

Lemma normZ_grid : normZ = 2 ^ 52 * gridZ.
Proof.
  unfold normZ, gridZ. change 1126 with (52 + 1074). apply Z.pow_add_r; lia.
Qed.

Lemma unitZ_grid : unitZ = 2 ^ 1074 * gridZ.
Proof.
  unfold unitZ, gridZ. change 2148 with (1074 + 1074). apply Z.pow_add_r; lia.
Qed.

Lemma hugeZ_lt_top : hugeZ < top.
Proof. unfold hugeZ, top, emax. apply pow2_lt. lia. Qed.

Lemma hugeZ_lim : hugeZ = 2 ^ 23 * limZ.
Proof.
  unfold hugeZ, limZ. change 3171 with (23 + 3148). apply Z.pow_add_r; lia.
Qed.

Lemma limZ_unit : limZ = 2 ^ 1000 * unitZ.
Proof.
  unfold limZ, unitZ. change 3148 with (1000 + 2148). apply Z.pow_add_r; lia.
Qed.

Lemma limZ_pos : 0 < limZ.
Proof. unfold limZ. apply pow2_pos. lia. Qed.

Lemma on_grid_0 : on_grid 0.
Proof. exists 0. reflexivity. Qed.

Lemma on_grid_opp (z : Z) : on_grid z → on_grid (- z).
Proof. intros [k ->]. exists (- k). now rewrite Z.mul_opp_l. Qed.

Lemma on_grid_add (a b : Z) : on_grid a → on_grid b → on_grid (a + b).
Proof. intros [k ->] [j ->]. exists (k + j). now rewrite Z.mul_add_distr_r. Qed.

Lemma on_grid_sub (a b : Z) : on_grid a → on_grid b → on_grid (a - b).
Proof. intros [k ->] [j ->]. exists (k - j). now rewrite Z.mul_sub_distr_r. Qed.

Lemma on_grid_mul (n a : Z) : on_grid a → on_grid (n * a).
Proof. intros [k ->]. exists (n * k). now rewrite Z.mul_assoc. Qed.

Lemma on_grid_cond_Zopp (s : bool) (a : Z) : on_grid a → on_grid (cond_Zopp s a).
Proof. destruct s; cbn [cond_Zopp]; [apply on_grid_opp|auto]. Qed.

(** The value of a float is a multiple of [2**-1074]. *)
Lemma valZ_on_grid (x : spec_float) :
  valid_binary prec emax x = true → on_grid (valZ x).
Proof.
  intros Hv. destruct x as [s|s| |s m e]; cbn [valZ];
    try apply on_grid_0; apply on_grid_cond_Zopp.
  - exists (2 ^ 2098). unfold top, emax, gridZ.
    change (1024 + 2148) with (2098 + 1074). apply Z.pow_add_r; lia.
  - destruct (valid_finite_bounds s m e Hv) as (He & _).
    unfold emin, emax, prec in He.
    exists (Z.pos m * 2 ^ (e + 1074)). unfold gridZ.
    rewrite <- Z.mul_assoc, <- Z.pow_add_r by lia.
    do 2 f_equal. lia.
Qed.

Lemma RZ_rel (v : Z) :
  0 ≤ v → on_grid v ∨ normZ ≤ v → 2 ^ 52 * Z.abs (RZ v - v) ≤ v.
Proof.
  intros Hv Hc.
  destruct (Z.eq_dec v 0) as [->|Hne]; [rewrite RZ_0; reflexivity|].
  assert (Hpos : 0 < v) by lia.
  destruct (Zdigits2_bounds v Hpos) as [Hd [Hlo Hhi]].
  pose proof (Kof_nonneg v) as HK.
  destruct (Z_le_gt_dec (Zdigits2 v - prec) 1074) as [Hlow|Hhigh].
  - assert (EK : Kof v = 1074) by (unfold Kof; lia).
    destruct Hc as [[k Hk]|Hn].
    + unfold RZ. rewrite EK. rewrite Hk at 1 2. unfold gridZ at 1.
      rewrite rne_exact by lia. fold gridZ. rewrite <- Hk.
      rewrite Z.sub_diag. cbn. lia.
    + (* a normal value at the lowest normal exponent *)
      assert (Ed : Zdigits2 v = 1127).
      { unfold prec in Hlow.
        destruct (Z_lt_le_dec (Zdigits2 v) 1127) as [Hlt|]; [|lia]. exfalso.
        assert (2 ^ Zdigits2 v ≤ 2 ^ 1126) by (apply pow2_le; lia).
        fold normZ in *. lia. }
      unfold RZ. rewrite EK. fold gridZ.
      pose proof (rne_bounds v 1074) as Hr. fold gridZ in Hr.
      pose proof gridZ_pos as HG. rewrite normZ_grid in Hn.
      pose proof (Z.div_mod v gridZ ltac:(lia)) as Hdm.
      pose proof (Z.mod_pos_bound v gridZ HG) as Hmod.
      clear Hlo Hhi Ed EK.
      remember (rne v 1074) as r eqn:Er. clear Er.
      remember (v / gridZ) as q eqn:Eq. clear Eq.
      remember (v mod gridZ) as m eqn:Em. clear Em.
      nia.
  - assert (EK : Kof v = Zdigits2 v - prec) by (unfold Kof; lia).
    unfold RZ. rewrite EK. unfold prec in *.
    set (K := Zdigits2 v - 53) in *.
    assert (HK0 : 0 ≤ K) by lia.
    pose proof (rne_bounds v K) as Hr.
    pose proof (pow2_pos K HK0) as HG.
    pose proof (Z.div_mod v (2 ^ K) ltac:(lia)) as Hdm.
    pose proof (Z.mod_pos_bound v (2 ^ K) HG) as Hmod.
    assert (Hbig : 2 ^ 52 * 2 ^ K ≤ v).
    { rewrite <- Z.pow_add_r by lia.
      replace (52 + K) with (Zdigits2 v - 1) by (unfold K; lia). exact Hlo. }
    clear Hlo Hhi EK Hc.
    remember (2 ^ K) as G eqn:EG. clear EG.
    remember (rne v K) as r eqn:Er. clear Er.
    remember (v / G) as q eqn:Eq. clear Eq.
    remember (v mod G) as m eqn:Em. clear Em.
    nia.
Qed.

Lemma RZ_pow2 (k : Z) : 1126 ≤ k → RZ (2 ^ k) = 2 ^ k.
Proof.
  intros Hk. unfold RZ, Kof. rewrite Zdigits2_pow2 by lia. unfold prec.
  replace (Z.max (k + 1 - 53) 1074) with (k - 52) by lia.
  assert (E : 2 ^ k = 2 ^ 52 * 2 ^ (k - 52)).
  { rewrite <- Z.pow_add_r by lia. f_equal. lia. }
  rewrite E at 1. rewrite rne_exact by lia. now rewrite <- E.
Qed.

Lemma RZ_below_huge (v : Z) : 0 ≤ v ≤ hugeZ → 0 ≤ RZ v ≤ hugeZ.
Proof.
  intros Hv. split; [apply RZ_nonneg; lia|].
  unfold hugeZ in *. rewrite <- (RZ_pow2 3171) by lia.
  apply RZ_mono. exact Hv.
Qed.

Lemma rndZ_abs (z : Z) : Z.abs (rndZ z) = rndZ (Z.abs z).
Proof.
  pose proof top_pos as Ht. unfold rndZ.
  destruct (Z.leb_spec 0 z) as [Hz|Hz].
  - pose proof (RZ_nonneg z Hz).
    rewrite (Z.abs_eq z) by lia. destruct (Z.leb_spec 0 z); [|lia]. lia.
  - pose proof (RZ_nonneg (- z) ltac:(lia)).
    rewrite (Z.abs_neq z) by lia. destruct (Z.leb_spec 0 (- z)); [|lia]. lia.
Qed.

(** One rounding of a value on the grid or in the normal range, and not
    above [2.0**1023] in magnitude, moves it by at most [2**-52] of
    itself and does not overflow. *)
Lemma rndZ_rel (z : Z) :
  Z.abs z ≤ hugeZ → on_grid z ∨ normZ ≤ Z.abs z →
  2 ^ 52 * Z.abs (rndZ z - z) ≤ Z.abs z ∧ Z.abs (rndZ z) ≤ hugeZ.
Proof.
  intros Hb Hc. pose proof hugeZ_lt_top as Ht. unfold rndZ.
  destruct (Z.leb_spec 0 z) as [Hz|Hz].
  - rewrite Z.abs_eq in Hb, Hc by lia.
    pose proof (RZ_below_huge z ltac:(lia)) as Hr.
    pose proof (RZ_rel z Hz Hc) as Hrel.
    rewrite Z.min_l by lia. rewrite (Z.abs_eq z) by lia.
    split; [exact Hrel|]. rewrite Z.abs_eq; lia.
  - rewrite (Z.abs_neq z) in Hb, Hc by lia.
    assert (Hc' : on_grid (- z) ∨ normZ ≤ - z).
    { destruct Hc as [Hg|Hn]; [left; now apply on_grid_opp|now right]. }
    pose proof (RZ_below_huge (- z) ltac:(lia)) as Hr.
    pose proof (RZ_rel (- z) ltac:(lia) Hc') as Hrel.
    rewrite Z.min_l by lia. rewrite (Z.abs_neq z) by lia.
    split.
    + replace (- RZ (- z) - z) with (- (RZ (- z) - - z)) by lia.
      now rewrite Z.abs_opp.
    + rewrite Z.abs_opp, Z.abs_eq; lia.
Qed.

(** ** [abs] and the conversion of small ints *)

Lemma SFabs_val (x : spec_float) :
  valid_binary prec emax x = true →
  valid_binary prec emax (SFabs x) = true
  ∧ valZ (SFabs x) = Z.abs (valZ x)
  ∧ finite64 (SFabs x) = finite64 x
  ∧ (x ≠ S754_nan → SFabs x ≠ S754_nan).
Proof.
  intros Hv. pose proof top_pos as Ht.
  destruct x as [s|s| |s m e]; cbn [SFabs valZ finite64].
  - repeat split; discriminate.
  - repeat split; [rewrite abs_cond_Zopp by lia; reflexivity|discriminate].
  - repeat split. intros E. congruence.
  - pose proof (valid_finite_lt_top s m e Hv) as Hp.
    split; [exact Hv|]. split; [rewrite abs_cond_Zopp by lia; reflexivity|].
    split; [reflexivity|discriminate].
Qed.

(** Ints below [2**53] convert exactly. *)
Lemma of_int_exact (n : Z) :
  0 ≤ n < 2 ^ 53 →
  valid_binary prec emax (b64 n 0) = true ∧ finite64 (b64 n 0) = true
  ∧ valZ (b64 n 0) = n * unitZ.
Proof.
  intros Hn. destruct (of_int_val n) as (Vn & Nn & En). fold unitZ in En.
  assert (Ev : rndZ (n * unitZ) = n * unitZ).
  { destruct (Z.eq_dec n 0) as [->|Hne]; [reflexivity|].
    assert (Hpos : 0 < n) by lia.
    pose proof unitZ_pos as HU.
    destruct (Zdigits2_bounds n Hpos) as [Hd [Hlo Hhi]].
    assert (Hd53 : Zdigits2 n ≤ 53).
    { destruct (Z_le_gt_dec (Zdigits2 n) 53) as [|Hgt]; [assumption|]. exfalso.
      assert (2 ^ 53 ≤ 2 ^ (Zdigits2 n - 1)) by (apply pow2_le; lia). lia. }
    assert (ERZ : RZ (n * unitZ) = n * unitZ).
    { unfold RZ, Kof, unitZ. rewrite Zdigits2_scale by lia. unfold prec.
      replace (Z.max (Zdigits2 n + 2148 - 53) 1074) with (Zdigits2 n + 2095) by lia.
      assert (E : n * 2 ^ 2148
                  = n * 2 ^ (53 - Zdigits2 n) * 2 ^ (Zdigits2 n + 2095)).
      { rewrite <- Z.mul_assoc, <- Z.pow_add_r by lia. do 2 f_equal. lia. }
      rewrite E at 1. rewrite rne_exact by lia. now rewrite <- E. }
    assert (Hlt : n * unitZ < top).
    { unfold unitZ, top, emax. apply (mul_pow2_lt _ 53); lia. }
    unfold rndZ. destruct (Z.leb_spec 0 (n * unitZ)) as [_|Hneg]; [|nia].
    rewrite ERZ. lia. }
  rewrite Ev in En. split; [exact Vn|]. split; [|exact En].
  apply finite_of_val; [exact Nn|]. rewrite En.
  pose proof unitZ_pos. split; [nia|].
  unfold unitZ, top, emax. apply (mul_pow2_lt _ 53); lia.
Qed.

(** ** The error of a quotient *)

Lemma div_core_spec (sx sy : bool) (mx my : positive) (ex ey : Z) :
  valid_binary prec emax (S754_finite sx mx ex) = true →
  valid_binary prec emax (S754_finite sy my ey) = true →
  ∃ q e' l, SFdiv_core_binary prec emax (Z.pos mx) ex (Z.pos my) ey = (q, e', l)
    ∧ 0 ≤ q ∧ 0 ≤ fexp prec emax (Zdigits2 q + e') - e'
    ∧ e' ≤ ex - ey ∧ -2148 ≤ e'
    ∧ q = Z.pos mx * 2 ^ (ex - ey - e') / Z.pos my.
Proof.
  intros Hx Hy.
  destruct (div_core_no_left_shift sx sy mx my ex ey Hx Hy)
    as (q0 & e0 & l0 & Hcore & Hq0 & Hk0).
  destruct (valid_finite_bounds _ _ _ Hx) as (Hex & _ & _ & _).
  destruct (valid_finite_bounds _ _ _ Hy) as (Hey & _ & _ & _).
  revert Hcore. unfold SFdiv_core_binary. cbn [Zdigits2].
  set (d1 := Z.pos (digits2_pos mx)). set (d2 := Z.pos (digits2_pos my)).
  set (e' := Z.min (fexp prec emax (d1 + ex - (d2 + ey))) (ex - ey)).
  set (s := ex - ey - e').
  assert (Hs : 0 ≤ s) by (unfold s, e'; lia).
  set (m' := match s with Z.pos _ => Z.shiftl (Z.pos mx) s | 0 => Z.pos mx | Z.neg _ => 0 end).
  assert (Hm' : m' = Z.pos mx * 2 ^ s).
  { unfold m'. destruct s as [|p|p] eqn:Es; try lia.
    rewrite Z.shiftl_mul_pow2 by lia. reflexivity. }
  destruct (Z.div_eucl m' (Z.pos my)) as [q r] eqn:Ediv.
  assert (Hq : q = m' / Z.pos my) by (unfold Z.div; now rewrite Ediv).
  intros [= <- <- <-].
  exists q, e', (new_location (Z.pos my) r).
  split; [reflexivity|]. split; [exact Hq0|]. split; [exact Hk0|].
  split; [unfold e'; lia|]. split.
  - unfold e', fexp, emin, emax, prec in *. lia.
  - rewrite Hq, Hm'. reflexivity.
Qed.

(** A finite, normal quotient by a positive float is within [2**-51] of
    the exact quotient, relatively. *)
Lemma SFdiv_close (x y : spec_float) :
  valid_binary prec emax x = true → valid_binary prec emax y = true →
  finite64 x = true → finite64 y = true → 0 < valZ y →
  let r := SFdiv prec emax x y in
  finite64 r = true → normZ ≤ Z.abs (valZ r) →
  2 ^ 51 * Z.abs (valZ r * valZ y - valZ x * unitZ) ≤ Z.abs (valZ x) * unitZ.
Proof.
  intros Hx Hy Fx Fy Py r Fr Hnorm.
  assert (HN : 0 < normZ) by (unfold normZ; apply pow2_pos; lia).
  destruct y as [sy|sy| |sy my ey]; try discriminate.
  pose proof (finite_nonneg_sign _ _ _ Hy (Z.lt_le_incl _ _ Py)) as ->.
  destruct x as [sx|sx| |sx mx ex]; try discriminate.
  destruct (div_core_spec sx false mx my ex ey Hx Hy)
    as (q & e' & l & Hcore & Hq0 & Hk & He1 & He2 & Hq).
  subst r. cbn [SFdiv] in *. rewrite Hcore in *.
  destruct (bra_valid (xorb sx false) q e' l Hq0 Hk)
    as (m1 & Hm1 & _ & Vr & Sr & Er).
  replace (xorb sx false) with sx in * by (destruct sx; reflexivity).
  set (r := binary_round_aux prec emax sx q e' l) in *.
  set (E := fexp prec emax (Zdigits2 q + e')) in *.
  set (k := E - e') in *.
  destruct (valid_finite_bounds _ _ _ Hx) as (Hex & _ & _ & _).
  destruct (valid_finite_bounds _ _ _ Hy) as (Hey & _ & _ & _).
  assert (HEmin : emin ≤ E) by (unfold E, fexp; lia).
  unfold emin, emax, prec in Hex, Hey, HEmin.
  pose proof (pow2_pos k Hk) as HG.
  assert (Ht0 : 0 ≤ q / 2 ^ k) by (apply Z.div_pos; lia).
  (* the result is finite: no overflow *)
  pose proof top_pos as Htop.
  assert (HR : Z.min (m1 * 2 ^ (E + 2148)) top = m1 * 2 ^ (E + 2148)).
  { pose proof (valid_finite_max r Vr Fr) as Hmax. pose proof maxZ_lt_top as Hmt.
    assert (0 < 2 ^ (E + 2148)) by (apply pow2_pos; lia).
    assert (0 ≤ m1 * 2 ^ (E + 2148)) by nia.
    rewrite Er in Hmax. rewrite abs_cond_Zopp in Hmax by lia. lia. }
  rewrite HR in Er.
  (* a lower bound on the truncated mantissa *)
  assert (Ht : 2 ^ 51 ≤ q / 2 ^ k).
  { destruct (Z_le_gt_dec E (-1074)) as [Hlow|Hhigh].
    - assert (EE : E = -1074) by lia.
      rewrite Er in Hnorm.
      assert (0 < 2 ^ (E + 2148)) by (apply pow2_pos; lia).
      rewrite abs_cond_Zopp in Hnorm by nia.
      rewrite EE in Hnorm. change (-1074 + 2148) with 1074 in Hnorm.
      fold gridZ in Hnorm. rewrite normZ_grid in Hnorm.
      pose proof gridZ_pos.
      assert (2 ^ 52 ≤ m1) by nia. lia.
    - assert (Hqpos : 0 < q).
      { destruct (Z.eq_dec q 0) as [->|]; [|lia]. exfalso.
        unfold k, E, fexp, emin, emax, prec in *. cbn [Zdigits2] in *. lia. }
      destruct (Zdigits2_bounds q Hqpos) as [Hd [Hlo Hhi]].
      assert (Ek : k = Zdigits2 q - 53).
      { unfold k, E, fexp, emin, emax, prec in *. lia. }
      assert (2 ^ 52 ≤ q / 2 ^ k); [|lia].
      apply Z.div_le_lower_bound; [lia|].
      rewrite Z.mul_comm, <- Z.pow_add_r by lia.
      replace (52 + k) with (Zdigits2 q - 1) by lia. exact Hlo. }
  (* the quotient and its remainder *)
  set (s := ex - ey - e') in *.
  assert (Hs : 0 ≤ s) by (unfold s; lia).
  pose proof (pow2_pos s Hs) as H2s.
  set (W := Z.pos mx * 2 ^ s) in *.
  assert (HW : 0 < W) by (unfold W; nia).
  pose proof (Z.div_mod W (Z.pos my) ltac:(lia)) as Hdm.
  pose proof (Z.mod_pos_bound W (Z.pos my) ltac:(lia)) as Hmod.
  rewrite <- Hq in Hdm.
  pose proof (Z.div_mod q (2 ^ k) ltac:(lia)) as Hdk.
  pose proof (Z.mod_pos_bound q (2 ^ k) HG) as Hmk.
  (* values *)
  set (A := 2 ^ (e' + 2148)).
  set (B := 2 ^ (ey + 2148)).
  assert (HA : 0 < A) by (apply pow2_pos; lia).
  assert (HB : 0 < B) by (apply pow2_pos; lia).
  assert (ET : 2 ^ (E + 2148) = 2 ^ k * A).
  { unfold A. rewrite <- Z.pow_add_r by lia. f_equal. unfold k. lia. }
  assert (EX : Z.pos mx * 2 ^ (ex + 2148) * unitZ = W * (A * B)).
  { unfold W, A, B, unitZ.
    rewrite <- (Z.pow_add_r 2 (e' + 2148)) by lia.
    rewrite <- !Z.mul_assoc, <- !Z.pow_add_r by lia.
    do 2 f_equal. unfold s. lia. }
  cbn [valZ cond_Zopp]. rewrite Er, ET.
  fold B. rewrite abs_cond_Zopp by (pose proof (pow2_pos (ex + 2148)); nia).
  rewrite EX.
  replace (cond_Zopp sx (m1 * (2 ^ k * A)) * (Z.pos my * B)
           - cond_Zopp sx (Z.pos mx * 2 ^ (ex + 2148)) * unitZ)
    with (cond_Zopp sx ((m1 * 2 ^ k * Z.pos my - W) * (A * B))).
  2:{ destruct sx; cbn [cond_Zopp]; rewrite ?Z.mul_opp_l;
        rewrite EX; ring. }
  assert (HZ : 0 < A * B) by nia.
  assert (Habs : Z.abs (cond_Zopp sx ((m1 * 2 ^ k * Z.pos my - W) * (A * B)))
                 = Z.abs (m1 * 2 ^ k * Z.pos my - W) * (A * B)).
  { destruct sx; cbn [cond_Zopp]; rewrite ?Z.abs_opp, Z.abs_mul;
      rewrite (Z.abs_eq (A * B)) by lia; reflexivity. }
  rewrite Habs, Z.mul_assoc.
  apply Z.mul_le_mono_nonneg_r; [lia|].
  clear Habs EX ET Er HR Hnorm.
  remember (A * B) as Z0 eqn:EZ0. clear EZ0.
  remember (2 ^ k) as G eqn:EG. 
  remember (q / G) as t eqn:Et.
  remember (q mod G) as mk eqn:Emk.
  remember (W mod Z.pos my) as mw eqn:Emw.
  remember (Z.pos my) as Y0 eqn:EY0.
  assert (HY0 : 0 < Y0) by lia.
  clear - Hm1 Ht Hdm Hmod Hdk Hmk HG HW HY0 Hq0.
  assert (H1 : t * G * Y0 ≤ W) by nia.
  assert (H2 : W ≤ (t + 1) * G * Y0) by nia.
  assert (H3 : 2 ^ 51 * (G * Y0) ≤ t * G * Y0) by nia.
  assert (H4 : Z.abs (m1 * G * Y0 - W) ≤ G * Y0).
  { assert (m1 = t ∨ m1 = t + 1) as [-> | ->] by lia; nia. }
  nia.
Qed.

(** ** The accuracy of the sampled axis *)

Lemma axis_step_valid (start stop : spec_float) (num : Z) :
  valid_binary prec emax start = true → valid_binary prec emax stop = true →
  valid_binary prec emax (axis_step start stop num) = true.
Proof.
  intros Hs Ht. unfold axis_step. cbn [fquot fsub of_int binary64].
  apply SFdiv_valid; [|apply of_int_valid]. now apply SFsub_valid.
Qed.

Lemma valZ_min_normal : valZ (b64 1 (-1022)) = normZ.
Proof. vm_compute. reflexivity. Qed.

Lemma normal64_inv (x : spec_float) :
  valid_binary prec emax x = true → normal64 x = true →
  finite64 x = true ∧ normZ ≤ Z.abs (valZ x).
Proof.
  intros Vx Hn. unfold normal64 in Hn. apply andb_true_iff in Hn as [Fx Hle].
  split; [exact Fx|].
  destruct (SFabs_val x Vx) as (Va & Ea & _ & Na).
  apply SFleb_val in Hle.
  - now rewrite valZ_min_normal, Ea in Hle.
  - reflexivity.
  - exact Va.
  - discriminate.
  - apply Na, finite_not_nan, Fx.
Qed.

Lemma tol_val : unitZ ≤ 2 ^ 30 * valZ rel_tol.
Proof. apply Z.leb_le. vm_compute. reflexivity. Qed.

(** [math.isclose(a, b, rel_tol=1e-9)] holds as soon as the values
    differ by at most [2**-30] of [b]. *)
Lemma isclose64_from_bound (a b : spec_float) :
  valid_binary prec emax a = true → valid_binary prec emax b = true →
  finite64 a = true → finite64 b = true →
  2 ^ 30 * Z.abs (valZ a - valZ b) ≤ Z.abs (valZ b) →
  isclose64 rel_tol a b = true.
Proof.
  intros Va Vb Fa Fb Hclose. unfold isclose64.
  apply orb_true_iff. right.
  destruct (SFsub_val a b Va Vb Fa Fb) as (Vd & Nd & Ed).
  destruct (SFabs_val _ Vd) as (Vad & Ead & _ & Nad).
  destruct (SFabs_val b Vb) as (Vab & Eab & Fab & Nab).
  rewrite Fb in Fab.
  destruct (SFmul_val rel_tol (SFabs b) eq_refl Vab eq_refl Fab)
    as (Vm & Nm & Em).
  fold unitZ in Em.
  apply SFleb_val; try assumption; [now apply Nad|].
  rewrite Ead, Ed, rndZ_abs, Em, Eab. apply rndZ_mono.
  pose proof unitZ_pos as HU. pose proof tol_val as Ht.
  apply Z.div_le_lower_bound; [exact HU|].
  pose proof (Z.abs_nonneg (valZ b)) as HB.
  pose proof (Z.abs_nonneg (valZ a - valZ b)) as HD.
  remember (Z.abs (valZ a - valZ b)) as D eqn:ED. clear ED.
  remember (Z.abs (valZ b)) as B eqn:EB. clear EB.
  remember (valZ rel_tol) as T eqn:ET. clear ET Em.
  assert (unitZ * D * 2 ^ 30 ≤ unitZ * B) by nia.
  assert (unitZ * B ≤ 2 ^ 30 * T * B) by nia.
  nia.
Qed.

(** [abs(x) <= 2.0**k * abs(y)], read on the values. *)
Lemma scaled_bound (c x y : spec_float) (k : Z) :
  0 ≤ k ≤ 22 → valZ c = 2 ^ k * unitZ →
  valid_binary prec emax c = true → finite64 c = true →
  valid_binary prec emax x = true → x ≠ S754_nan →
  valid_binary prec emax y = true → finite64 y = true →
  Z.abs (valZ y) ≤ limZ →
  SFleb (SFabs x) (SFmul prec emax c (SFabs y)) = true →
  Z.abs (valZ x) ≤ 2 ^ (k + 1) * Z.abs (valZ y).
Proof.
  intros Hk Ec Vc Fc Vx Nx Vy Fy Hlim Hle.
  destruct (SFabs_val x Vx) as (Vax & Eax & _ & Nax).
  destruct (SFabs_val y Vy) as (Vay & Eay & Fay & Nay). rewrite Fy in Fay.
  destruct (SFmul_val c (SFabs y) Vc Vay Fc Fay) as (Vm & Nm & Em).
  fold unitZ in Em. rewrite Ec, Eay in Em.
  pose proof unitZ_pos as HU.
  replace (2 ^ k * unitZ * Z.abs (valZ y) / unitZ)
    with (2 ^ k * Z.abs (valZ y)) in Em.
  2:{ replace (2 ^ k * unitZ * Z.abs (valZ y))
        with (2 ^ k * Z.abs (valZ y) * unitZ) by ring.
      rewrite Z.div_mul; lia. }
  apply SFleb_val in Hle; try assumption; [|now apply Nax].
  rewrite Eax, Em in Hle.
  assert (H2k : 0 < 2 ^ k ≤ 2 ^ 22)
    by (split; [apply pow2_pos; lia|apply pow2_le; lia]).
  assert (E2 : 2 ^ (k + 1) = 2 * 2 ^ k)
    by (rewrite Z.pow_add_r by lia; change (2 ^ 1) with 2; lia).
  rewrite E2.
  pose proof (Z.abs_nonneg (valZ y)) as HB.
  pose proof hugeZ_lim as Hh. pose proof limZ_pos as HL.
  destruct (rndZ_rel (2 ^ k * Z.abs (valZ y))) as [Hrel _].
  - rewrite Z.abs_eq by nia. nia.
  - left. apply on_grid_mul. rewrite <- Eay. now apply valZ_on_grid.
  - rewrite (Z.abs_eq (2 ^ k * Z.abs (valZ y))) in Hrel by nia.
    remember (rndZ (2 ^ k * Z.abs (valZ y))) as R eqn:ER. clear ER Em.
    remember (2 ^ k * Z.abs (valZ y)) as S0 eqn:ES.
    assert (HS : 0 ≤ S0) by nia.
    assert (R ≤ 2 * S0) by lia.
    lia.
Qed.

Lemma cancel_unit (x y b : Z) :
  2 ^ 51 * Z.abs (x * unitZ - y * unitZ) ≤ b * unitZ →
  2 ^ 51 * Z.abs (x - y) ≤ b.
Proof.
  intros H. pose proof unitZ_pos as HU.
  replace (x * unitZ - y * unitZ) with ((x - y) * unitZ) in H by ring.
  rewrite Z.abs_mul, (Z.abs_eq unitZ) in H by lia.
  pose proof (Z.abs_nonneg (x - y)).
  remember (Z.abs (x - y)) as D eqn:ED. clear ED. nia.
Qed.

(** Four roundings in a row: difference, quotient times divisor,
    product, sum. *)
Lemma last_chain (a b vD P vp vx : Z) :
  2 ^ 52 * Z.abs (vD - (b - a)) ≤ Z.abs (b - a) →
  2 ^ 51 * Z.abs (P - vD) ≤ Z.abs vD →
  2 ^ 52 * Z.abs (vp - P) ≤ Z.abs P →
  2 ^ 52 * Z.abs (vx - (a + vp)) ≤ Z.abs (a + vp) →
  Z.abs a ≤ 2 ^ 17 * Z.abs b →
  2 ^ 30 * Z.abs (vx - b) ≤ Z.abs b.
Proof.
  intros H1 H2 H3 H4 Hab.
  assert (M0 : Z.abs (b - a) ≤ (2 ^ 17 + 1) * Z.abs b) by (clear - Hab; lia).
  assert (M1 : Z.abs vD ≤ Z.abs (b - a) + Z.abs (vD - (b - a))) by (clear; lia).
  assert (M2 : Z.abs P ≤ Z.abs vD + Z.abs (P - vD)) by (clear; lia).
  assert (M3 : Z.abs (a + vp) ≤ Z.abs a + Z.abs P + Z.abs (vp - P)) by (clear; lia).
  assert (M4 : Z.abs (vx - b)
               ≤ Z.abs (vD - (b - a)) + Z.abs (P - vD) + Z.abs (vp - P)
                 + Z.abs (vx - (a + vp))) by (clear; lia).
  pose proof (Z.abs_nonneg b) as N0.
  pose proof (Z.abs_nonneg (vD - (b - a))) as N1.
  pose proof (Z.abs_nonneg (P - vD)) as N2.
  pose proof (Z.abs_nonneg (vp - P)) as N3.
  pose proof (Z.abs_nonneg (vx - (a + vp))) as N4.
  remember (Z.abs b) as B eqn:E0. clear E0.
  remember (Z.abs a) as A eqn:E1. clear E1.
  remember (Z.abs (b - a)) as D0 eqn:E2. clear E2.
  remember (Z.abs vD) as D1 eqn:E3. clear E3.
  remember (Z.abs P) as P0 eqn:E4. clear E4.
  remember (Z.abs (a + vp)) as S0 eqn:E5. clear E5.
  remember (Z.abs (vD - (b - a))) as e1 eqn:E6. clear E6.
  remember (Z.abs (P - vD)) as e2 eqn:E7. clear E7.
  remember (Z.abs (vp - P)) as e3 eqn:E8. clear E8.
  remember (Z.abs (vx - (a + vp))) as e4 eqn:E9. clear E9.
  remember (Z.abs (vx - b)) as R eqn:E10. clear E10.
  lia.
Qed.

(** Magnitudes along the same chain. *)
Lemma last_chain_mag (a b vD P vp : Z) (L : Z) :
  Z.abs b ≤ L → Z.abs a ≤ 2 ^ 17 * Z.abs b →
  (Z.abs (b - a) ≤ 2 ^ 18 * L)
  ∧ (2 ^ 52 * Z.abs (vD - (b - a)) ≤ Z.abs (b - a) → Z.abs vD ≤ 2 ^ 19 * L)
  ∧ (Z.abs vD ≤ 2 ^ 19 * L → 2 ^ 51 * Z.abs (P - vD) ≤ Z.abs vD →
     Z.abs P ≤ 2 ^ 20 * L)
  ∧ (Z.abs P ≤ 2 ^ 20 * L → 2 ^ 52 * Z.abs (vp - P) ≤ Z.abs P →
     Z.abs (a + vp) ≤ 2 ^ 22 * L).
Proof.
  intros HL Hab.
  assert (M0 : Z.abs (b - a) ≤ 2 ^ 18 * L) by (clear - HL Hab; lia).
  split; [exact M0|]. split; [|split].
  - intros H1. clear Hab HL. lia.
  - intros HD H2. clear - HD H2. lia.
  - intros HP H3. clear - HP H3 Hab HL. lia.
Qed.

(** The last element of an axis, against [stop]: when [start] is not
    more than [2**17] times [stop] in magnitude, [stop] is at most
    [2.0**1000] in magnitude and the step is a normal float, the last
    element is within [2**-30] of [stop], relatively. *)
Lemma axis_last_close (start stop : spec_float) (num : Z) :
  1 < num → num - 1 < 2 ^ 53 →
  valid_binary prec emax start = true → valid_binary prec emax stop = true →
  finite64 start = true → finite64 stop = true →
  Z.abs (valZ start) ≤ 2 ^ 17 * Z.abs (valZ stop) →
  Z.abs (valZ stop) ≤ limZ →
  normal64 (axis_step start stop num) = true →
  let xl := axis_elem start stop num (Z.to_nat (num - 1)) in
  valid_binary prec emax xl = true ∧ finite64 xl = true
  ∧ 2 ^ 30 * Z.abs (valZ xl - valZ stop) ≤ Z.abs (valZ stop).
Proof.
  intros Hn Hn53 Vs Vt Fs Ft Hab Hlim Hq xl.
  pose proof unitZ_pos as HU. pose proof limZ_pos as HL.
  pose proof hugeZ_lim as Hh. pose proof hugeZ_lt_top as Htop.
  pose proof (valZ_on_grid start Vs) as Ga.
  pose proof (valZ_on_grid stop Vt) as Gb.
  set (q := axis_step start stop num) in *.
  set (D := SFsub prec emax stop start) in *.
  set (p := SFmul prec emax (b64 (num - 1) 0) q).
  destruct (last_chain_mag (valZ start) (valZ stop) (valZ D)
              ((num - 1) * valZ q) (valZ p) limZ Hlim Hab)
    as (M0 & M1 & M2 & M3).
  (* the difference *)
  destruct (SFsub_val stop start Vt Vs Ft Fs) as (VD & ND & ED). fold D in VD, ND, ED.
  destruct (rndZ_rel (valZ stop - valZ start)) as [RD BD];
    [clear - M0 Hh HL; lia|left; now apply on_grid_sub|].
  rewrite <- ED in RD, BD. specialize (M1 RD).
  assert (FD : finite64 D = true)
    by (apply finite_of_absval; [exact ND|clear - BD Htop; lia]).
  (* the divisor *)
  destruct (of_int_exact (num - 1) ltac:(lia)) as (VN & FN & EN).
  (* the step *)
  pose proof (axis_step_valid start stop num Vs Vt) as Vq. fold q in Vq.
  destruct (normal64_inv _ Vq Hq) as [Fq Nq].
  assert (Hdiv : 2 ^ 51 * Z.abs ((num - 1) * valZ q - valZ D) ≤ Z.abs (valZ D)).
  { assert (Hpos : 0 < valZ (b64 (num - 1) 0))
      by (rewrite EN; apply Z.mul_pos_pos; [clear - Hn; lia|exact HU]).
    pose proof (SFdiv_close D _ VD VN FD FN Hpos Fq Nq) as Hc.
    rewrite EN in Hc. apply cancel_unit.
    replace ((num - 1) * valZ q * unitZ)
      with (valZ q * ((num - 1) * unitZ)) by ring.
    exact Hc. }
  specialize (M2 M1 Hdiv).
  (* the product *)
  destruct (SFmul_val (b64 (num - 1) 0) q VN Vq FN Fq) as (Vp & Np & Ep).
  fold p in Vp, Np, Ep. fold unitZ in Ep. rewrite EN in Ep.
  replace ((num - 1) * unitZ * valZ q / unitZ)
    with ((num - 1) * valZ q) in Ep.
  2:{ replace ((num - 1) * unitZ * valZ q)
        with ((num - 1) * valZ q * unitZ) by ring.
      rewrite Z.div_mul; lia. }
  destruct (rndZ_rel ((num - 1) * valZ q)) as [RP BP];
    [clear - M2 Hh HL; lia|left; apply on_grid_mul; now apply valZ_on_grid|].
  rewrite <- Ep in RP, BP. specialize (M3 M2 RP).
  assert (Fp : finite64 p = true)
    by (apply finite_of_absval; [exact Np|clear - BP Htop; lia]).
  (* the sum *)
  assert (Exl : xl = SFadd prec emax start p).
  { unfold xl, axis_elem. rewrite Z2Nat.id by lia. reflexivity. }
  destruct (SFadd_val start p Vs Vp Fs Fp) as (Vx & Nx & Ex).
  rewrite <- Exl in Vx, Nx, Ex.
  destruct (rndZ_rel (valZ start + valZ p)) as [RX BX];
    [clear - M3 Hh HL; lia|left; apply on_grid_add; [exact Ga|now apply valZ_on_grid]|].
  rewrite <- Ex in RX, BX.
  split; [exact Vx|].
  split; [apply finite_of_absval; [exact Nx|clear - BX Htop; lia]|].
  exact (last_chain _ _ _ _ _ _ RD Hdiv RP RX Hab).
Qed.

(** One element of an axis, as two roundings of [start + i * step]. *)
Lemma axis_elem_val (start stop : spec_float) (num : Z) (i : nat) :
  Z.of_nat i ≤ 2 ^ 18 →
  valid_binary prec emax start = true → valid_binary prec emax stop = true →
  finite64 start = true →
  let q := axis_step start stop num in
  finite64 q = true → Z.abs (valZ q) ≤ limZ →
  Z.abs (valZ start) ≤ 2 ^ 20 * Z.abs (valZ q) →
  let x := axis_elem start stop num i in
  valid_binary prec emax x = true ∧ finite64 x = true
  ∧ ∃ p, 2 ^ 52 * Z.abs (p - Z.of_nat i * valZ q) ≤ Z.abs (Z.of_nat i * valZ q)
      ∧ 2 ^ 52 * Z.abs (valZ x - (valZ start + p)) ≤ Z.abs (valZ start + p)
      ∧ Z.abs (Z.of_nat i * valZ q) ≤ 2 ^ 18 * Z.abs (valZ q).
Proof.
  intros Hi Vs Vt Fs q Fq Hlim Ha x.
  pose proof unitZ_pos as HU. pose proof limZ_pos as HL.
  pose proof hugeZ_lim as Hh. pose proof hugeZ_lt_top as Htop.
  pose proof (axis_step_valid start stop num Vs Vt) as Vq. fold q in Vq.
  destruct (of_int_exact (Z.of_nat i) ltac:(lia)) as (VN & FN & EN).
  assert (HP : Z.abs (Z.of_nat i * valZ q) ≤ 2 ^ 18 * Z.abs (valZ q)).
  { rewrite Z.abs_mul, (Z.abs_eq (Z.of_nat i)) by lia.
    apply Z.mul_le_mono_nonneg_r; [apply Z.abs_nonneg|exact Hi]. }
  destruct (SFmul_val (b64 (Z.of_nat i) 0) q VN Vq FN Fq) as (Vp & Np & Ep).
  fold unitZ in Ep. rewrite EN in Ep.
  replace (Z.of_nat i * unitZ * valZ q / unitZ)
    with (Z.of_nat i * valZ q) in Ep.
  2:{ replace (Z.of_nat i * unitZ * valZ q)
        with (Z.of_nat i * valZ q * unitZ) by ring.
      rewrite Z.div_mul; lia. }
  set (p := SFmul prec emax (b64 (Z.of_nat i) 0) q) in *.
  destruct (rndZ_rel (Z.of_nat i * valZ q)) as [RP BP];
    [clear - HP Hlim Hh HL; lia|left; apply on_grid_mul; now apply valZ_on_grid|].
  rewrite <- Ep in RP, BP.
  assert (Fp : finite64 p = true)
    by (apply finite_of_absval; [exact Np|clear - BP Htop; lia]).
  assert (Ex0 : x = SFadd prec emax start p) by reflexivity.
  destruct (SFadd_val start p Vs Vp Fs Fp) as (Vx & Nx & Ex).
  rewrite <- Ex0 in Vx, Nx, Ex.
  assert (HS : Z.abs (valZ start + valZ p) ≤ 2 ^ 22 * limZ)
    by (clear - RP HP Ha Hlim; lia).
  destruct (rndZ_rel (valZ start + valZ p)) as [RX BX];
    [clear - HS Hh HL; lia
    |left; apply on_grid_add; now apply valZ_on_grid|].
  rewrite <- Ex in RX, BX.
  split; [exact Vx|].
  split; [apply finite_of_absval; [exact Nx|clear - BX Htop; lia]|].
  exists (valZ p). split; [exact RP|]. split; [exact RX|exact HP].
Qed.

(** Five roundings: two products, two sums, one difference. *)
Lemma diff_chain (a q Pi pi pj xi xj d : Z) :
  2 ^ 52 * Z.abs (pi - Pi) ≤ Z.abs Pi →
  2 ^ 52 * Z.abs (pj - (Pi + q)) ≤ Z.abs (Pi + q) →
  2 ^ 52 * Z.abs (xi - (a + pi)) ≤ Z.abs (a + pi) →
  2 ^ 52 * Z.abs (xj - (a + pj)) ≤ Z.abs (a + pj) →
  2 ^ 52 * Z.abs (d - (xj - xi)) ≤ Z.abs (xj - xi) →
  Z.abs a ≤ 2 ^ 20 * Z.abs q →
  Z.abs Pi ≤ 2 ^ 18 * Z.abs q → Z.abs (Pi + q) ≤ 2 ^ 18 * Z.abs q →
  Z.abs (xj - xi) ≤ 2 * Z.abs q ∧ 2 ^ 30 * Z.abs (d - q) ≤ Z.abs q.
Proof.
  intros H1 H2 H3 H4 H5 Ha HPi HPj.
  assert (M1 : Z.abs (a + pi) ≤ Z.abs a + Z.abs Pi + Z.abs (pi - Pi))
    by (clear; lia).
  assert (M2 : Z.abs (a + pj) ≤ Z.abs a + Z.abs (Pi + q) + Z.abs (pj - (Pi + q)))
    by (clear; lia).
  assert (M3 : Z.abs (xj - xi - q)
               ≤ Z.abs (xj - (a + pj)) + Z.abs (xi - (a + pi))
                 + Z.abs (pj - (Pi + q)) + Z.abs (pi - Pi)) by (clear; lia).
  assert (M4 : Z.abs (xj - xi) ≤ Z.abs q + Z.abs (xj - xi - q)) by (clear; lia).
  assert (M5 : Z.abs (d - q) ≤ Z.abs (d - (xj - xi)) + Z.abs (xj - xi - q))
    by (clear; lia).
  pose proof (Z.abs_nonneg q) as N0.
  pose proof (Z.abs_nonneg (pi - Pi)) as N1.
  pose proof (Z.abs_nonneg (pj - (Pi + q))) as N2.
  pose proof (Z.abs_nonneg (xi - (a + pi))) as N3.
  pose proof (Z.abs_nonneg (xj - (a + pj))) as N4.
  pose proof (Z.abs_nonneg (d - (xj - xi))) as N5.
  pose proof (Z.abs_nonneg (xj - xi - q)) as N6.
  remember (Z.abs q) as Q eqn:E0. clear E0.
  remember (Z.abs a) as A eqn:E1. clear E1.
  remember (Z.abs Pi) as P1 eqn:E2. clear E2.
  remember (Z.abs (Pi + q)) as P2 eqn:E3. clear E3.
  remember (Z.abs (a + pi)) as S1 eqn:E4. clear E4.
  remember (Z.abs (a + pj)) as S2 eqn:E5. clear E5.
  remember (Z.abs (pi - Pi)) as e1 eqn:E6. clear E6.
  remember (Z.abs (pj - (Pi + q))) as e2 eqn:E7. clear E7.
  remember (Z.abs (xi - (a + pi))) as e3 eqn:E8. clear E8.
  remember (Z.abs (xj - (a + pj))) as e4 eqn:E9. clear E9.
  remember (Z.abs (d - (xj - xi))) as e5 eqn:E10. clear E10.
  remember (Z.abs (xj - xi - q)) as e6 eqn:E11. clear E11.
  remember (Z.abs (xj - xi)) as D eqn:E12. clear E12.
  remember (Z.abs (d - q)) as R eqn:E13. clear E13.
  split; lia.
Qed.

(** Consecutive elements of an axis differ by the step, within [2**-30]
    of it: for at most [2**18] elements, a normal step of magnitude at
    most [2.0**1000], and [start] at most [2**20] steps from zero. *)
Lemma axis_diff_close (start stop : spec_float) (num : Z) (i : nat) :
  num ≤ 2 ^ 18 → Z.of_nat (S i) < num →
  valid_binary prec emax start = true → valid_binary prec emax stop = true →
  finite64 start = true →
  let q := axis_step start stop num in
  normal64 q = true → Z.abs (valZ q) ≤ limZ →
  Z.abs (valZ start) ≤ 2 ^ 20 * Z.abs (valZ q) →
  let d := SFsub prec emax (axis_elem start stop num (S i))
                           (axis_elem start stop num i) in
  valid_binary prec emax d = true ∧ finite64 d = true
  ∧ 2 ^ 30 * Z.abs (valZ d - valZ q) ≤ Z.abs (valZ q).
Proof.
  intros Hn Hi Vs Vt Fs q Hq Hlim Ha d.
  pose proof limZ_pos as HL.
  pose proof hugeZ_lim as Hh. pose proof hugeZ_lt_top as Htop.
  pose proof (axis_step_valid start stop num Vs Vt) as Vq. fold q in Vq.
  destruct (normal64_inv _ Vq Hq) as [Fq Nq].
  destruct (axis_elem_val start stop num i ltac:(lia) Vs Vt Fs Fq Hlim Ha)
    as (Vi & Fi & pi & RPi & RXi & HPi).
  destruct (axis_elem_val start stop num (S i) ltac:(lia) Vs Vt Fs Fq Hlim Ha)
    as (Vj & Fj & pj & RPj & RXj & HPj).
  fold q in RPi, RXi, HPi, RPj, RXj, HPj.
  replace (Z.of_nat (S i) * valZ q) with (Z.of_nat i * valZ q + valZ q)
    in RPj, HPj by lia.
  destruct (SFsub_val _ _ Vj Vi Fj Fi) as (Vd & Nd & Ed). fold d in Vd, Nd, Ed.
  set (xi := axis_elem start stop num i) in *.
  set (xj := axis_elem start stop num (S i)) in *.
  (* the difference is small before it is rounded *)
  assert (HD : Z.abs (valZ xj - valZ xi) ≤ 2 * Z.abs (valZ q)).
  { apply (diff_chain (valZ start) (valZ q) (Z.of_nat i * valZ q) pi pj
             (valZ xi) (valZ xj) (valZ xj - valZ xi)); try assumption.
    rewrite Z.sub_diag. change (Z.abs 0) with 0. rewrite Z.mul_0_r.
    apply Z.abs_nonneg. }
  destruct (rndZ_rel (valZ xj - valZ xi)) as [RD BD];
    [clear - HD Hlim Hh HL; lia
    |left; apply on_grid_sub; now apply valZ_on_grid|].
  rewrite <- Ed in RD, BD.
  split; [exact Vd|].
  split; [apply finite_of_absval; [exact Nd|clear - BD Htop; lia]|].
  apply (diff_chain (valZ start) (valZ q) (Z.of_nat i * valZ q) pi pj
           (valZ xi) (valZ xj) (valZ d)); assumption.
Qed.

Lemma valZ_lim : valZ (b64 1 1000) = limZ.
Proof. vm_compute. reflexivity. Qed.

Lemma abs_le_lim (x : spec_float) :
  valid_binary prec emax x = true → x ≠ S754_nan →
  SFleb (SFabs x) (b64 1 1000) = true → Z.abs (valZ x) ≤ limZ.
Proof.
  intros Vx Nx Hle. destruct (SFabs_val x Vx) as (Va & Ea & _ & Na).
  apply SFleb_val in Hle; [|exact Va|reflexivity|now apply Na|discriminate].
  now rewrite Ea, valZ_lim in Hle.
Qed.

(** [math.isclose(xs[-1], stop, rel_tol=1e-9)] on an axis without
    cancellation, overflow or underflow. *)
Lemma linspace_last_close (start stop : spec_float) (num : Z)
    (xs : list spec_float) :
  1 < num → num - 1 < 2 ^ 53 →
  valid_binary prec emax start = true → valid_binary prec emax stop = true →
  finite64 start = true → finite64 stop = true →
  SFleb (SFabs start) (fmul (b64 1 16) (SFabs stop)) = true →
  SFleb (SFabs stop) (b64 1 1000) = true →
  normal64 (axis_step start stop num) = true →
  linspace start stop num = Ok xs →
  ∃ xl, last_elem xs = Some xl ∧ isclose64 rel_tol xl stop = true.
Proof.
  intros Hn Hn53 Vs Vt Fs Ft Hab Hlim Hq Hxs.
  pose proof (abs_le_lim stop Vt (finite_not_nan _ Ft) Hlim) as Hl.
  assert (Ha : Z.abs (valZ start) ≤ 2 ^ 17 * Z.abs (valZ stop)).
  { apply (scaled_bound (b64 1 16) start stop 16); try assumption;
      try reflexivity; [lia|now apply finite_not_nan]. }
  destruct (axis_last_close start stop num Hn Hn53 Vs Vt Fs Ft Ha Hl Hq)
    as (Vx & Fx & Hclose).
  exists (axis_elem start stop num (Z.to_nat (num - 1))). split.
  - unfold last_elem. rewrite (linspace_length _ _ _ _ Hxs).
    replace (Z.to_nat num - 1)%nat with (Z.to_nat (num - 1)) by lia.
    apply (linspace_lookup start stop num xs _ Hxs); lia.
  - now apply isclose64_from_bound.
Qed.

(** [math.isclose(xs[i+1] - xs[i], step, rel_tol=1e-9)] on an axis of
    at most [2**18] elements with a normal step of magnitude at most
    [2.0**1000] and [abs(start) <= 2.0**19 * abs(step)]. *)
Lemma linspace_diff_close (start stop : spec_float) (num : Z)
    (xs : list spec_float) :
  1 < num → num ≤ 2 ^ 18 →
  valid_binary prec emax start = true → valid_binary prec emax stop = true →
  finite64 start = true →
  normal64 (axis_step start stop num) = true →
  SFleb (SFabs (axis_step start stop num)) (b64 1 1000) = true →
  SFleb (SFabs start) (fmul (b64 1 19) (SFabs (axis_step start stop num)))
    = true →
  linspace start stop num = Ok xs →
  ∀ (i : nat) a b, xs !! i = Some a → xs !! S i = Some b →
    isclose64 rel_tol (fsub b a) (axis_step start stop num) = true.
Proof.
  intros Hn Hn18 Vs Vt Fs Hq Hlim Hab Hxs i a b Ha Hb.
  assert (Hne : num ≠ 1) by lia.
  apply lookup_lt_Some in Hb as Hi. rewrite (linspace_length _ _ _ _ Hxs) in Hi.
  rewrite (linspace_lookup start stop num xs i Hxs Hne) in Ha by lia.
  rewrite (linspace_lookup start stop num xs (S i) Hxs Hne) in Hb by lia.
  assert (Ea : a = axis_elem start stop num i) by congruence.
  assert (Eb : b = axis_elem start stop num (S i)) by congruence.
  subst a b. clear Ha Hb.
  pose proof (axis_step_valid start stop num Vs Vt) as Vq.
  destruct (normal64_inv _ Vq Hq) as [Fq Nq].
  pose proof (abs_le_lim _ Vq (finite_not_nan _ Fq) Hlim) as Hl.
  assert (Hs : Z.abs (valZ start)
               ≤ 2 ^ 20 * Z.abs (valZ (axis_step start stop num))).
  { apply (scaled_bound (b64 1 19) start _ 19); try assumption;
      try reflexivity; [lia|now apply finite_not_nan]. }
  destruct (axis_diff_close start stop num i Hn18 ltac:(lia) Vs Vt Fs Hq Hl Hs)
    as (Vd & Fd & Hclose).
  now apply isclose64_from_bound.
Qed.

(** * The claims *)

(** C1 (as amended). For width >= 1 and height >= 1 such that
    [float(width - 1)] and [float(height - 1)] do not overflow,
    [mandelbrot_grid] returns a grid of exactly [height] rows of [width]
    cells each, and the cell at row [j], column [i] is [mandelbrot_point]
    at the point the code forms, [xs[i] + 1j * ys[j]], with the given
    [max_iter], where [xs = linspace(xmin, xmax, width)] and
    [ys = linspace(ymin, ymax, height)].  When [ys[j]] is finite this is
    the count at [complex(xs[i], ys[j])]; when [ys[j]] is an infinity or
    NaN the formed point has a NaN real part and the cell holds
    [max_iter].  When one of the two conversions overflows, the call
    raises [OverflowError]. *)
Theorem C1_grid_shape_and_cells
    (xmin xmax ymin ymax : spec_float) (width height max_iter : Z) :
  1 ≤ width → 1 ≤ height →
  (finite64 (of_int (width - 1)) = true →
   finite64 (of_int (height - 1)) = true →
   ∃ xs ys grid,
     linspace xmin xmax width = Ok xs
     ∧ linspace ymin ymax height = Ok ys
     ∧ mandelbrot_grid xmin xmax ymin ymax width height max_iter = Ok grid
     ∧ Z.of_nat (length grid) = height
     ∧ Forall (λ row, Z.of_nat (length row) = width) grid
     ∧ ∀ j i : nat, Z.of_nat j < height → Z.of_nat i < width →
         ∃ x y, xs !! i = Some x ∧ ys !! j = Some y
           ∧ cell grid j i
               = Some (mandelbrot_point (sample_point x y) max_iter)
           ∧ (valid_binary prec emax ymin = true →
              valid_binary prec emax ymax = true →
              finite64 y = true →
              cell grid j i
                = Some (mandelbrot_point (Complex x y) max_iter))
           ∧ (finite64 y = false → cell grid j i = Some max_iter))
  ∧ (finite64 (of_int (width - 1)) = false
     ∨ finite64 (of_int (height - 1)) = false →
     mandelbrot_grid xmin xmax ymin ymax width height max_iter
     = Raise OverflowError).
Proof.
  intros Hw Hh. split; [|apply mandelbrot_grid_overflow_64].
  intros Fw Fh.
  destruct (mandelbrot_grid_spec xmin xmax ymin ymax width height max_iter)
    as (xs & ys & grid & Hxs & Hlx & Hys & Hly & Hg & Hlen & Hrows & Hcells);
    [exact Fw|exact Fh|].
  exists xs, ys, grid.
  split; [exact Hxs|]. split; [exact Hys|]. split; [exact Hg|].
  split; [lia|]. split.
  - apply Forall_lookup. intros j row Hrow. rewrite (Hrows _ _ Hrow). lia.
  - intros j i Hj Hi.
    destruct (lookup_lt_is_Some_2 xs i ltac:(lia)) as [x Hx].
    destruct (lookup_lt_is_Some_2 ys j ltac:(lia)) as [y Hy].
    assert (Hc : cell grid j i
                 = Some (mandelbrot_point (sample_point x y) max_iter)).
    { rewrite Hcells by lia. unfold cell_value. now rewrite Hx, Hy. }
    exists x, y. split; [exact Hx|]. split; [exact Hy|]. split; [exact Hc|].
    split.
    + intros Vmin Vmax Fy. rewrite Hc. f_equal.
      apply mandelbrot_point_same, sample_point_same; [|exact Fy].
      exact (linspace_valid ymin ymax height ys j y Vmin Vmax Hys Hy).
    + intros Fy. rewrite Hc. f_equal. unfold mandelbrot_point.
      rewrite escape_loop_nan; [reflexivity|].
      left. now apply sample_point_nonfinite.
Qed.

Lemma C1_grid_shape_and_cells_witness :
  ∃ xs ys grid,
    linspace default_xmin default_xmax 2 = Ok xs
    ∧ linspace default_ymin default_ymax 1 = Ok ys
    ∧ mandelbrot_grid default_xmin default_xmax default_ymin default_ymax 2 1 5
        = Ok grid
    ∧ Z.of_nat (length grid) = 1
    ∧ Forall (λ row, Z.of_nat (length row) = 2) grid
    ∧ ∀ j i : nat, Z.of_nat j < 1 → Z.of_nat i < 2 →
        ∃ x y, xs !! i = Some x ∧ ys !! j = Some y
          ∧ cell grid j i = Some (mandelbrot_point (sample_point x y) 5)
          ∧ (valid_binary prec emax default_ymin = true →
             valid_binary prec emax default_ymax = true →
             finite64 y = true →
             cell grid j i = Some (mandelbrot_point (Complex x y) 5))
          ∧ (finite64 y = false → cell grid j i = Some 5).
Proof.
  apply (proj1 (C1_grid_shape_and_cells
                  default_xmin default_xmax default_ymin default_ymax 2 1 5
                  ltac:(lia) ltac:(lia))); reflexivity.
Defined.

(** C1 fails as stated.  With [ymin = -2.0**1023], [ymax = 2.0**1023]
    (both finite) and width = height = 2, [ys] is [[nan, inf]] and every
    cell of the grid for budget 5 holds 5, while the count at the point
    [(xs[0], ys[1]) = (-2.0, inf)] is 0: the code forms
    [xs[0] + 1j * ys[1]], whose real part is NaN.  And for a width of
    [2**1024] the call raises [OverflowError] instead of returning a
    grid. *)
Lemma C1_counterexample :
  (finite64 (b64 (-1) 1023) = true ∧ finite64 (b64 1 1023) = true
   ∧ linspace default_xmin default_xmax 2 = Ok [b64 (-2) 0; b64 1 0]
   ∧ linspace (b64 (-1) 1023) (b64 1 1023) 2
       = Ok [S754_nan; S754_infinity false]
   ∧ mandelbrot_grid default_xmin default_xmax (b64 (-1) 1023) (b64 1 1023)
       2 2 5 = Ok [[5; 5]; [5; 5]]
   ∧ mandelbrot_point (Complex (b64 (-2) 0) (S754_infinity false)) 5 = 0
   ∧ real (sample_point (b64 (-2) 0) (S754_infinity false)) = S754_nan)
  ∧ mandelbrot_grid default_xmin default_xmax default_ymin default_ymax
      (2 ^ 1024) 1 5 = Raise OverflowError.
Proof. vm_compute. repeat split; reflexivity. Qed.

(** C2. For every [c] and every [max_iter >= 0], [mandelbrot_point]
    returns a count in [0, max_iter]; hence every cell of a grid returned
    by [mandelbrot_grid] lies in [0, max_iter].  A count equal to
    [max_iter] means that none of the [max_iter] iterates exceeded the
    threshold; a smaller count is the index of the first one that did. *)
Theorem C2_counts_within_budget (max_iter : Z) :
  0 ≤ max_iter →
  (∀ c : complex spec_float,
     0 ≤ mandelbrot_point c max_iter ≤ max_iter
     ∧ (mandelbrot_point c max_iter = max_iter →
        ∀ i : nat, Z.of_nat i < max_iter → escaped (orbit c (S i)) = false)
     ∧ (mandelbrot_point c max_iter < max_iter →
        escaped (orbit c (S (Z.to_nat (mandelbrot_point c max_iter)))) = true))
  ∧ (∀ (xmin xmax ymin ymax : spec_float) width height grid j i v,
       mandelbrot_grid xmin xmax ymin ymax width height max_iter = Ok grid →
       cell grid j i = Some v → 0 ≤ v ≤ max_iter).
Proof.
  intros Hm. split.
  - intros c. split; [apply mandelbrot_point_range, Hm|]. split.
    + apply mandelbrot_point_budget, Hm.
    + intros Hlt. destruct (mandelbrot_point_escaped c max_iter Hlt)
        as (i & -> & Hesc & _). now rewrite Nat2Z.id.
  - intros xmin xmax ymin ymax width height grid j i v Hg Hv.
    destruct (grid_cell_is_point _ _ _ _ _ _ _ _ _ _ _ Hg Hv) as [c ->].
    apply mandelbrot_point_range, Hm.
Qed.

Lemma C2_counts_within_budget_witness :
  0 ≤ mandelbrot_point (Complex (b64 1 0) (b64 0 0)) 80 ≤ 80.
Proof.
  apply (proj1 (C2_counts_within_budget 80 ltac:(lia))).
Defined.

(** C3 (as amended). For every [num >= 1] such that [float(num - 1)]
    does not overflow, [linspace] returns exactly [num] elements; for
    [num = 1] the result is [[start]] whatever [stop] is; for [num > 1]
    element [i] is [start + i * step] with
    [step = (stop - start) / (num - 1)], each operation rounded in
    binary64, and element 0 compares equal to [start] whenever [start]
    and [step] are finite.  For [num > 1] the last element satisfies
    [math.isclose(xs[-1], stop, rel_tol=1e-9)] whenever there is no
    cancellation ([abs(start) <= 2.0**16 * abs(stop)]), no overflow
    ([abs(stop) <= 2.0**1000]) and no underflow (the step is a normal
    float), for [num - 1 < 2**53].  When [float(num - 1)] overflows,
    [linspace] raises [OverflowError].  Evaluated over the rationals,
    element 0 is [start] and, for [num > 1], the last element is
    [stop]. *)
Theorem C3_axis_length_and_endpoints (num : Z) :
  1 ≤ num →
  (∀ start stop : spec_float,
     (finite64 (of_int (num - 1)) = true →
      ∃ xs, linspace start stop num = Ok xs
        ∧ Z.of_nat (length xs) = num
        ∧ (num = 1 → xs = [start])
        ∧ (1 < num → ∀ i : nat, Z.of_nat i < num →
             xs !! i = Some (fadd start (fmul (of_int (Z.of_nat i))
                               (fquot (fsub stop start) (of_int (num - 1))))))
        ∧ (finite64 start = true →
           finite64 (axis_step start stop num) = true →
           ∃ x0, xs !! 0%nat = Some x0 ∧ feqb x0 start = true)
        ∧ (1 < num → num - 1 < 2 ^ 53 →
           valid_binary prec emax start = true →
           valid_binary prec emax stop = true →
           finite64 start = true → finite64 stop = true →
           SFleb (SFabs start) (fmul (b64 1 16) (SFabs stop)) = true →
           SFleb (SFabs stop) (b64 1 1000) = true →
           normal64 (axis_step start stop num) = true →
           ∃ xl, last_elem xs = Some xl ∧ isclose64 rel_tol xl stop = true))
     ∧ (finite64 (of_int (num - 1)) = false →
        linspace start stop num = Raise OverflowError))
  ∧ (∀ start stop : Q,
       ∃ xs, linspace start stop num = Ok xs
         ∧ Z.of_nat (length xs) = num
         ∧ (num = 1 → xs = [start])
         ∧ isQ (xs !! 0%nat) start
         ∧ (1 < num → isQ (last_elem xs) stop)).
Proof.
  intros Hn. split.
  - intros start stop. split; [|apply linspace_overflow_64]. intros Fn.
    destruct (decide (num = 1)) as [->|Hne].
    + exists [start]. split; [reflexivity|]. split; [reflexivity|].
      split; [reflexivity|]. split; [lia|]. split; [|lia]. intros Hs _.
      exists start. split; [reflexivity|]. apply SFeqb_finite_refl, Hs.
    + destruct (linspace_ok start stop num) as (xs & Hxs & Hlen); [exact Fn|].
      exists xs. split; [exact Hxs|]. split; [lia|]. split; [lia|]. split;
        [|split].
      * intros _ i Hi. apply (linspace_lookup start stop num xs i Hxs Hne). lia.
      * intros Hs Hst. exists (axis_elem start stop num 0).
        split; [apply (linspace_lookup start stop num xs 0%nat Hxs Hne); lia|].
        apply axis_elem_64_first; assumption.
      * intros Hgt H53 Vs Vt Fs Ft Hab Hlim Hq.
        now apply (linspace_last_close start stop num xs).
  - intros start stop. destruct (decide (num = 1)) as [->|Hne].
    + exists [start]. split; [reflexivity|]. split; [reflexivity|].
      split; [reflexivity|]. split; [|lia].
      exists start. split; [reflexivity|]. reflexivity.
    + destruct (linspace_ok start stop num) as (xs & Hxs & Hlen); [reflexivity|].
      exists xs. split; [exact Hxs|]. split; [lia|]. split; [lia|]. split.
      * exists (axis_elem start stop num 0). split.
        -- apply (linspace_lookup start stop num xs 0%nat Hxs Hne). lia.
        -- apply axis_elem_Q_first.
      * intros Hgt. exists (axis_elem start stop num (Z.to_nat (num - 1))). split.
        -- unfold last_elem. rewrite Hlen.
           replace (Z.to_nat num - 1)%nat with (Z.to_nat (num - 1)) by lia.
           apply (linspace_lookup start stop num xs _ Hxs Hne). lia.
        -- apply axis_elem_Q_last, Hgt.
Qed.

Lemma C3_axis_length_and_endpoints_witness :
  ∃ xs, linspace default_xmin default_xmax 1024 = Ok xs
    ∧ Z.of_nat (length xs) = 1024
    ∧ (∃ x0, xs !! 0%nat = Some x0 ∧ feqb x0 default_xmin = true)
    ∧ (∃ xl, last_elem xs = Some xl
         ∧ isclose64 rel_tol xl default_xmax = true).
Proof.
  destruct (proj1 (proj1 (C3_axis_length_and_endpoints 1024 ltac:(lia))
                     default_xmin default_xmax) eq_refl)
    as (xs & Hxs & Hlen & _ & _ & Hfirst & Hlast).
  exists xs. split; [exact Hxs|]. split; [exact Hlen|]. split.
  - apply Hfirst; reflexivity.
  - apply Hlast; [lia|lia|reflexivity..].
Defined.

(** C3 fails as stated on binary64.  [linspace(-2.0**1023, 2.0**1023, 2)]
    is [[nan, inf]]: [stop - start] overflows, [step] is [inf] and
    [0 * inf] is [nan], so element 0 is not [start].
    [linspace(-2.0**53, 1.0, 2)] is [[-2.0**53, 0.0]]: [stop - start]
    rounds to [2.0**53], and the last element [0.0] is not within a
    relative tolerance of [2**-29] (looser than [1e-9]) of [stop]. *)
Lemma C3_counterexample :
  (finite64 (b64 (-1) 1023) = true ∧ finite64 (b64 1 1023) = true
   ∧ linspace (b64 (-1) 1023) (b64 1 1023) 2
       = Ok [S754_nan; S754_infinity false]
   ∧ feqb S754_nan (b64 (-1) 1023) = false)
  ∧ (linspace (b64 (-1) 53) (b64 1 0) 2 = Ok [b64 (-1) 53; S754_zero false]
     ∧ last_elem [b64 (-1) 53; S754_zero false] = Some (S754_zero false)
     ∧ isclose64 (b64 1 (-29)) (S754_zero false) (b64 1 0) = false).
Proof. vm_compute. repeat split; reflexivity. Qed.

(** C4. For every [max_iter >= 0], [mandelbrot_point] at the origin
    [0 + 0j] returns exactly [max_iter]: [z] stays [0] under
    [z = z * z + c] when [c = 0]. *)
Theorem C4_origin_never_escapes (max_iter : Z) :
  0 ≤ max_iter →
  mandelbrot_point (c_zero (F := spec_float)) max_iter = max_iter
  ∧ ∀ k : nat, orbit (c_zero (F := spec_float)) k = c_zero.
Proof.
  intros _. split.
  - unfold mandelbrot_point. now rewrite escape_loop_fixed.
  - induction k as [|k IH]; [reflexivity|]. simpl. now rewrite IH.
Qed.

Lemma C4_origin_never_escapes_witness :
  mandelbrot_point (c_zero (F := spec_float)) 80 = 80.
Proof.
  apply (proj1 (C4_origin_never_escapes 80 ltac:(lia))).
Defined.

(** C5 (as amended). For every [num < 1] such that [float(num - 1)]
    does not overflow, [linspace] raises nothing and returns the empty
    list; [mandelbrot_grid] with such a width returns one empty row per
    index of [range(height)], and with such a height it returns the empty
    grid (the other count converting as well): no cell is computed.  When
    [float(num - 1)] overflows, [linspace] raises [OverflowError], and
    [mandelbrot_grid] with such a width, or with such a height after the
    x axis has been sampled, raises the same exception. *)
Theorem C5_no_validation (num : Z) :
  num < 1 →
  (finite64 (of_int (num - 1)) = true →
   (∀ start stop : spec_float, linspace start stop num = Ok [])
   ∧ (∀ (xmin xmax ymin ymax : spec_float) height max_iter,
        finite64 (of_int (height - 1)) = true →
        mandelbrot_grid xmin xmax ymin ymax num height max_iter
          = Ok (replicate (Z.to_nat height) []))
   ∧ (∀ (xmin xmax ymin ymax : spec_float) width max_iter,
        finite64 (of_int (width - 1)) = true →
        mandelbrot_grid xmin xmax ymin ymax width num max_iter = Ok []))
  ∧ (finite64 (of_int (num - 1)) = false →
     (∀ start stop : spec_float,
        linspace start stop num = Raise OverflowError)
     ∧ (∀ (xmin xmax ymin ymax : spec_float) height max_iter,
          mandelbrot_grid xmin xmax ymin ymax num height max_iter
            = Raise OverflowError)
     ∧ (∀ (xmin xmax ymin ymax : spec_float) width max_iter,
          mandelbrot_grid xmin xmax ymin ymax width num max_iter
            = Raise OverflowError)).
Proof.
  intros Hn. split.
  - intros Fn. split; [intros; now apply linspace_empty|]. split.
    + intros xmin xmax ymin ymax height max_iter Fh.
      now apply mandelbrot_grid_no_columns.
    + intros xmin xmax ymin ymax width max_iter Fw.
      now apply mandelbrot_grid_no_rows.
  - intros Fn. split; [intros; now apply linspace_overflow_64|]. split.
    + intros. apply mandelbrot_grid_overflow_64. now left.
    + intros. apply mandelbrot_grid_overflow_64. now right.
Qed.

Lemma C5_no_validation_witness :
  linspace default_xmin default_xmax (-3) = Ok [].
Proof.
  apply (proj1 (proj1 (C5_no_validation (-3) ltac:(lia)) eq_refl)
           default_xmin default_xmax).
Defined.

(** C5 fails as stated: with a count below 1 nothing is raised.
    [linspace(0.0, 1.0, 0)] and [linspace(0.0, 1.0, -3)] return [[]], and
    [mandelbrot_grid] returns [[[], []]] for width 0 and height 2, and
    [[]] for height 0. *)
Lemma C5_counterexample :
  linspace (b64 0 0) (b64 1 0) 0 = Ok []
  ∧ linspace (b64 0 0) (b64 1 0) (-3) = Ok []
  ∧ mandelbrot_grid default_xmin default_xmax default_ymin default_ymax 0 2 80
      = Ok [[]; []]
  ∧ mandelbrot_grid default_xmin default_xmax default_ymin default_ymax 2 0 80
      = Ok []
  ∧ ¬ ∃ e, linspace (b64 0 0) (b64 1 0) 0 = Raise e.
Proof.
  repeat (split; [vm_compute; reflexivity|]).
  intros [e He]. vm_compute in He. discriminate.
Qed.

(** C6. With the default bounds (xmin = -2.0, xmax = 1.0, ymin = -1.5,
    ymax = 1.5), width = height = 3 and max_iter = 80, [mandelbrot_grid]
    returns a 3x3 grid whose four corner cells hold counts strictly below
    80 and whose centre cell, sampled at (-0.5, 0.0), holds exactly 80. *)
Theorem C6_default_view_3x3 :
  linspace default_xmin default_xmax 3
    = Ok [b64 (-2) 0; b64 (-1) (-1); b64 1 0]
  ∧ linspace default_ymin default_ymax 3
    = Ok [b64 (-3) (-1); S754_zero false; b64 3 (-1)]
  ∧ ∃ grid,
      mandelbrot_grid default_xmin default_xmax default_ymin default_ymax 3 3 80
        = Ok grid
      ∧ length grid = 3%nat ∧ Forall (λ row, length row = 3%nat) grid
      ∧ (∃ a b c d, cell grid 0 0 = Some a ∧ cell grid 0 2 = Some b
           ∧ cell grid 2 0 = Some c ∧ cell grid 2 2 = Some d
           ∧ a < 80 ∧ b < 80 ∧ c < 80 ∧ d < 80)
      ∧ cell grid 1 1 = Some 80.
Proof.
  split; [vm_compute; reflexivity|]. split; [vm_compute; reflexivity|].
  exists [[0; 1; 1]; [80; 80; 2]; [0; 1; 1]].
  split; [vm_compute; reflexivity|]. split; [reflexivity|].
  split; [repeat constructor|]. split; [|reflexivity].
  exists 0, 1, 0, 1. repeat split; lia.
Qed.

(** C7. [mandelbrot_point(2+2j, 80)] returns exactly 0: the first pass
    through the loop gives [z = c], whose squared magnitude 8 exceeds 4. *)
Theorem C7_two_plus_two_j :
  let c := Complex (b64 2 0) (b64 2 0) in
  mandelbrot_point c 80 = 0
  ∧ orbit c 1 = c
  ∧ fadd (fmul (real c) (real c)) (fmul (imag c) (imag c)) = b64 8 0
  ∧ escaped (orbit c 1) = true.
Proof. vm_compute. repeat split; reflexivity. Qed.

(** C8 (as amended). For every [num > 1] such that [float(num - 1)]
    does not overflow, element [i] of the binary64 axis is
    [start + i * step] for the one [step = (stop - start) / (num - 1)],
    each operation rounded, and the axis is non-decreasing whenever
    [stop >= start], both are finite and the step does not overflow.
    Consecutive elements differ by the step up to rounding:
    [math.isclose(xs[i+1] - xs[i], step, rel_tol=1e-9)] holds for every
    [i] on an axis of at most [2**18] elements whose step is a normal
    float with [abs(step) <= 2.0**1000] and
    [abs(start) <= 2.0**19 * abs(step)].  Evaluated over the rationals,
    consecutive elements differ by exactly [step], and the sequence is
    non-decreasing whenever [stop >= start]. *)
Theorem C8_constant_step (num : Z) :
  1 < num →
  (∀ start stop : spec_float,
     finite64 (of_int (num - 1)) = true →
     ∃ xs, linspace start stop num = Ok xs
       ∧ (∀ i : nat, Z.of_nat i < num →
            xs !! i = Some (fadd start (fmul (of_int (Z.of_nat i))
                              (axis_step start stop num))))
       ∧ (valid_binary prec emax start = true →
          valid_binary prec emax stop = true →
          finite64 start = true → finite64 stop = true →
          SFleb start stop = true →
          finite64 (axis_step start stop num) = true →
          nondecreasing64 xs)
       ∧ (num ≤ 2 ^ 18 →
          valid_binary prec emax start = true →
          valid_binary prec emax stop = true →
          finite64 start = true →
          normal64 (axis_step start stop num) = true →
          SFleb (SFabs (axis_step start stop num)) (b64 1 1000) = true →
          SFleb (SFabs start)
                (fmul (b64 1 19) (SFabs (axis_step start stop num))) = true →
          ∀ (i : nat) a b, xs !! i = Some a → xs !! S i = Some b →
            isclose64 rel_tol (fsub b a) (axis_step start stop num) = true))
  ∧ (∀ start stop : Q,
       ∃ xs, linspace start stop num = Ok xs
         ∧ (∀ (i : nat) a b, xs !! i = Some a → xs !! S i = Some b →
              (b - a == (stop - start) / inject_Z (num - 1))%Q)
         ∧ ((start <= stop)%Q → nondecreasingQ xs)).
Proof.
  intros Hn. assert (Hne : num ≠ 1) by lia. split.
  - intros start stop Fn.
    destruct (linspace_ok start stop num) as (xs & Hxs & Hlen); [exact Fn|].
    exists xs. split; [exact Hxs|]. split; [|split].
    + intros i Hi. apply (linspace_lookup start stop num xs i Hxs Hne). lia.
    + intros Vs Vt Fs Ft Hle Fst.
      destruct (linspace_nondecreasing start stop num Hn Vs Vt Fs Ft Hle Fn Fst)
        as (xs' & Hxs' & Hmono).
      rewrite Hxs in Hxs'. now injection Hxs' as <-.
    + intros H18 Vs Vt Fs Hq Hlim Hab.
      now apply (linspace_diff_close start stop num xs).
  - intros start stop.
    destruct (linspace_ok start stop num) as (xs & Hxs & Hlen); [reflexivity|].
    assert (Hdiff : ∀ (i : nat) a b, xs !! i = Some a → xs !! S i = Some b →
              (b - a == axis_step start stop num)%Q).
    { intros i a b Ha Hb.
      apply lookup_lt_Some in Hb as Hi. rewrite Hlen in Hi.
      rewrite (linspace_lookup start stop num xs i Hxs Hne) in Ha by lia.
      rewrite (linspace_lookup start stop num xs (S i) Hxs Hne) in Hb by lia.
      injection Ha as <-. injection Hb as <-. apply axis_elem_Q_succ. }
    exists xs. split; [exact Hxs|]. split; [exact Hdiff|].
    intros Hle i a b Ha Hb.
    pose proof (Hdiff i a b Ha Hb) as Hd.
    pose proof (axis_step_Q_nonneg start stop num Hn Hle) as Hs. lra.
Qed.

Lemma C8_constant_step_witness :
  ∃ xs, linspace default_xmin default_xmax 1024 = Ok xs
    ∧ nondecreasing64 xs
    ∧ ∀ (i : nat) a b, xs !! i = Some a → xs !! S i = Some b →
        isclose64 rel_tol (fsub b a)
          (axis_step default_xmin default_xmax 1024) = true.
Proof.
  destruct (proj1 (C8_constant_step 1024 ltac:(lia))
              default_xmin default_xmax eq_refl)
    as (xs & Hxs & _ & Hmono & Hdiff).
  exists xs. split; [exact Hxs|]. split.
  - apply Hmono; reflexivity.
  - apply Hdiff; [lia|reflexivity..].
Defined.

(** C8 fails as stated on binary64.  [linspace(-2.0**1023, 2.0**1023, 3)]
    is [[nan, inf, inf]] although [stop >= start]: [nan <= inf] is false,
    so the axis is not non-decreasing.  [linspace(0.0, 1.0, 4)] has
    [xs[3] - xs[2] != step], while [xs[1] - xs[0] == step]: consecutive
    elements do not differ by one constant. *)
Lemma C8_counterexample :
  (SFleb (b64 (-1) 1023) (b64 1 1023) = true
   ∧ linspace (b64 (-1) 1023) (b64 1 1023) 3
       = Ok [S754_nan; S754_infinity false; S754_infinity false]
   ∧ ¬ nondecreasing64 [S754_nan; S754_infinity false; S754_infinity false])
  ∧ (∃ x0 x1 x2 x3,
       linspace (b64 0 0) (b64 1 0) 4 = Ok [x0; x1; x2; x3]
       ∧ feqb (fsub x1 x0) (axis_step (b64 0 0) (b64 1 0) 4) = true
       ∧ feqb (fsub x3 x2) (axis_step (b64 0 0) (b64 1 0) 4) = false
       ∧ feqb (fsub x3 x2) (fsub x1 x0) = false).
Proof.
  split.
  - split; [reflexivity|]. split; [vm_compute; reflexivity|].
    intros Hmono.
    specialize (Hmono 0%nat S754_nan (S754_infinity false) eq_refl eq_refl).
    discriminate.
  - eexists _, _, _, _. split; [vm_compute; reflexivity|].
    vm_compute. repeat split; reflexivity.
Qed.

(** C9. For every complex [c], [mandelbrot_point(c, 0)] returns 0: with a
    zero budget the loop body never runs and the function returns
    [max_iter = 0], the same number it returns for a point that escapes
    on the first pass of a positive budget. *)
Theorem C9_zero_budget (c : complex spec_float) :
  mandelbrot_point c 0 = 0
  ∧ escape_loop c c_zero 0 (Z.to_nat 0) = None
  ∧ mandelbrot_point (Complex (b64 2 0) (b64 2 0)) 0
      = mandelbrot_point (Complex (b64 2 0) (b64 2 0)) 80.
Proof. split; [reflexivity|]. split; [reflexivity|]. vm_compute. reflexivity. Qed.

(** C10 (as amended). For [num = 0], [linspace] returns the empty list
    without raising: the divisor [float(num - 1)] is -1.0, not zero, and
    the comprehension ranges over nothing.  Hence [mandelbrot_grid] with
    width 0 returns [height] empty rows, and with height 0 it returns a
    grid with no rows, for every other count [n] such that
    [float(n - 1)] does not overflow; neither call raises. *)
Theorem C10_zero_count_returns_empty (n : Z) :
  finite64 (of_int (n - 1)) = true →
  (∀ start stop : spec_float, linspace start stop 0 = Ok [])
  ∧ of_int (0 - 1) = SFopp one64
  ∧ float_of_int (0 - 1) = Ok (SFopp one64)
  ∧ feqb (of_int (0 - 1)) (of_int 0) = false
  ∧ (∀ x : spec_float, fdiv x (of_int (0 - 1)) = Ok (fquot x (SFopp one64)))
  ∧ (∀ (xmin xmax ymin ymax : spec_float) max_iter,
       mandelbrot_grid xmin xmax ymin ymax 0 n max_iter
         = Ok (replicate (Z.to_nat n) []))
  ∧ (∀ (xmin xmax ymin ymax : spec_float) max_iter,
       mandelbrot_grid xmin xmax ymin ymax n 0 max_iter = Ok []).
Proof.
  intros Fn.
  split; [intros; apply linspace_empty; [lia|reflexivity]|].
  split; [reflexivity|]. split; [reflexivity|]. split; [reflexivity|].
  split; [reflexivity|]. split.
  - intros. apply mandelbrot_grid_no_columns; [lia|reflexivity|exact Fn].
  - intros. apply mandelbrot_grid_no_rows; [lia|exact Fn|reflexivity].
Qed.

Lemma C10_zero_count_returns_empty_witness :
  mandelbrot_grid default_xmin default_xmax default_ymin default_ymax 0 2 80
    = Ok (replicate (Z.to_nat 2) [])
  ∧ mandelbrot_grid default_xmin default_xmax default_ymin default_ymax 2 0 80
    = Ok [].
Proof.
  destruct (C10_zero_count_returns_empty 2 eq_refl)
    as (_ & _ & _ & _ & _ & Hw & Hh).
  split; [apply Hw|apply Hh].
Defined.

(** C10 fails as stated when the other count is too large for a float:
    with width 0 and a height of [2**1024], and with height 0 and a
    width of [-(2**1024)], [mandelbrot_grid] raises [OverflowError]
    instead of returning empty rows or an empty grid. *)
Lemma C10_counterexample :
  mandelbrot_grid default_xmin default_xmax default_ymin default_ymax
    0 (2 ^ 1024) 80 = Raise OverflowError
  ∧ mandelbrot_grid default_xmin default_xmax default_ymin default_ymax
    (- 2 ^ 1024) 0 80 = Raise OverflowError.
Proof. vm_compute. split; reflexivity. Qed.

(** * Further properties of the program *)

(** X1. A count obtained with budget [m] is the count obtained with any
    larger budget [m'], cut off at [m]: a point that escapes within [m]
    passes keeps its count, any other point is reported as [m]. *)
Theorem X1_budget_cuts_count (c : complex spec_float) (m m' : Z) :
  0 ≤ m ≤ m' →
  mandelbrot_point c m = Z.min m (mandelbrot_point c m').
Proof. apply mandelbrot_point_budget_min. Qed.

Lemma X1_budget_cuts_count_witness :
  mandelbrot_point (Complex (b64 1 0) (b64 0 0)) 1
  = Z.min 1 (mandelbrot_point (Complex (b64 1 0) (b64 0 0)) 80).
Proof.
  apply (X1_budget_cuts_count (Complex (b64 1 0) (b64 0 0)) 1 80). lia.
Defined.

(** X2. The grid for budget [m] is the grid for a larger budget [m'],
    same bounds and size, with every cell cut off at [m]. *)
Theorem X2_grid_budget_cut
    (xmin xmax ymin ymax : spec_float) (width height m m' : Z)
    (g' : list (list Z)) :
  0 ≤ m ≤ m' →
  mandelbrot_grid xmin xmax ymin ymax width height m' = Ok g' →
  mandelbrot_grid xmin xmax ymin ymax width height m
    = Ok ((λ row : list Z, Z.min m <$> row) <$> g').
Proof. apply mandelbrot_grid_clamp. Qed.

Lemma X2_grid_budget_cut_witness :
  mandelbrot_grid default_xmin default_xmax default_ymin default_ymax 3 3 1
  = Ok ((λ row : list Z, Z.min 1 <$> row)
          <$> [[0; 1; 1]; [80; 80; 2]; [0; 1; 1]]).
Proof.
  apply (X2_grid_budget_cut default_xmin default_xmax default_ymin default_ymax
           3 3 1 80); [lia|vm_compute; reflexivity].
Defined.

(** X3. With a budget of at least 1, the count is 0 exactly for the
    points [c] with [c.real*c.real + c.imag*c.imag > 4.0]. *)
Theorem X3_zero_count_iff_outside (c : complex spec_float) (max_iter : Z) :
  1 ≤ max_iter →
  (mandelbrot_point c max_iter = 0
   ↔ fgtb (fadd (fmul (real c) (real c)) (fmul (imag c) (imag c))) (of_int 4)
     = true).
Proof. apply mandelbrot_point_zero_iff. Qed.

Lemma X3_zero_count_iff_outside_witness :
  mandelbrot_point (Complex (b64 (-2) 0) (b64 0 0)) 80 = 0
  ↔ fgtb (fadd (fmul (b64 (-2) 0) (b64 (-2) 0)) (fmul (b64 0 0) (b64 0 0)))
         (of_int 4) = true.
Proof.
  apply (X3_zero_count_iff_outside (Complex (b64 (-2) 0) (b64 0 0)) 80). lia.
Defined.

(** X4. A point with a NaN coordinate never passes the escape test: its
    count is the whole budget, whatever the budget. *)
Theorem X4_nan_point_never_escapes (c : complex spec_float) (max_iter : Z) :
  real c = S754_nan ∨ imag c = S754_nan →
  mandelbrot_point c max_iter = max_iter.
Proof.
  intros Hc. unfold mandelbrot_point. now rewrite escape_loop_nan.
Qed.

Lemma X4_nan_point_never_escapes_witness :
  mandelbrot_point (Complex S754_nan (b64 3 0)) 80 = 80.
Proof.
  apply (X4_nan_point_never_escapes (Complex S754_nan (b64 3 0)) 80).
  left. reflexivity.
Defined.

(** X5. The count is the same at a point and at its complex conjugate,
    exactly, for every pair of binary64 coordinates and every budget. *)
Theorem X5_conjugate_symmetry (x y : spec_float) (max_iter : Z) :
  mandelbrot_point (Complex x (SFopp y)) max_iter
  = mandelbrot_point (Complex x y) max_iter.
Proof. apply mandelbrot_point_conj. Qed.

(** X6. The sign of a zero coordinate does not matter: two points whose
    coordinates are equal or both zero have the same count. *)
Theorem X6_sign_of_zero (c c' : complex spec_float) (max_iter : Z) :
  same_value (real c) (real c') → same_value (imag c) (imag c') →
  mandelbrot_point c max_iter = mandelbrot_point c' max_iter.
Proof. intros Hr Hi. apply mandelbrot_point_same. now split. Qed.

Lemma X6_sign_of_zero_witness :
  mandelbrot_point (Complex (S754_zero true) (b64 1 0)) 80
  = mandelbrot_point (Complex (S754_zero false) (b64 1 0)) 80.
Proof.
  apply (X6_sign_of_zero (Complex (S754_zero true) (b64 1 0))
           (Complex (S754_zero false) (b64 1 0)) 80); [exact I|reflexivity].
Defined.

(** X7. With a budget of 0 or less the loop body never runs: the count is
    the budget itself, negative if the budget is, and every cell of a
    returned grid holds that number. *)
Theorem X7_nonpositive_budget (max_iter : Z) :
  max_iter ≤ 0 →
  (∀ c : complex spec_float, mandelbrot_point c max_iter = max_iter)
  ∧ (∀ (xmin xmax ymin ymax : spec_float) width height grid j i v,
       mandelbrot_grid xmin xmax ymin ymax width height max_iter = Ok grid →
       cell grid j i = Some v → v = max_iter).
Proof.
  intros Hm. split.
  - intros c. now apply mandelbrot_point_no_budget.
  - intros xmin xmax ymin ymax width height grid j i v Hg Hv.
    destruct (grid_cell_is_point _ _ _ _ _ _ _ _ _ _ _ Hg Hv) as [c ->].
    now apply mandelbrot_point_no_budget.
Qed.

Lemma X7_nonpositive_budget_witness :
  mandelbrot_point (Complex (b64 2 0) (b64 2 0)) (-5) = -5.
Proof.
  apply (proj1 (X7_nonpositive_budget (-5) ltac:(lia))).
Defined.

(** X8. When [float(width - 1)] and [float(height - 1)] do not
    overflow, the nested loops of [mandelbrot_grid] raise nothing and
    return the nested comprehension
    [[[mandelbrot_point(x + 1j*y, max_iter) for x in xs] for y in ys]]
    over the two sampled axes, for every budget; when one of the two
    conversions overflows, the call raises [OverflowError]. *)
Theorem X8_grid_is_comprehension
    (xmin xmax ymin ymax : spec_float) (width height max_iter : Z) :
  (finite64 (of_int (width - 1)) = true →
   finite64 (of_int (height - 1)) = true →
   ∃ xs ys,
     linspace xmin xmax width = Ok xs ∧ linspace ymin ymax height = Ok ys
     ∧ mandelbrot_grid xmin xmax ymin ymax width height max_iter
       = Ok ((λ y, (λ x, mandelbrot_point (sample_point x y) max_iter) <$> xs)
               <$> ys))
  ∧ (finite64 (of_int (width - 1)) = false
     ∨ finite64 (of_int (height - 1)) = false →
     mandelbrot_grid xmin xmax ymin ymax width height max_iter
     = Raise OverflowError).
Proof.
  split; [|apply mandelbrot_grid_overflow_64]. intros Fw Fh.
  destruct (linspace_ok xmin xmax width) as (xs & Hxs & _); [exact Fw|].
  destruct (linspace_ok ymin ymax height) as (ys & Hys & _); [exact Fh|].
  exists xs, ys. split; [exact Hxs|]. split; [exact Hys|].
  now apply mandelbrot_grid_closed.
Qed.

(** X9. When [stop == start], both finite, every element of the axis
    compares equal to [start], for any count whose conversion to float is
    finite: the step is a zero. *)
Theorem X9_degenerate_interval (start stop : spec_float) (num : Z) :
  valid_binary prec emax start = true → valid_binary prec emax stop = true →
  finite64 start = true → feqb stop start = true →
  finite64 (of_int (num - 1)) = true →
  ∃ xs, linspace start stop num = Ok xs
    ∧ ∀ (i : nat) x, xs !! i = Some x → feqb x start = true.
Proof.
  intros Vs Vt Fs Heq Fn.
  destruct (SFeqb_val _ _ Vt Vs Heq) as (Nt & Ns & Ev).
  pose proof (valZ_inj _ _ Vt Vs Nt Ns Ev) as Hsame.
  assert (Hfin : ∀ x, same_value x start → feqb x start = true).
  { intros x Hx. same_value_split Hx; [now apply SFeqb_finite_refl|reflexivity]. }
  destruct (decide (num = 1)) as [->|Hne].
  - exists [start]. split; [reflexivity|]. intros i x Hx.
    destruct i; cbn in Hx; [|destruct i; discriminate].
    injection Hx as <-. now apply SFeqb_finite_refl.
  - destruct (linspace_ok start stop num) as (xs & Hxs & Hlen); [exact Fn|].
    exists xs. split; [exact Hxs|]. intros i x Hx.
    apply lookup_lt_Some in Hx as Hi. rewrite Hlen in Hi.
    rewrite (linspace_lookup start stop num xs i Hxs Hne Hi) in Hx.
    assert (Ex : x = axis_elem start stop num i) by congruence. subst x.
    apply Hfin. apply axis_elem_degenerate; try assumption. lia.
Qed.

Lemma X9_degenerate_interval_witness :
  ∃ xs, linspace default_xmax default_xmax 4 = Ok xs
    ∧ ∀ (i : nat) x, xs !! i = Some x → feqb x default_xmax = true.
Proof.
  apply (X9_degenerate_interval default_xmax default_xmax 4); reflexivity.
Defined.

(** X10. For [num > 1], finite [start] and [stop], and neither the step
    nor [float(num - 1)] overflowing, no element of the binary64 axis lies
    on the far side of [start]: every element is [>= start] when
    [stop >= start] and [<= start] when [stop <= start].  Over the
    rationals every element lies between [start] and [stop]. *)
Theorem X10_axis_stays_on_its_side (num : Z) :
  1 < num →
  (∀ start stop : spec_float,
     valid_binary prec emax start = true → valid_binary prec emax stop = true →
     finite64 start = true → finite64 stop = true →
     finite64 (of_int (num - 1)) = true →
     finite64 (axis_step start stop num) = true →
     ∃ xs, linspace start stop num = Ok xs
       ∧ (SFleb start stop = true →
          ∀ (i : nat) x, xs !! i = Some x → SFleb start x = true)
       ∧ (SFleb stop start = true →
          ∀ (i : nat) x, xs !! i = Some x → SFleb x start = true))
  ∧ (∀ start stop : Q, (start <= stop)%Q →
       ∃ xs, linspace start stop num = Ok xs
         ∧ ∀ (i : nat) x, xs !! i = Some x → (start <= x <= stop)%Q).
Proof.
  intros Hn. assert (Hne : num ≠ 1) by lia. split.
  - intros start stop Vs Vt Fs Ft Fn Fst.
    destruct (linspace_ok start stop num) as (xs & Hxs & Hlen); [exact Fn|].
    exists xs. split; [exact Hxs|]. split; intros Hle i x Hx;
      apply lookup_lt_Some in Hx as Hi; rewrite Hlen in Hi;
      rewrite (linspace_lookup start stop num xs i Hxs Hne Hi) in Hx;
      assert (Ex : x = axis_elem start stop num i) by congruence; subst x.
    + apply axis_elem_ge_start; try assumption. lia.
    + apply axis_elem_le_start; try assumption. lia.
  - intros start stop Hle.
    destruct (linspace_ok start stop num) as (xs & Hxs & Hlen); [reflexivity|].
    exists xs. split; [exact Hxs|]. intros i x Hx.
    apply lookup_lt_Some in Hx as Hi. rewrite Hlen in Hi.
    rewrite (linspace_lookup start stop num xs i Hxs Hne Hi) in Hx.
    assert (Ex : x = axis_elem start stop num i) by congruence. subst x.
    apply axis_elem_Q_range; [exact Hn|lia|exact Hle].
Qed.

Lemma X10_axis_stays_on_its_side_witness :
  ∃ xs, linspace default_xmin default_xmax 3 = Ok xs
    ∧ ∀ (i : nat) x, xs !! i = Some x → SFleb default_xmin x = true.
Proof.
  destruct (proj1 (X10_axis_stays_on_its_side 3 ltac:(lia))
              default_xmin default_xmax) as (xs & Hxs & Hge & _);
    try reflexivity.
  exists xs. split; [exact Hxs|]. apply Hge. reflexivity.
Defined.

(** X11. Reversed bounds are not rejected: for [num > 1] and
    [stop <= start], both finite and nothing overflowing, the binary64
    axis is non-increasing; over the rationals as well. *)
Theorem X11_reversed_bounds_descend (num : Z) :
  1 < num →
  (∀ start stop : spec_float,
     valid_binary prec emax start = true → valid_binary prec emax stop = true →
     finite64 start = true → finite64 stop = true →
     SFleb stop start = true →
     finite64 (of_int (num - 1)) = true →
     finite64 (axis_step start stop num) = true →
     ∃ xs, linspace start stop num = Ok xs ∧ nonincreasing64 xs)
  ∧ (∀ start stop : Q, (stop <= start)%Q →
       ∃ xs, linspace start stop num = Ok xs ∧ nonincreasingQ xs).
Proof.
  intros Hn. assert (Hne : num ≠ 1) by lia. split.
  - intros start stop Vs Vt Fs Ft Hle Fn Fst.
    now apply linspace_nonincreasing.
  - intros start stop Hle.
    destruct (linspace_ok start stop num) as (xs & Hxs & Hlen); [reflexivity|].
    exists xs. split; [exact Hxs|]. intros i a b Ha Hb.
    apply lookup_lt_Some in Hb as Hi. rewrite Hlen in Hi.
    rewrite (linspace_lookup start stop num xs i Hxs Hne) in Ha by lia.
    rewrite (linspace_lookup start stop num xs (S i) Hxs Hne) in Hb by lia.
    assert (Ea : a = axis_elem start stop num i) by congruence.
    assert (Eb : b = axis_elem start stop num (S i)) by congruence.
    subst a b.
    pose proof (axis_elem_Q_succ start stop num i) as Hd.
    pose proof (axis_step_Q_nonpos start stop num Hn Hle) as Hs. lra.
Qed.

Lemma X11_reversed_bounds_descend_witness :
  ∃ xs, linspace default_xmax default_xmin 3 = Ok xs ∧ nonincreasing64 xs.
Proof.
  apply (proj1 (X11_reversed_bounds_descend 3 ltac:(lia))
           default_xmax default_xmin); reflexivity.
Defined.

(** X12. The scan [max(max(row) for row in grid)] raises [ValueError]
    exactly when the grid has no rows or has an empty row; otherwise it
    returns a value held by some cell that no cell exceeds. *)
Theorem X12_max_scan (grid : list (list Z)) :
  (max_in_grid grid = None ↔ grid = [] ∨ [] ∈ grid)
  ∧ ∀ m, max_in_grid grid = Some m →
      (∃ j i, cell grid j i = Some m)
      ∧ ∀ j i v, cell grid j i = Some v → v ≤ m.
Proof.
  split; [apply max_in_grid_None|]. intros m. apply max_in_grid_Some.
Qed.

(** X13. For width >= 1, height >= 1 such that [float(width - 1)] and
    [float(height - 1)] do not overflow, and a budget >= 0, what the
    script reports about a computed grid is defined: its size is [height]
    by [width] and its maximum lies in [0, max_iter]. *)
Theorem X13_report_of_computed_grid
    (xmin xmax ymin ymax : spec_float) (width height max_iter : Z) :
  1 ≤ width → 1 ≤ height → 0 ≤ max_iter →
  finite64 (of_int (width - 1)) = true →
  finite64 (of_int (height - 1)) = true →
  ∃ grid m,
    mandelbrot_grid xmin xmax ymin ymax width height max_iter = Ok grid
    ∧ grid_report grid = Some (Z.to_nat height, Z.to_nat width, m)
    ∧ 0 ≤ m ≤ max_iter.
Proof.
  intros Hw Hh Hm Fw Fh.
  destruct (computed_grid_scan xmin xmax ymin ymax width height max_iter
              Hw Hh Hm Fw Fh)
    as (grid & m & Hg & _ & Hrep & Hrange).
  now exists grid, m.
Qed.

Lemma X13_report_of_computed_grid_witness :
  ∃ grid m,
    mandelbrot_grid default_xmin default_xmax default_ymin default_ymax 3 2 80
      = Ok grid
    ∧ grid_report grid = Some (Z.to_nat 2, Z.to_nat 3, m)
    ∧ 0 ≤ m ≤ 80.
Proof.
  apply (X13_report_of_computed_grid
           default_xmin default_xmax default_ymin default_ymax 3 2 80);
    first [lia | reflexivity].
Defined.

(** X14. With width < 1 or height < 1, and [float(width - 1)] and
    [float(height - 1)] not overflowing, [mandelbrot_grid] returns a grid
    that has no cell, and the scan [max(max(row) for row in grid)] raises
    on it. *)
Theorem X14_scan_of_empty_grid
    (xmin xmax ymin ymax : spec_float) (width height max_iter : Z) :
  width < 1 ∨ height < 1 →
  finite64 (of_int (width - 1)) = true →
  finite64 (of_int (height - 1)) = true →
  ∃ grid,
    mandelbrot_grid xmin xmax ymin ymax width height max_iter = Ok grid
    ∧ (∀ j i, cell grid j i = None)
    ∧ max_in_grid grid = None.
Proof.
  intros Hwh Fw Fh.
  destruct (mandelbrot_grid_spec xmin xmax ymin ymax width height max_iter)
    as (xs & ys & grid & _ & _ & _ & _ & Hg & Hlen & Hrows & _);
    [exact Fw|exact Fh|].
  exists grid. split; [exact Hg|].
  assert (Hcells : ∀ j i, cell grid j i = None).
  { intros j i. unfold cell. destruct (grid !! j) as [row|] eqn:Hrow; [|reflexivity].
    cbn. apply lookup_ge_None. apply lookup_lt_Some in Hrow as Hj.
    rewrite (Hrows _ _ Hrow). lia. }
  split; [exact Hcells|].
  destruct (max_in_grid grid) as [m|] eqn:E; [|reflexivity].
  destruct (max_in_grid_Some grid m E) as [(j & i & Hc) _].
  now rewrite Hcells in Hc.
Qed.

Lemma X14_scan_of_empty_grid_witness :
  ∃ grid,
    mandelbrot_grid default_xmin default_xmax default_ymin default_ymax 0 2 80
      = Ok grid
    ∧ (∀ j i, cell grid j i = None)
    ∧ max_in_grid grid = None.
Proof.
  apply (X14_scan_of_empty_grid
           default_xmin default_xmax default_ymin default_ymax 0 2 80);
    [left; lia|reflexivity|reflexivity].
Defined.

(** X15. The run of the script: the grid is computed without an
    exception, and the line it prints reads 1024 rows, 1024 columns and a
    maximal count of 80 (the cell at row 511, column 682 samples a point
    that never escapes). *)
Theorem X15_script_report :
  ∃ grid, script_grid = Ok grid
    ∧ grid_report grid = Some (1024%nat, 1024%nat, 80)
    ∧ cell grid 511 682 = Some 80.
Proof.
  unfold script_grid.
  destruct (computed_grid_scan default_xmin default_xmax default_ymin default_ymax
              1024 1024 80 ltac:(lia) ltac:(lia) ltac:(lia) eq_refl eq_refl)
    as (grid & m & Hg & Hmax & Hrep & Hrange).
  assert (Hpt : mandelbrot_point
                   (sample_point (axis_elem default_xmin default_xmax 1024 682)
                                 (axis_elem default_ymin default_ymax 1024 511)) 80
                 = 80) by (vm_compute; reflexivity).
  assert (Hcell : cell grid 511 682 = Some 80).
  { destruct (mandelbrot_grid_inv _ _ _ _ _ _ _ _ Hg)
      as (xs & ys & Hxs & _ & Hys & _ & _ & _ & Hcells).
    rewrite Hcells by lia. unfold cell_value.
    rewrite (linspace_lookup _ _ _ _ 682 Hxs) by lia.
    rewrite (linspace_lookup _ _ _ _ 511 Hys) by lia.
    exact (f_equal Some Hpt). }
  exists grid. split; [exact Hg|]. split; [|exact Hcell].
  destruct (max_in_grid_Some grid m Hmax) as [_ Hub].
  pose proof (Hub _ _ _ Hcell) as Hge.
  assert (m = 80) as -> by lia.
  rewrite Hrep. f_equal.
Qed.

(** X16. With a budget of at least 1, a point with a coordinate above 2.0
    or below -2.0 (an infinity included) and no NaN coordinate gets the
    count 0. *)
Theorem X16_outside_the_square (c : complex spec_float) (max_iter : Z) :
  1 ≤ max_iter →
  valid_binary prec emax (real c) = true →
  valid_binary prec emax (imag c) = true →
  real c ≠ S754_nan → imag c ≠ S754_nan →
  fgtb (real c) (of_int 2) = true ∨ fgtb (of_int (-2)) (real c) = true
  ∨ fgtb (imag c) (of_int 2) = true ∨ fgtb (of_int (-2)) (imag c) = true →
  mandelbrot_point c max_iter = 0.
Proof.
  intros Hm Va Vb Na Nb Hout.
  apply mandelbrot_point_zero_iff; [exact Hm|].
  apply escaped_large; try assumption.
  destruct valZ_two as [E2 Em2]. cbn [fgtb binary64] in Hout.
  assert (V2 : valid_binary prec emax (of_int 2) = true) by apply of_int_valid.
  assert (Vm2 : valid_binary prec emax (of_int (-2)) = true) by apply of_int_valid.
  assert (N2 : of_int 2 ≠ S754_nan) by discriminate.
  assert (Nm2 : of_int (-2) ≠ S754_nan) by discriminate.
  destruct Hout as [Hc|[Hc|[Hc|Hc]]];
    apply SFltb_val in Hc; try assumption; rewrite ?E2, ?Em2 in Hc;
    [left|left|right|right]; lia.
Qed.

Lemma X16_outside_the_square_witness :
  mandelbrot_point (Complex (b64 1 0) (S754_infinity true)) 80 = 0.
Proof.
  apply (X16_outside_the_square (Complex (b64 1 0) (S754_infinity true)) 80);
    [lia|reflexivity|reflexivity|discriminate|discriminate|].
  right. right. right. reflexivity.
Defined.

(** X17. For a point [c] with finite coordinates, no infinity and no NaN
    ever enters [z]: every value the loop assigns to [z], up to and
    including the one that passes the escape test, has finite
    coordinates, and the quantity compared with 4.0 is never NaN.  Every
    iterate before the escaping one has both coordinates in [-2.0, 2.0]. *)
Theorem X17_iterates_stay_finite (c : complex spec_float) (max_iter : Z) :
  valid_binary prec emax (real c) = true → finite64 (real c) = true →
  valid_binary prec emax (imag c) = true → finite64 (imag c) = true →
  (∀ i : nat, Z.of_nat i ≤ mandelbrot_point c max_iter + 1 →
     let z := orbit c i in
     finite64 (real z) = true ∧ finite64 (imag z) = true
     ∧ fadd (fmul (real z) (real z)) (fmul (imag z) (imag z)) ≠ S754_nan)
  ∧ (∀ i : nat, Z.of_nat i ≤ mandelbrot_point c max_iter →
     let z := orbit c i in
     SFleb (of_int (-2)) (real z) = true ∧ SFleb (real z) (of_int 2) = true
     ∧ SFleb (of_int (-2)) (imag z) = true ∧ SFleb (imag z) (of_int 2) = true).
Proof.
  intros Vr Fr Vi Fi.
  assert (Hc : finite_point c) by (repeat split; assumption).
  assert (Hfin : ∀ i : nat, Z.of_nat i ≤ mandelbrot_point c max_iter + 1 →
                 finite_point (orbit c i)).
  { intros i Hi. apply orbit_finite; [exact Hc|].
    intros j Hj. apply (not_escaped_before_count c max_iter). lia. }
  split.
  - intros i Hi z. pose proof (Hfin i Hi) as Hz. fold z in Hz.
    split; [apply Hz|]. split; [apply Hz|]. now apply magnitude_not_nan.
  - intros i Hi z.
    assert (Hz : finite_point z) by (apply Hfin; lia).
    assert (He : escaped z = false).
    { subst z. destruct i as [|i']; [reflexivity|].
      apply (not_escaped_before_count c max_iter). lia. }
    destruct Hz as (Va & Fa & Vb & Fb).
    pose proof (finite_not_nan _ Fa) as Na. pose proof (finite_not_nan _ Fb) as Nb.
    destruct (not_escaped_small z Va Vb Na Nb He) as [Ha Hb].
    destruct valZ_two as [E2 Em2].
    assert (V2 : valid_binary prec emax (of_int 2) = true) by apply of_int_valid.
    assert (Vm2 : valid_binary prec emax (of_int (-2)) = true) by apply of_int_valid.
    assert (N2 : of_int 2 ≠ S754_nan) by discriminate.
    assert (Nm2 : of_int (-2) ≠ S754_nan) by discriminate.
    repeat split; apply SFleb_val; try assumption; rewrite ?E2, ?Em2; lia.
Qed.

Lemma X17_iterates_stay_finite_witness :
  (∀ i : nat,
     Z.of_nat i ≤ mandelbrot_point (Complex (b64 (-1) 0) (b64 1 (-2))) 80 + 1 →
     let z := orbit (Complex (b64 (-1) 0) (b64 1 (-2))) i in
     finite64 (real z) = true ∧ finite64 (imag z) = true
     ∧ fadd (fmul (real z) (real z)) (fmul (imag z) (imag z)) ≠ S754_nan)
  ∧ (∀ i : nat,
     Z.of_nat i ≤ mandelbrot_point (Complex (b64 (-1) 0) (b64 1 (-2))) 80 →
     let z := orbit (Complex (b64 (-1) 0) (b64 1 (-2))) i in
     SFleb (of_int (-2)) (real z) = true ∧ SFleb (real z) (of_int 2) = true
     ∧ SFleb (of_int (-2)) (imag z) = true ∧ SFleb (imag z) (of_int 2) = true).
Proof.
  apply (X17_iterates_stay_finite (Complex (b64 (-1) 0) (b64 1 (-2))) 80);
    reflexivity.
Defined.

(** X18. If the sampled coordinate [ys[j]] is an infinity or NaN, the
    point [xs[i] + 1j * ys[j]] has a NaN real part for every [xs[i]], and
    every cell of row [j] holds [max_iter]: the row is reported as if it
    never escaped. *)
Theorem X18_nonfinite_row
    (xmin xmax ymin ymax : spec_float) (width height max_iter : Z)
    (grid : list (list Z)) (ys : list spec_float) (j : nat) (y : spec_float) :
  mandelbrot_grid xmin xmax ymin ymax width height max_iter = Ok grid →
  linspace ymin ymax height = Ok ys →
  ys !! j = Some y → finite64 y = false →
  (∀ x, real (sample_point x y) = S754_nan)
  ∧ ∀ i v, cell grid j i = Some v → v = max_iter.
Proof.
  intros Hg Hys Hy Hinf. split; [intros x; now apply sample_point_nonfinite|].
  intros i v Hv.
  destruct (mandelbrot_grid_inv _ _ _ _ _ _ _ _ Hg)
    as (xs & ys' & _ & Hlx & Hys' & _ & Hlen & Hrows & Hcells).
  rewrite Hys in Hys'. injection Hys' as <-.
  destruct (cell_Some _ _ _ _ Hv) as (row & Hrow & Hi).
  apply lookup_lt_Some in Hi as Hi'. rewrite (Hrows _ _ Hrow) in Hi'.
  apply lookup_lt_Some in Hrow as Hj. rewrite Hlen in Hj.
  rewrite (Hcells j i Hj Hi') in Hv. unfold cell_value in Hv.
  rewrite Hy in Hv.
  destruct (xs !! i) as [x|]; [|discriminate]. cbn in Hv.
  injection Hv as <-. unfold mandelbrot_point.
  rewrite escape_loop_nan; [reflexivity|].
  left. now apply sample_point_nonfinite.
Qed.

Lemma X18_nonfinite_row_witness :
  (∀ x, real (sample_point x (S754_infinity false)) = S754_nan)
  ∧ ∀ i v, cell [[5; 5]; [5; 5]] 1 i = Some v → v = 5.
Proof.
  apply (X18_nonfinite_row default_xmin default_xmax (b64 (-1) 1023) (b64 1 1023)
           2 2 5 [[5; 5]; [5; 5]] [S754_nan; S754_infinity false] 1
           (S754_infinity false)); vm_compute; reflexivity.
Defined.
